(** * final_backup.py: the copy, verify and delete pipeline

    A shallow embedding of [src/final_backup.py].  The file system is a
    finite map from paths to nodes, the Python functions are written in a
    state-and-exception monad over it, and the properties of the
    specification are proved about those functions. *)

From Stdlib Require Import ZArith NArith List Ascii String Strings.Byte Lia DecimalString DecimalNat.
From stdpp Require Import base gmap sets list strings sorting.

Open Scope string_scope.
Open Scope list_scope.

(** ** Paths

    A [pathlib.Path] is represented by its [parts]: the anchor ["/"] of an
    absolute path is the first part, every other part is a bare name. *)

Abbreviation path := (list string).

Definition root_anchor : string := "/".

(** [Path.parts] *)
Definition parts (p : path) : list string := p.

(** [Path.parent]: the anchor is its own parent, and so is the empty path. *)
Definition parent (p : path) : path :=
  match p with
  | [a] => if String.eqb a root_anchor then p else []
  | _ => List.removelast p
  end.

(** [Path.name]: the last part, empty for the anchor and the empty path. *)
Definition name (p : path) : string :=
  match p with
  | [a] => if String.eqb a root_anchor then EmptyString else a
  | _ => List.last p EmptyString
  end.

(** [p / s] for a name [s] without a path separator, which is then one
    more part: the right operands of [/] in this program are names of
    directory entries and the generated names of the backup directory,
    [name_stamp] and [name_i].  (With a separator in [--name], pathlib
    would split the operand into several parts; the theorems that say
    which path the allocation tries assume a name without one.) *)
Definition joinpath (p : path) (s : string) : path := p ++ [s].

(** [Path.joinpath] with a relative path as operand. *)
Definition joinpath_rel (p rel : path) : path := p ++ rel.

(** [str(p)] *)
Fixpoint join_names (l : list string) : string :=
  match l with
  | [] => EmptyString
  | [s] => s
  | s :: rest => s +:+ "/" +:+ join_names rest
  end.

Definition path_str (p : path) : string :=
  match p with
  | [] => "."
  | a :: rest =>
      if String.eqb a root_anchor then a +:+ join_names rest else join_names p
  end.

(** ** File-system nodes and exceptions

    The file system holds regular files and directories; there are no
    links.  A directory has the three permissions of its owner: to search
    it (go through it to an entry), to write it (add and remove entries)
    and to read it (list its entries). *)

Inductive node :=
| File (data : list byte) (readable : bool)
| Dir (searchable writable readable : bool).

(** [st_size]: the number of bytes of a regular file; for the directory at
    [p], what the file system reports there, [dir_size p]. *)
Definition st_size (dir_size : path -> Z) (p : path) (n : node) : Z :=
  match n with
  | File data _ => Z.of_nat (length data)
  | Dir _ _ _ => dir_size p
  end.

Inductive exn :=
| FileNotFoundError (p : path)
| FileExistsError (p : path)
| PermissionError (p : path)
| IsADirectoryError (p : path)
| NotADirectoryError (p : path)
| DirectoryNotEmpty (p : path)
| SameFileError (p q : path)
| ValueError (msg : string)
| EOFError.

(** [repr(s)] for a [str] of characters with codes below 256: in single
    quotes, or in double quotes when [s] has a single quote and no double
    quote; the quote in use and the backslash are escaped, and so are the
    characters that are not printable. *)
Definition backslash : ascii := ascii_of_nat 92.
Definition double_quote : ascii := ascii_of_nat 34.
Definition single_quote : ascii := ascii_of_nat 39.

Definition hex_digit (n : nat) : ascii :=
  if (n <? 10)%nat then ascii_of_nat (48 + n) else ascii_of_nat (87 + n).

Definition is_printable (n : nat) : bool :=
  ((32 <=? n) && (n <=? 126) || (161 <=? n) && negb (n =? 173))%nat.

Definition repr_char (quote c : ascii) : string :=
  let n := nat_of_ascii c in
  if Ascii.eqb c quote || Ascii.eqb c backslash
  then String backslash (String c EmptyString)
  else if (n =? 9)%nat then String backslash "t"
  else if (n =? 10)%nat then String backslash "n"
  else if (n =? 13)%nat then String backslash "r"
  else if is_printable n then String c EmptyString
  else String backslash
         (String "x" (String (hex_digit (n / 16))
                             (String (hex_digit (n mod 16)) EmptyString))).

Fixpoint repr_chars (quote : ascii) (s : string) : string :=
  match s with
  | EmptyString => EmptyString
  | String c s' => repr_char quote c +:+ repr_chars quote s'
  end.

Definition has_char (c : ascii) (s : string) : bool :=
  existsb (Ascii.eqb c) (list_ascii_of_string s).

Definition repr (s : string) : string :=
  let quote :=
    if has_char single_quote s && negb (has_char double_quote s)
    then double_quote else single_quote in
  String quote (repr_chars quote s +:+ String quote EmptyString).

(** [str(e)], the text that an f-string shows for the exception: an
    [OSError] shows [repr] of its file name. *)
Definition quoted (p : path) : string := repr (path_str p).

Definition exn_str (e : exn) : string :=
  match e with
  | FileNotFoundError p => "[Errno 2] No such file or directory: " +:+ quoted p
  | FileExistsError p => "[Errno 17] File exists: " +:+ quoted p
  | PermissionError p => "[Errno 13] Permission denied: " +:+ quoted p
  | IsADirectoryError p => "[Errno 21] Is a directory: " +:+ quoted p
  | NotADirectoryError p => "[Errno 20] Not a directory: " +:+ quoted p
  | DirectoryNotEmpty p => "[Errno 39] Directory not empty: " +:+ quoted p
  | SameFileError p q =>
      quoted p +:+ " and " +:+ quoted q +:+ " are the same file"
  | ValueError msg => msg
  | EOFError => "EOF when reading a line"
  end.

(** [pathlib._ignore_error]: the errors that [exists], [is_file] and
    [is_dir] turn into [False]. *)
Definition ignore_error (e : exn) : bool :=
  match e with
  | FileNotFoundError _ | NotADirectoryError _ => true
  | _ => false
  end.

Definition is_FileExistsError (e : exn) : bool :=
  match e with FileExistsError _ => true | _ => false end.

Definition is_FileNotFoundError (e : exn) : bool :=
  match e with FileNotFoundError _ => true | _ => false end.

(** ** The file system as a finite map, and the system calls on it *)

Abbreviation fsmap := (gmap (list string) node).

(** Path resolution: every proper prefix must be a searchable directory. *)
Fixpoint resolve_from (fs : fsmap) (full cur : path) (rest : list string)
  : exn + node :=
  match fs !! cur with
  | None => inl (FileNotFoundError full)
  | Some n =>
      match rest with
      | [] => inr n
      | s :: rest' =>
          match n with
          | File _ _ => inl (NotADirectoryError full)
          | Dir search _ _ =>
              if search then resolve_from fs full (cur ++ [s]) rest'
              else inl (PermissionError full)
          end
      end
  end.

(** [os.stat(p)] *)
Definition os_stat (fs : fsmap) (p : path) : exn + node :=
  match p with
  | [] => resolve_from fs p [] []
  | s :: rest => resolve_from fs p [s] rest
  end.

(** The entries of directory [d]: the keys one part longer than [d]. *)
Definition child_name (d k : path) : option string :=
  if decide (take (length d) k = d) then
    match drop (length d) k with
    | [s] => Some s
    | _ => None
    end
  else None.

Definition entries (fs : fsmap) (d : path) : list (string * node) :=
  omap (fun kv => match child_name d kv.1 with
                  | Some s => Some (s, kv.2)
                  | None => None
                  end) (map_to_list fs).

(** [os.scandir(d)]: the directory is opened for reading, which takes the
    permission to read it; the names are there without a search of the
    directory itself. *)
Definition os_scandir (fs : fsmap) (d : path) : exn + list (string * node) :=
  match os_stat fs d with
  | inl e => inl e
  | inr (File _ _) => inl (NotADirectoryError d)
  | inr (Dir _ _ readable) =>
      if readable then inr (entries fs d) else inl (PermissionError d)
  end.

(** The directory in which an entry for [p] is created or removed must be
    a writable, searchable directory. *)
Definition check_parent_writable (fs : fsmap) (p : path) : option exn :=
  match os_stat fs (parent p) with
  | inl e =>
      Some (match e with
            | FileNotFoundError _ => FileNotFoundError p
            | NotADirectoryError _ => NotADirectoryError p
            | PermissionError _ => PermissionError p
            | other => other
            end)
  | inr (File _ _) => Some (NotADirectoryError p)
  | inr (Dir search write _) =>
      if search && write then None else Some (PermissionError p)
  end.

(** [os.unlink(p)] *)
Definition os_unlink (fs : fsmap) (p : path) : exn + fsmap :=
  match os_stat fs p with
  | inl e => inl e
  | inr (Dir _ _ _) => inl (IsADirectoryError p)
  | inr (File _ _) =>
      match check_parent_writable fs p with
      | Some e => inl e
      | None => inr (delete p fs)
      end
  end.

(** [os.rmdir(p)] *)
Definition os_rmdir (fs : fsmap) (p : path) : exn + fsmap :=
  match os_stat fs p with
  | inl e => inl e
  | inr (File _ _) => inl (NotADirectoryError p)
  | inr (Dir _ _ _) =>
      match check_parent_writable fs p with
      | Some e => inl e
      | None =>
          match entries fs p with
          | [] => inr (delete p fs)
          | _ :: _ => inl (DirectoryNotEmpty p)
          end
      end
  end.

(** [os.mkdir(p)] *)
Definition os_mkdir (fs : fsmap) (p : path) : exn + fsmap :=
  match os_stat fs p with
  | inr _ => inl (FileExistsError p)
  | inl (FileNotFoundError _) =>
      match check_parent_writable fs p with
      | Some e => inl e
      | None => inr (<[p := Dir true true true]> fs)
      end
  | inl e => inl e
  end.

(** [open(p, "rb").read()] *)
Definition os_read (fs : fsmap) (p : path) : exn + list byte :=
  match os_stat fs p with
  | inl e => inl e
  | inr (Dir _ _ _) => inl (IsADirectoryError p)
  | inr (File data readable) =>
      if readable then inr data else inl (PermissionError p)
  end.

(** [open(p, "wb").write(data)]: creates or truncates the file. *)
Definition os_write (fs : fsmap) (p : path) (data : list byte) : exn + fsmap :=
  match os_stat fs p with
  | inr (Dir _ _ _) => inl (IsADirectoryError p)
  | inr (File _ r) => inr (<[p := File data r]> fs)
  | inl (FileNotFoundError _) =>
      match check_parent_writable fs p with
      | Some e => inl e
      | None => inr (<[p := File data true]> fs)
      end
  | inl e => inl e
  end.

(** ** SHA-256 ([hashlib.sha256]), on 32-bit words kept in [Z] *)

Module SHA256.

Definition mask32 (x : Z) : Z := Z.land x 0xffffffff.
Definition add32 (x y : Z) : Z := mask32 (x + y).
Definition rotr (n x : Z) : Z :=
  Z.lor (Z.shiftr x n) (mask32 (Z.shiftl x (32 - n))).
Definition shr (n x : Z) : Z := Z.shiftr x n.
Definition not32 (x : Z) : Z := Z.lxor x 0xffffffff.

Definition Ch (x y z : Z) : Z := Z.lxor (Z.land x y) (Z.land (not32 x) z).
Definition Maj (x y z : Z) : Z :=
  Z.lxor (Z.lxor (Z.land x y) (Z.land x z)) (Z.land y z).
Definition Sigma0 (x : Z) : Z :=
  Z.lxor (Z.lxor (rotr 2 x) (rotr 13 x)) (rotr 22 x).
Definition Sigma1 (x : Z) : Z :=
  Z.lxor (Z.lxor (rotr 6 x) (rotr 11 x)) (rotr 25 x).
Definition sigma0 (x : Z) : Z :=
  Z.lxor (Z.lxor (rotr 7 x) (rotr 18 x)) (shr 3 x).
Definition sigma1 (x : Z) : Z :=
  Z.lxor (Z.lxor (rotr 17 x) (rotr 19 x)) (shr 10 x).

(** The round constants are the first 32 bits of the fractional parts of
    the cube roots of the first 64 primes, and the initial hash value is
    taken the same way from the square roots of the first 8 primes. *)
Definition is_prime (n : nat) : bool :=
  forallb (fun d => negb (n mod d =? 0)%nat) (seq 2 (n - 2)).

Definition first_primes (count : nat) : list nat :=
  firstn count (List.filter is_prime (seq 2 320)).

(** The integer cube root of [n], found bit by bit from bit [k] down. *)
Fixpoint cube_root_bits (k : nat) (n acc : Z) : Z :=
  match k with
  | O => acc
  | S k' =>
      let c := (acc + Z.shiftl 1 (Z.of_nat k'))%Z in
      if (c * c * c <=? n)%Z then cube_root_bits k' n c
      else cube_root_bits k' n acc
  end.

Definition frac_cube_root (p : nat) : Z :=
  mask32 (cube_root_bits 40 (Z.shiftl (Z.of_nat p) 96) 0).

Definition frac_square_root (p : nat) : Z :=
  mask32 (Z.sqrt (Z.shiftl (Z.of_nat p) 64)).

Definition K : list Z :=
  Eval vm_compute in map frac_cube_root (first_primes 64).

Definition H0 : list Z :=
  Eval vm_compute in map frac_square_root (first_primes 8).

Definition byte_Z (b : byte) : Z := Z.of_N (Byte.to_N b).

(** Big-endian bytes of [x], [n] of them. *)
Fixpoint be_bytes (n : nat) (x : Z) : list Z :=
  match n with
  | O => []
  | S n' => be_bytes n' (Z.shiftr x 8) ++ [Z.land x 0xff]
  end.

(** The message, a [0x80] byte, zeros up to 56 modulo 64, and the bit
    length on eight bytes. *)
Definition pad (msg : list Z) : list Z :=
  let len := Z.of_nat (length msg) in
  let zeros := Z.to_nat ((55 - len) mod 64) in
  msg ++ [0x80%Z] ++ repeat 0%Z zeros ++ be_bytes 8 (8 * len).

Fixpoint be_words (n : nat) (l : list Z) : list Z :=
  match n with
  | O => []
  | S n' =>
      match l with
      | a :: b :: c :: d :: rest =>
          (Z.shiftl a 24 + Z.shiftl b 16 + Z.shiftl c 8 + d)%Z
            :: be_words n' rest
      | _ => []
      end
  end.

Definition nthZ (l : list Z) (i : nat) : Z := nth i l 0%Z.

(** The message schedule: [w] grows from 16 to 64 words. *)
Fixpoint schedule (n : nat) (w : list Z) : list Z :=
  match n with
  | O => w
  | S n' =>
      let t := length w in
      let x :=
        add32 (add32 (sigma1 (nthZ w (t - 2))) (nthZ w (t - 7)))
              (add32 (sigma0 (nthZ w (t - 15))) (nthZ w (t - 16))) in
      schedule n' (w ++ [x])
  end.

Record regs := Regs { ra : Z; rb : Z; rc : Z; rd : Z;
                      re : Z; rf : Z; rg : Z; rh : Z }.

Definition round (s : regs) (kw : Z * Z) : regs :=
  let t1 := add32 (add32 (add32 (rh s) (Sigma1 (re s)))
                         (add32 (Ch (re s) (rf s) (rg s)) kw.1)) kw.2 in
  let t2 := add32 (Sigma0 (ra s)) (Maj (ra s) (rb s) (rc s)) in
  Regs (add32 t1 t2) (ra s) (rb s) (rc s) (add32 (rd s) t1) (re s) (rf s) (rg s).

Definition regs_of (h : list Z) : regs :=
  Regs (nthZ h 0) (nthZ h 1) (nthZ h 2) (nthZ h 3)
       (nthZ h 4) (nthZ h 5) (nthZ h 6) (nthZ h 7).

Definition regs_list (s : regs) : list Z :=
  [ra s; rb s; rc s; rd s; re s; rf s; rg s; rh s].

Definition compress (h : list Z) (block : list Z) : list Z :=
  let w := schedule 48 (be_words 16 block) in
  let s := fold_left round (combine K w) (regs_of h) in
  map (fun xy : Z * Z => add32 xy.1 xy.2) (combine h (regs_list s)).

Fixpoint blocks (n : nat) (h : list Z) (l : list Z) : list Z :=
  match n with
  | O => h
  | S n' => blocks n' (compress h (firstn 64 l)) (skipn 64 l)
  end.

Definition digest (msg : list byte) : list Z :=
  let m := pad (map byte_Z msg) in
  flat_map (be_bytes 4) (blocks (length m / 64) H0 m).

Definition hex_digit (x : Z) : ascii :=
  if (x <? 10)%Z then ascii_of_N (Z.to_N (48 + x))
  else ascii_of_N (Z.to_N (87 + x)).

Fixpoint hex (l : list Z) : string :=
  match l with
  | [] => EmptyString
  | b :: rest =>
      String (hex_digit (Z.shiftr b 4))
             (String (hex_digit (Z.land b 0xf)) (hex rest))
  end.

Definition hexdigest (msg : list byte) : string := hex (digest msg).

End SHA256.

(** ** The state-and-exception monad of the script

    The world is the file system, the lines printed so far, and the size
    that [stat] reports for the directory at each path, which depends on
    the file system in use and is taken not to change during a run.  A
    Python call returns a value, raises an exception, or (for the loops
    whose termination depends on the world) exhausts its fuel. *)

Record world := MkWorld {
  files : fsmap;
  stdout : list string;
  dir_size : path -> Z }.

(** The world with the file system [fs] and the output [out], in which
    [stat] reports 4096 bytes for every directory. *)
Definition World (fs : fsmap) (out : list string) : world :=
  MkWorld fs out (fun _ => 4096%Z).

Inductive outcome (A : Type) :=
| Ok (a : A)
| Raise (e : exn)
| Diverge.
Arguments Ok {A} a.
Arguments Raise {A} e.
Arguments Diverge {A}.

Definition M (A : Type) : Type := world -> outcome A * world.

Definition ret {A} (a : A) : M A := fun w => (Ok a, w).

Definition bind {A B} (m : M A) (k : A -> M B) : M B :=
  fun w =>
    match m w with
    | (Ok a, w') => k a w'
    | (Raise e, w') => (Raise e, w')
    | (Diverge, w') => (Diverge, w')
    end.

Definition raise {A} (e : exn) : M A := fun w => (Raise e, w).

Definition diverge {A} : M A := fun w => (Diverge, w).

(** [try: m  except Exception as e: h e]; the world keeps the effects that
    [m] had before it raised. *)
Definition try_except {A} (m : M A) (h : exn -> M A) : M A :=
  fun w =>
    match m w with
    | (Raise e, w') => h e w'
    | r => r
    end.

Declare Scope py_scope.
Delimit Scope py_scope with py.
Notation "x <- m ;; k" := (bind m (fun x => k))
  (at level 100, m at next level, right associativity) : py_scope.
Notation "m ;;; k" := (bind m (fun _ => k))
  (at level 100, right associativity) : py_scope.
Open Scope py_scope.

(** A system call that reads the file system, and one that changes it. *)
Definition sys_get {A} (f : fsmap -> exn + A) : M A :=
  fun w =>
    match f (files w) with
    | inl e => (Raise e, w)
    | inr a => (Ok a, w)
    end.

Definition sys_set (f : fsmap -> exn + fsmap) : M unit :=
  fun w =>
    match f (files w) with
    | inl e => (Raise e, w)
    | inr fs' => (Ok tt, MkWorld fs' (stdout w) (dir_size w))
    end.

(** [print(line)] *)
Definition print (line : string) : M unit :=
  fun w => (Ok tt, MkWorld (files w) (stdout w ++ [line]) (dir_size w)).

(** ** [pathlib.Path] methods *)

Definition is_dir_node (n : node) : bool :=
  match n with Dir _ _ _ => true | File _ _ => false end.

Definition is_file_node (n : node) : bool :=
  match n with File _ _ => true | Dir _ _ _ => false end.

Definition Path_stat (p : path) : M node := sys_get (fun fs => os_stat fs p).

(** [p.stat().st_size] *)
Definition Path_st_size (p : path) : M Z :=
  fun w =>
    match os_stat (files w) p with
    | inl e => (Raise e, w)
    | inr n => (Ok (st_size (dir_size w) p n), w)
    end.

Definition ignoring {A} (e : exn) (dflt : A) : M A :=
  if ignore_error e then ret dflt else raise e.

Definition Path_exists (p : path) : M bool :=
  try_except (Path_stat p ;;; ret true) (fun e => ignoring e false).

Definition Path_is_dir (p : path) : M bool :=
  try_except (n <- Path_stat p ;; ret (is_dir_node n))
             (fun e => ignoring e false).

Definition Path_is_file (p : path) : M bool :=
  try_except (n <- Path_stat p ;; ret (is_file_node n))
             (fun e => ignoring e false).

Definition Path_unlink (p : path) : M unit := sys_set (fun fs => os_unlink fs p).

Definition Path_rmdir (p : path) : M unit := sys_set (fun fs => os_rmdir fs p).

Definition Path_iterdir (p : path) : M (list path) :=
  l <- sys_get (fun fs => os_scandir fs p) ;;
  ret (map (fun e : string * node => joinpath p e.1) l).

(** [Path.mkdir(parents=False, exist_ok=...)] *)
Definition mkdir_here (p : path) (exist_ok : bool) : M unit :=
  try_except (sys_set (fun fs => os_mkdir fs p))
    (fun e =>
       if is_FileNotFoundError e then raise e
       else if negb exist_ok then raise e
       else d <- Path_is_dir p ;; if negb d then raise e else ret tt).

(** [Path.mkdir(parents=True, exist_ok=...)]: the recursion climbs to the
    parent, so the number of parts bounds it. *)
Fixpoint mkdir_parents (fuel : nat) (p : path) (exist_ok : bool) : M unit :=
  match fuel with
  | O => diverge
  | S fuel' =>
      try_except (sys_set (fun fs => os_mkdir fs p))
        (fun e =>
           if is_FileNotFoundError e then
             if decide (parent p = p) then raise e
             else mkdir_parents fuel' (parent p) true ;;;
                  mkdir_here p exist_ok
           else if negb exist_ok then raise e
           else d <- Path_is_dir p ;; if negb d then raise e else ret tt)
  end.

Definition Path_mkdir (p : path) (parents exist_ok : bool) : M unit :=
  if parents then mkdir_parents (S (length p)) p exist_ok
  else mkdir_here p exist_ok.

(** ** [sha256_of_file]

    The hash object holds the bytes fed to it; [f.read(chunk_size)] takes
    the next chunk of the open file and the loop stops at the empty one. *)

Definition hasher := list byte.
Definition sha256_new : hasher := [].
Definition sha256_update (h : hasher) (chunk : list byte) : hasher := h ++ chunk.
Definition sha256_hexdigest (h : hasher) : string := SHA256.hexdigest h.

Fixpoint read_chunks (fuel chunk_size : nat) (f : list byte) (h : hasher)
  : hasher :=
  match fuel with
  | O => h
  | S fuel' =>
      match take chunk_size f with
      | [] => h
      | chunk =>
          read_chunks fuel' chunk_size (drop chunk_size f) (sha256_update h chunk)
      end
  end.

(** The default of the parameter [chunk_size]. *)
Definition default_chunk_size : nat := Z.to_nat 8192.

Definition sha256_of_file (p : path) (chunk_size : nat) : M string :=
  f <- sys_get (fun fs => os_read fs p) ;;
  ret (sha256_hexdigest (read_chunks (S (length f)) chunk_size f sha256_new)).

(** ** [verify_pair] *)

Definition verify_pair (src dst : path) (use_hash : bool) : M bool :=
  try_except
    (de <- Path_exists dst ;;
     if negb de then ret false else
     se <- Path_exists src ;;
     if negb se then ret false else
     ss <- Path_st_size src ;;
     ds <- Path_st_size dst ;;
     if negb (ss =? ds)%Z then ret false else
     if use_hash then
       hs <- sha256_of_file src default_chunk_size ;;
       hd <- sha256_of_file dst default_chunk_size ;;
       ret (String.eqb hs hd)
     else ret true)
    (fun _ => ret false).

(** ** [delete_backed_files] *)

Abbreviation copy_record := (path * path)%type.
Abbreviation failure := (path * string)%type.

(** [any(part == n for part in src.parts for n in exclude_names)] *)
Definition excluded_part (src : path) (exclude_names : gset string) : bool :=
  existsb (fun part => existsb (fun n => String.eqb part n)
                               (elements exclude_names))
          (parts src).

(** One iteration of the [for src, dst in copied_pairs] loop. *)
Definition delete_one (exclude_names : gset string) (use_hash : bool)
    (r : copy_record) (deleted : list path) (failed : list failure)
  : M (list path * list failure) :=
  let '(src, dst) := r in
  if excluded_part src exclude_names then
    ret (deleted, failed ++ [(src, "excluded")])
  else
    ok <- verify_pair src dst use_hash ;;
    if negb ok then ret (deleted, failed ++ [(src, "verification_failed")])
    else
      try_except
        (Path_unlink src ;;; ret (deleted ++ [src], failed))
        (fun e => ret (deleted, failed ++ [(src, "delete_error:" +:+ exn_str e)])).

Fixpoint delete_loop (exclude_names : gset string) (use_hash : bool)
    (copied_pairs : list copy_record) (deleted : list path)
    (failed : list failure) : M (list path * list failure) :=
  match copied_pairs with
  | [] => ret (deleted, failed)
  | r :: rest =>
      df <- delete_one exclude_names use_hash r deleted failed ;;
      delete_loop exclude_names use_hash rest df.1 df.2
  end.

(** [sorted(dirs, key=lambda p: len(p.parts), reverse=True)]: stable, so
    directories of equal depth keep the order in which the set gave them. *)
Fixpoint insert_deeper (d : path) (l : list path) : list path :=
  match l with
  | [] => [d]
  | x :: rest =>
      if (length (parts d) <? length (parts x))%nat
      then x :: insert_deeper d rest
      else d :: l
  end.

Definition sorted_deepest_first (l : list path) : list path :=
  foldr insert_deeper [] l.

(** The body of the [for d in dirs] loop, with its [try]/[except: pass]. *)
Definition prune_one (d : path) : M unit :=
  try_except
    (e <- Path_exists d ;;
     if negb e then ret tt else
     isd <- Path_is_dir d ;;
     if negb isd then ret tt else
     l <- Path_iterdir d ;;
     match l with
     | [] => Path_rmdir d
     | _ :: _ => ret tt
     end)
    (fun _ => ret tt).

Fixpoint prune_loop (dirs : list path) : M unit :=
  match dirs with
  | [] => ret tt
  | d :: rest => prune_one d ;;; prune_loop rest
  end.

(** The directories the pruning pass goes through, in its order. *)
Definition prune_candidates (deleted : list path) : list path :=
  let dirs : gset path := list_to_set (map parent deleted) in
  sorted_deepest_first (elements dirs).

Definition delete_backed_files (copied_pairs : list copy_record)
    (exclude_names : gset string) (use_hash remove_empty_dirs : bool)
  : M (list path * list failure) :=
  df <- delete_loop exclude_names use_hash copied_pairs [] [] ;;
  (if remove_empty_dirs then prune_loop (prune_candidates df.1) else ret tt) ;;;
  ret df.


(** ** [create_unique_backup_dir] *)

(** [datetime.now()], a calendar date and a time of day. *)
Record datetime := Datetime {
  year : nat; month : nat; day : nat;
  hour : nat; minute : nat; second : nat }.

Definition digit (n : nat) : ascii := ascii_of_nat (48 + n mod 10).

(** [datetime.MAXYEAR]. *)
Definition MAXYEAR : nat := Z.to_nat 9999.

(** The fields that a [datetime] can have. *)
Definition valid_datetime (t : datetime) : Prop :=
  (1 <= year t <= MAXYEAR)%nat /\ (1 <= month t <= 12)%nat /\
  (1 <= day t <= 31)%nat /\
  (hour t <= 23)%nat /\ (minute t <= 59)%nat /\ (second t <= 59)%nat.

(** [str(i)] for a natural number. *)
Definition nat_str (i : nat) : string := NilEmpty.string_of_uint (Nat.to_uint i).

(** The zero-padded fields of two digits: [%m], [%d], [%H], [%M], [%S]. *)
Definition two_digits (n : nat) (rest : string) : string :=
  String (digit (n / 10)) (String (digit n) rest).

(** [t.strftime("%Y%m%d_%H%M%S")]; [%Y] is the year in decimal, which the
    C library does not pad: four digits from the year 1000 on. *)
Definition strftime_stamp (t : datetime) : string :=
  nat_str (year t) +:+
  two_digits (month t) (two_digits (day t)
    (String "_" (two_digits (hour t) (two_digits (minute t)
      (two_digits (second t) EmptyString))))).

Definition create_unique_backup_dir (now : datetime) (base_dir : path)
    (base_name : string) : M path :=
  let timestamp := strftime_stamp now in
  let candidate := joinpath base_dir (base_name +:+ "_" +:+ timestamp) in
  Path_mkdir candidate true false ;;;
  ret candidate.

(** ** [shutil.copy2] *)

(** [os.path.isdir]: any error means [False]. *)
Definition os_path_isdir (p : path) : M bool :=
  sys_get (fun fs => inr (match os_stat fs p with
                          | inr (Dir _ _ _) => true
                          | _ => false
                          end)).

(** [shutil._samefile]: without links, the same existing path. *)
Definition samefile (src dst : path) : M bool :=
  sys_get (fun fs => inr (match os_stat fs src with
                          | inr _ => bool_decide (src = dst)
                          | inl _ => false
                          end)).

Definition copyfile (src dst : path) : M unit :=
  same <- samefile src dst ;;
  if same then raise (SameFileError src dst) else
  data <- sys_get (fun fs => os_read fs src) ;;
  sys_set (fun fs => os_write fs dst data).

(** [shutil.copystat]: the permission bits of [src] are put on [dst]. *)
Definition os_copymode (fs : fsmap) (src dst : path) : exn + fsmap :=
  match os_stat fs src, os_stat fs dst with
  | inl e, _ => inl e
  | _, inl e => inl e
  | inr (File _ r), inr (File d _) => inr (<[dst := File d r]> fs)
  | inr _, inr _ => inr fs
  end.

Definition copystat (src dst : path) : M unit :=
  sys_set (fun fs => os_copymode fs src dst).

Definition shutil_copy2 (src dst : path) : M path :=
  isd <- os_path_isdir dst ;;
  let dst' := if isd then joinpath dst (name src) else dst in
  copyfile src dst' ;;;
  copystat src dst' ;;;
  ret dst'.

(** ** [copy_files_non_recursive] *)

Fixpoint copy_items (items : list path) (dst_dir : path)
    (exclude_names : gset string) (copied_pairs : list copy_record)
  : M (list copy_record) :=
  match items with
  | [] => ret copied_pairs
  | item :: rest =>
      if bool_decide (name item ∈ exclude_names)
      then copy_items rest dst_dir exclude_names copied_pairs
      else
        isf <- Path_is_file item ;;
        if isf then
          let dst := joinpath dst_dir (name item) in
          shutil_copy2 item dst ;;;
          copy_items rest dst_dir exclude_names (copied_pairs ++ [(item, dst)])
        else copy_items rest dst_dir exclude_names copied_pairs
  end.

Definition copy_files_non_recursive (src_dir dst_dir : path)
    (exclude_names : gset string) : M (list copy_record) :=
  items <- Path_iterdir src_dir ;;
  copy_items items dst_dir exclude_names [].

(** ** [copy_files_recursive] *)

(** [p.relative_to(base)] *)
Definition relative_to (p base : path) : M path :=
  if decide (take (length base) p = base) then ret (drop (length base) p)
  else raise (ValueError (quoted p +:+ " is not in the subpath of "
                                   +:+ quoted base)).

(** The directory names and the other names that [os.walk] gets from one
    [scandir]; a directory that cannot be scanned is passed over. *)
Definition scan_split (l : list (string * node)) : list string * list string :=
  (map fst (List.filter (fun e : string * node => is_dir_node e.2) l),
   map fst (List.filter (fun e : string * node => negb (is_dir_node e.2)) l)).

Definition walk_scan (top : path) : M (option (list string * list string)) :=
  try_except
    (l <- sys_get (fun fs => os_scandir fs top) ;; ret (Some (scan_split l)))
    (fun _ => ret None).

(** The inner [for fname in files] loop. *)
Fixpoint copy_names (fnames : list string) (root_path target_root : path)
    (exclude_names : gset string) (copied_pairs : list copy_record)
  : M (list copy_record) :=
  match fnames with
  | [] => ret copied_pairs
  | fname :: rest =>
      if bool_decide (fname ∈ exclude_names)
      then copy_names rest root_path target_root exclude_names copied_pairs
      else
        let src_file := joinpath root_path fname in
        let dst_file := joinpath target_root fname in
        shutil_copy2 src_file dst_file ;;;
        copy_names rest root_path target_root exclude_names
                   (copied_pairs ++ [(src_file, dst_file)])
  end.

(** [any(part in exclude_names for part in rel.parts if part)] *)
Definition rel_excluded (rel : path) (exclude_names : gset string) : bool :=
  existsb (fun part => bool_decide (part ∈ exclude_names))
          (List.filter (fun part => negb (String.eqb part EmptyString))
                       (parts rel)).

(** The body of the [for root, dirs, files in os.walk(src_dir)] loop. *)
Definition copy_visit (src_dir dst_dir : path) (exclude_names : gset string)
    (root_path : path) (fnames : list string) (copied_pairs : list copy_record)
  : M (list copy_record) :=
  rel <- relative_to root_path src_dir ;;
  if rel_excluded rel exclude_names then ret copied_pairs
  else
    rel_root <- relative_to root_path src_dir ;;
    let target_root := joinpath_rel dst_dir rel_root in
    Path_mkdir target_root true true ;;;
    copy_names fnames root_path target_root exclude_names copied_pairs.

(** [os.walk], top-down, with the loop body run between the scan of a
    directory and the visits of its subdirectories.  [stack] holds the
    directories still to visit. *)
Fixpoint walk_copy (fuel : nat) (stack : list path) (src_dir dst_dir : path)
    (exclude_names : gset string) (copied_pairs : list copy_record)
  : M (list copy_record) :=
  match stack with
  | [] => ret copied_pairs
  | top :: stack' =>
      match fuel with
      | O => diverge
      | S fuel' =>
          sc <- walk_scan top ;;
          match sc with
          | None =>
              walk_copy fuel' stack' src_dir dst_dir exclude_names copied_pairs
          | Some (dirs, fnames) =>
              copied' <- copy_visit src_dir dst_dir exclude_names top fnames
                                    copied_pairs ;;
              walk_copy fuel' (map (joinpath top) dirs ++ stack')
                        src_dir dst_dir exclude_names copied'
          end
      end
  end.

Definition copy_files_recursive (fuel : nat) (src_dir dst_dir : path)
    (exclude_names : gset string) : M (list copy_record) :=
  walk_copy fuel [src_dir] src_dir dst_dir exclude_names [].

(** ** [determine_script_and_base_dir] and [main] *)

(** A [str] that is read: its Unicode code points. *)
Abbreviation ustr := (list N).

(** The code points of ASCII text. *)
Definition ustr_of_string (s : string) : ustr :=
  map N_of_ascii (list_ascii_of_string s).

Record args := Args {
  recursive : bool; arg_name : string; delete_originals : bool;
  remove_empty_dirs : bool; hash : bool; force : bool }.

(** What the run takes from its environment: [__file__] (already
    resolved) when it is defined, the working directory, the name of
    [sys.argv[0]], the clock, and the line that [input] will read. *)
Record env := Env {
  dunder_file : option path; cwd : path; argv0_name : string;
  now : datetime; stdin_line : option ustr }.

Definition determine_script_and_base_dir (e : env) : path * path :=
  match dunder_file e with
  | Some script_path => (script_path, parent script_path)
  | None => (joinpath (cwd e) (argv0_name e), cwd e)
  end.

(** [input(prompt)] *)
Definition input (e : env) (prompt : string) : M ustr :=
  print prompt ;;;
  match stdin_line e with
  | Some line => ret line
  | None => raise EOFError
  end.

(** [str.isspace] of one code point: the white space of Unicode, that is
    U+0009 to U+000D, U+001C to U+0020, U+0085, U+00A0, U+1680, U+2000 to
    U+200A, U+2028, U+2029, U+202F, U+205F and U+3000. *)
Definition is_space (c : N) : bool :=
  ((0x09 <=? c) && (c <=? 0x0D) || (0x1C <=? c) && (c <=? 0x20) ||
   (c =? 0x85) || (c =? 0xA0) || (c =? 0x1680) ||
   (0x2000 <=? c) && (c <=? 0x200A) ||
   (c =? 0x2028) || (c =? 0x2029) || (c =? 0x202F) || (c =? 0x205F) ||
   (c =? 0x3000))%N.

(** [str.strip()] *)
Fixpoint lstrip (s : ustr) : ustr :=
  match s with
  | [] => []
  | c :: s' => if is_space c then lstrip s' else s
  end.

Definition strip (s : ustr) : ustr := rev (lstrip (rev (lstrip s))).

(** [str.lower()], code point by code point.  The table has the letters
    of ASCII and of Latin-1, and the two code points above U+00FF whose
    lower-case form is in ASCII: U+0130 gives [i] and U+0307, U+212A (the
    Kelvin sign) gives [k].  Any other cased code point above U+00FF has a
    lower-case form above U+007F; it is left as it is here, which is the
    same for every comparison with ASCII text. *)
Definition lower_char (c : N) : ustr :=
  if ((0x41 <=? c) && (c <=? 0x5A))%N then [(c + 32)%N]
  else if ((0xC0 <=? c) && (c <=? 0xDE) && negb (c =? 0xD7))%N
  then [(c + 32)%N]
  else if (c =? 0x130)%N then [0x69%N; 0x307%N]
  else if (c =? 0x212A)%N then [0x6B%N]
  else [c].

Definition lower (s : ustr) : ustr := flat_map lower_char s.

Definition yes_no (b : bool) : string := if b then "Yes" else "No".

(** The [while True] loop of [main]: the names [base_1], [base_2], ... *)
Fixpoint probe_loop (fuel : nat) (base_dir : path) (base_name : string)
    (i : nat) : M path :=
  match fuel with
  | O => diverge
  | S fuel' =>
      let backup_dir := joinpath base_dir (base_name +:+ "_" +:+ nat_str i) in
      try_except (Path_mkdir backup_dir true false ;;; ret backup_dir)
        (fun ex =>
           if is_FileExistsError ex
           then probe_loop fuel' base_dir base_name (S i)
           else raise ex)
  end.

(** Lines 146 to 156 of [main]: the allocation of the backup directory. *)
Definition allocate_backup_dir (probe_fuel : nat) (now : datetime)
    (base_dir : path) (base_name : string) : M path :=
  try_except (create_unique_backup_dir now base_dir base_name)
    (fun ex =>
       if is_FileExistsError ex
       then probe_loop probe_fuel base_dir base_name 1
       else raise ex).

(** [for f in failed[:10]: print(" -", f[0], "reason:", f[1])] *)
Fixpoint print_failures (l : list failure) : M unit :=
  match l with
  | [] => ret tt
  | f :: rest =>
      print (" - " +:+ path_str f.1 +:+ " reason: " +:+ f.2) ;;;
      print_failures rest
  end.

Definition confirm_prompt : string :=
  "Are you sure you want to DELETE the original files that were backed up? THIS CANNOT BE UNDONE. (y/N): ".

(** Lines 143 to 175 of [main]: allocation, banner and copy.  The value
    is the exclusion set and the list of copy records. *)
Definition main_backup (a : args) (e : env) (probe_fuel walk_fuel : nat)
  : M (gset string * list copy_record) :=
  let '(script_path, base_dir) := determine_script_and_base_dir e in
  let script_name := name script_path in
  backup_dir <- allocate_backup_dir probe_fuel (now e) base_dir (arg_name a) ;;
  print ("Source directory : " +:+ path_str base_dir) ;;;
  print ("Backup directory  : " +:+ path_str backup_dir) ;;;
  print ("Recursive copy    : " +:+ yes_no (recursive a)) ;;;
  print ("Delete originals  : " +:+ yes_no (delete_originals a)) ;;;
  (if delete_originals a then
     print ("Verification mode : " +:+
            (if hash a then "SHA-256" else "size-only")) ;;;
     print ("Remove empty dirs : " +:+ yes_no (remove_empty_dirs a))
   else ret tt) ;;;
  let exclude : gset string := {[ name backup_dir; script_name ]} in
  print "Starting copy..." ;;;
  copied <- (if recursive a
             then copy_files_recursive walk_fuel base_dir backup_dir exclude
             else copy_files_non_recursive base_dir backup_dir exclude) ;;
  print ("Copied " +:+ nat_str (length copied) +:+ " files.") ;;;
  ret (exclude, copied).

(** Lines 176 to 199 of [main], from the copy records on. *)
Definition main_delete (a : args) (e : env) (exclude : gset string)
    (copied : list copy_record) : M unit :=
  if (length copied =? 0)%nat then print "No files copied. Exiting."
  else
    if delete_originals a then
      proceed <-
        (if negb (force a) then
           resp <- input e confirm_prompt ;;
           ret (bool_decide (lower (strip resp) = ustr_of_string "y"))
         else ret true) ;;
      if negb proceed
      then print "Aborting deletion. Backup completed, originals kept."
      else
        print "Verifying copies and deleting originals..." ;;;
        df <- delete_backed_files copied exclude (hash a) (remove_empty_dirs a) ;;
        print ("Deleted " +:+ nat_str (length df.1) +:+ " files.") ;;;
        (match df.2 with
         | _ :: _ =>
             print ("Failed to delete " +:+ nat_str (length df.2) +:+
                    " files. Details (first 10 shown):") ;;;
             print_failures (take 10 df.2)
         | [] =>
             print "All backed files deleted successfully (subject to verification)."
         end) ;;;
        print "Done."
    else
      print "Backup completed. Originals kept (deletion not requested)." ;;;
      print "Done.".

Definition main (a : args) (e : env) (probe_fuel walk_fuel : nat) : M unit :=
  ec <- main_backup a e probe_fuel walk_fuel ;;
  main_delete a e ec.1 ec.2.

(** * Definitions used to state and prove the properties *)

(** Unfolding of the monad's operations, for symbolic runs. *)
Ltac unfold_monad :=
  unfold try_except, bind, ret, raise, ignoring, sys_get, sys_set in *.

(** The digest that [sha256_of_file] returns, as a function of the file
    system. *)
Definition file_digest (fs : fsmap) (p : path) : exn + string :=
  match os_read fs p with
  | inl e => inl e
  | inr data => inr (SHA256.hexdigest data)
  end.

(** ** [verify_pair] as a function of the file system *)

Definition verify_fs (dir_size : path -> Z) (fs : fsmap) (src dst : path)
    (use_hash : bool) : bool :=
  match os_stat fs dst, os_stat fs src with
  | inr nd, inr ns =>
      (st_size dir_size src ns =? st_size dir_size dst nd)%Z &&
      (if use_hash then
         match file_digest fs src, file_digest fs dst with
         | inr hs, inr hd => String.eqb hs hd
         | _, _ => false
         end
       else true)
  | _, _ => false
  end.

(** ** One iteration of the deletion loop, as a function of the file system *)

Definition delete_step (dir_size : path -> Z) (exclude_names : gset string)
    (use_hash : bool) (r : copy_record) (fs : fsmap)
  : list path * list failure * fsmap :=
  if excluded_part r.1 exclude_names then ([], [(r.1, "excluded")], fs)
  else if negb (verify_fs dir_size fs r.1 r.2 use_hash)
  then ([], [(r.1, "verification_failed")], fs)
  else match os_unlink fs r.1 with
       | inr fs' => ([r.1], [], fs')
       | inl e => ([], [(r.1, "delete_error:" +:+ exn_str e)], fs)
       end.

(** ** The pruning pass, as a relation between file systems

    [prune_trace dirs fs fs']: going through [dirs] in order turns [fs]
    into [fs'], where a directory is either left alone or, being at that
    moment an existing, empty directory, removed. *)

Inductive prune_trace : list path -> fsmap -> fsmap -> Prop :=
| prune_trace_nil fs : prune_trace [] fs fs
| prune_trace_keep d rest fs fs' :
    prune_trace rest fs fs' -> prune_trace (d :: rest) fs fs'
| prune_trace_remove d rest fs fs' s wr :
    os_stat fs d = inr (Dir s wr true) ->
    entries fs d = [] ->
    prune_trace rest (delete d fs) fs' ->
    prune_trace (d :: rest) fs fs'.

(** The entries of [l] at the positions where [mask] is [true]. *)
Fixpoint pick {A} (mask : list bool) (l : list A) : list A :=
  match mask, l with
  | b :: mask', x :: l' => if b then x :: pick mask' l' else pick mask' l'
  | _, _ => []
  end.

(** The order in which the pruning pass goes through its candidates. *)
Definition deeper_or_equal (a b : path) : Prop :=
  (length (parts b) <= length (parts a))%nat.


(** ** The verifier of the specification

    The specification's VerificationOutcome names the cause of a failure.
    [spec_verify] follows its words (section 4.4): [None] is a pass. *)

Inductive failure_reason :=
| Missing
| SizeMismatch
| DigestMismatch
| ReadError.

Definition spec_verify (dir_size : path -> Z) (fs : fsmap) (src dst : path)
    (use_digest : bool) : option failure_reason :=
  match os_stat fs dst, os_stat fs src with
  | inl e, _ | _, inl e => Some (if ignore_error e then Missing else ReadError)
  | inr nd, inr ns =>
      if negb (st_size dir_size src ns =? st_size dir_size dst nd)%Z
      then Some SizeMismatch
      else if use_digest then
        match file_digest fs src, file_digest fs dst with
        | inr hs, inr hd => if String.eqb hs hd then None else Some DigestMismatch
        | _, _ => Some ReadError
        end
      else None
  end.

(** ** A small file system for the examples

    [/s] holds [a.txt], [sub/b.txt] and, in a directory that cannot be
    written, [ro/c.txt]; [/s/bk] holds their copies and a shorter file. *)

Definition demo_fs : fsmap :=
  list_to_map
    [ (["/"], Dir true true true);
      (["/"; "s"], Dir true true true);
      (["/"; "s"; "a.txt"], File ["h"; "e"; "l"; "l"; "o"]%byte true);
      (["/"; "s"; "sub"], Dir true true true);
      (["/"; "s"; "sub"; "b.txt"], File ["a"; "b"; "c"]%byte true);
      (["/"; "s"; "ro"], Dir true false true);
      (["/"; "s"; "ro"; "c.txt"], File ["x"; "y"]%byte true);
      (["/"; "s"; "bk"], Dir true true true);
      (["/"; "s"; "bk"; "a.txt"], File ["h"; "e"; "l"; "l"; "o"]%byte true);
      (["/"; "s"; "bk"; "sub"], Dir true true true);
      (["/"; "s"; "bk"; "sub"; "b.txt"], File ["a"; "b"; "c"]%byte true);
      (["/"; "s"; "bk"; "ro"], Dir true true true);
      (["/"; "s"; "bk"; "ro"; "c.txt"], File ["x"; "y"]%byte true);
      (["/"; "s"; "bk"; "short.txt"], File ["h"]%byte true) ].

Definition demo_world : world := World demo_fs [].

Definition demo_exclude : gset string := {[ "bk"; "final_backup.py" ]}.

Definition rec_a : copy_record := (["/"; "s"; "a.txt"], ["/"; "s"; "bk"; "a.txt"]).
Definition rec_b : copy_record :=
  (["/"; "s"; "sub"; "b.txt"], ["/"; "s"; "bk"; "sub"; "b.txt"]).
Definition rec_c : copy_record :=
  (["/"; "s"; "ro"; "c.txt"], ["/"; "s"; "bk"; "ro"; "c.txt"]).
Definition rec_missing : copy_record :=
  (["/"; "s"; "a.txt"], ["/"; "s"; "bk"; "nothing.txt"]).
Definition rec_short : copy_record :=
  (["/"; "s"; "a.txt"], ["/"; "s"; "bk"; "short.txt"]).

(** How a run shows: the outcome, the file system as a list, the output. *)
Definition shown {A} (r : outcome A * world)
  : outcome A * list (path * node) * list string :=
  (r.1, map_to_list (files r.2), stdout r.2).

(** ** Well-formed file systems

    In a file system that is a tree, an entry of two parts or more lies in
    a directory. *)
Definition fs_wf (fs : fsmap) : Prop :=
  forall k n, fs !! k = Some n -> (2 <= length k)%nat ->
    exists s wr rd, fs !! List.removelast k = Some (Dir s wr rd).

(** The path exists: [os.stat] succeeds on it. *)
Definition exists_in (fs : fsmap) (p : path) : Prop :=
  exists n, os_stat fs p = inr n.

(** What a [mkdir] of [p] may do to the world: the output is kept, the
    file system stays well formed and only grows, and the new entries are
    prefixes of [p]. *)
Definition mkdir_grows (p : path) (w w' : world) : Prop :=
  stdout w' = stdout w /\
  fs_wf (files w') /\
  files w ⊆ files w' /\
  forall k, files w !! k = None -> is_Some (files w' !! k) -> k `prefix_of` p.

Global Instance exists_in_dec fs p : Decision (exists_in fs p).
Proof.
  unfold exists_in. destruct (os_stat fs p) as [e|n].
  - right. by intros [? ?].
  - left. eauto.
Defined.

(** ** The names that the allocation tries *)

Definition stamped_dir (now : datetime) (base_dir : path) (base_name : string)
  : path :=
  joinpath base_dir (base_name +:+ "_" +:+ strftime_stamp now).

Definition numbered_dir (base_dir : path) (base_name : string) (i : nat)
  : path :=
  joinpath base_dir (base_name +:+ "_" +:+ nat_str i).

(** [n] is the first number, from 1 on, whose name is free. *)
Definition first_free (fs : fsmap) (base_dir : path) (base_name : string)
    (n : nat) : Prop :=
  (1 <= n)%nat /\
  (forall i, (1 <= i < n)%nat -> exists_in fs (numbered_dir base_dir base_name i)) /\
  ~ exists_in fs (numbered_dir base_dir base_name n).

(** One attempt: create the directory and return its path. *)
Definition mkdir_and_return (p : path) : M path :=
  Path_mkdir p true false ;;; ret p.

(** A file system for the allocation examples: the stamped name and the
    name number 1 are taken. *)
Definition alloc_fs : fsmap :=
  list_to_map
    [ (["/"], Dir true true true);
      (["/"; "s"], Dir true true true);
      (["/"; "s"; "backup_20261103_101500"], Dir true true true);
      (["/"; "s"; "backup_1"], Dir true true true) ].

Definition alloc_now : datetime := Datetime 2026 11 3 10 15 0.

(** A test for [fs_wf] on a given file system. *)
Definition fs_wf_check (fs : fsmap) : bool :=
  forallb (fun kn : path * node =>
             (length kn.1 <? 2)%nat ||
             match fs !! List.removelast kn.1 with
             | Some (Dir _ _ _) => true
             | _ => false
             end)
          (map_to_list fs).

(** ** What every record of the recursive copy looks like

    The source is a file name under a directory [src_dir ++ rel]; the
    name is not excluded and the walk did not skip the directory. *)
Definition record_ok (src_dir : path) (exclude_names : gset string)
    (r : copy_record) : Prop :=
  exists rel fname,
    r.1 = src_dir ++ rel ++ [fname] /\
    (fname ∉ exclude_names) /\
    rel_excluded rel exclude_names = false.

(** A tree for the copy examples: [/s/keep/k.txt] and, under a directory
    with the name of the backup directory, [/s/keep/bk/inner/x.txt]. *)
Definition walk_fs : fsmap :=
  list_to_map
    [ (["/"], Dir true true true);
      (["/"; "s"], Dir true true true);
      (["/"; "s"; "bk"], Dir true true true);
      (["/"; "s"; "final_backup.py"], File ["#"]%byte true);
      (["/"; "s"; "a.txt"], File ["h"; "e"; "l"; "l"; "o"]%byte true);
      (["/"; "s"; "keep"], Dir true true true);
      (["/"; "s"; "keep"; "k.txt"], File ["k"]%byte true);
      (["/"; "s"; "keep"; "bk"], Dir true true true);
      (["/"; "s"; "keep"; "bk"; "inner"], Dir true true true);
      (["/"; "s"; "keep"; "bk"; "inner"; "x.txt"], File ["x"]%byte true) ].

(** ** Invariants of the file system along a run *)

(** Every run of [m] from a file system that satisfies [I] ends, whatever
    its outcome, in a file system that satisfies [I]. *)
Definition preserves {A : Type} (I : fsmap -> Prop) (m : M A) : Prop :=
  forall w r w', I (files w) -> m w = (r, w') -> I (files w').

(** The file system stays well formed and never loses or changes an entry
    of [fs0]. *)
Definition keeps (fs0 : fsmap) (fs : fsmap) : Prop :=
  fs_wf fs /\ fs0 ⊆ fs.

(** The file system stays well formed, the backup directory [bdir] stays,
    and outside of [bdir] the file system is as in [fsa]. *)
Definition only_under (bdir : path) (fsa : fsmap) (fs : fsmap) : Prop :=
  fs_wf fs /\ is_Some (fs !! bdir) /\
  forall k, ~ bdir `prefix_of` k -> fs !! k = fsa !! k.

(** The line that [main] prints just before it calls
    [delete_backed_files]. *)
Definition deleting_line : string :=
  "Verifying copies and deleting originals...".

Definition aborting_line : string :=
  "Aborting deletion. Backup completed, originals kept.".

(** A run for the examples: recursive copy with deletion asked for,
    without [--force]. *)
Definition demo_args : args := Args true "backup" true true true false.

Definition demo_env (answer : string) : env :=
  Env (Some ["/"; "s"; "final_backup.py"]) ["/"] "final_backup.py"
      alloc_now (Some (ustr_of_string answer)).

(** A character between [0] and [9]. *)
Definition is_decimal_digit (c : ascii) : Prop :=
  (48 <= nat_of_ascii c <= 57)%nat.

(** The scenario of the specification: [a.txt] of five bytes and
    [sub/b.txt] of three, next to the script. *)
Definition scenario_fs : fsmap :=
  list_to_map
    [ (["/"], Dir true true true);
      (["/"; "s"], Dir true true true);
      (["/"; "s"; "final_backup.py"], File ["#"]%byte true);
      (["/"; "s"; "a.txt"], File ["h"; "e"; "l"; "l"; "o"]%byte true);
      (["/"; "s"; "sub"], Dir true true true);
      (["/"; "s"; "sub"; "b.txt"], File ["a"; "b"; "c"]%byte true) ].

(** A base name without a path separator: [base_dir / f"{name}_..."] has
    then one part more than [base_dir], which is what [joinpath] gives. *)
Definition plain_name (s : string) : bool := negb (has_char "/" s).

(** * Further definitions, for the properties beyond the specification's *)

(** The file system after the paths of [l] have been deleted from it. *)
Definition without (l : list path) (fs : fsmap) : fsmap :=
  foldl (fun acc p => delete p acc) fs l.

(** The file system stays well formed, and differs from [fs0] only by new
    directories. *)
Definition adds_dirs (fs0 fs : fsmap) : Prop :=
  fs_wf fs /\
  forall k, fs !! k = fs0 !! k \/
            (fs0 !! k = None /\ fs !! k = Some (Dir true true true)).

(** Whether [main] goes on to the deletion pass, given the copy records:
    deletion asked for, something copied, and [--force] or the answer
    [y]. *)
Definition confirmed (a : args) (e : env) (copied : list copy_record) : bool :=
  delete_originals a && negb (length copied =? 0)%nat &&
  (force a ||
   match stdin_line e with
   | Some resp => bool_decide (lower (strip resp) = ustr_of_string "y")
   | None => false
   end).

(** The environment [e] with another line on the standard input. *)
Definition with_stdin (e : env) (line : option ustr) : env :=
  Env (dunder_file e) (cwd e) (argv0_name e) (now e) line.

(** ** [copy_files_only] of [src/make_backup.py] *)

Fixpoint count_items (items : list path) (dst_dir : path)
    (exclude_names : gset string) (count : nat) : M nat :=
  match items with
  | [] => ret count
  | item :: rest =>
      if bool_decide (name item ∈ exclude_names)
      then count_items rest dst_dir exclude_names count
      else
        isf <- Path_is_file item ;;
        if isf then
          shutil_copy2 item (joinpath dst_dir (name item)) ;;;
          count_items rest dst_dir exclude_names (count + 1)
        else count_items rest dst_dir exclude_names count
  end.

Definition copy_files_only (src_dir dst_dir : path)
    (exclude_names : gset string) : M nat :=
  items <- Path_iterdir src_dir ;;
  count_items items dst_dir exclude_names 0.

(** ** The directories that [os.walk] yields *)

(** [[root for root, dirs, files in os.walk(top)]], top-down as in
    [walk_copy], with nothing done between the scans: [stack] holds the
    directories still to visit, and a directory that cannot be scanned is
    passed over. *)
Fixpoint walk_roots (fuel : nat) (stack : list path) : M (list path) :=
  match stack with
  | [] => ret []
  | top :: stack' =>
      match fuel with
      | O => diverge
      | S fuel' =>
          sc <- walk_scan top ;;
          match sc with
          | None => walk_roots fuel' stack'
          | Some (dirs, _) =>
              rest <- walk_roots fuel' (map (joinpath top) dirs ++ stack') ;;
              ret (top :: rest)
          end
      end
  end.

(** ** The backup directory as a mirror of the source *)

(** A node of the backup and the node of the source that it copies: a
    directory for a directory, a readable file with the same bytes for a
    file. *)
Definition mirror_node (n0 n : node) : Prop :=
  match n with
  | Dir s wr rd => s = true /\ wr = true /\ is_dir_node n0 = true
  | File data r => r = true /\ exists r0, n0 = File data r0
  end.

(** The file system [fs] during a copy from [src_dir] to [dst_dir] that
    started in [fs0]: as [fs0] outside of the backup directory, which is
    still what it was, and under it a mirror of entries that [fs0] has at
    the same relative path under [src_dir]. *)
Definition mirrors (src_dir dst_dir : path) (fs0 fs : fsmap) : Prop :=
  only_under dst_dir fs0 fs /\
  fs !! dst_dir = fs0 !! dst_dir /\
  (forall q n, q <> [] -> fs !! (dst_dir ++ q) = Some n ->
     exists n0, fs0 !! (src_dir ++ q) = Some n0 /\ mirror_node n0 n).

(** All the paths of [K] have an entry. *)
Definition present_all (K : list path) (fs : fsmap) : Prop :=
  forall k, k ∈ K -> is_Some (fs !! k).

(** A record of a copy from [src_dir] to [dst_dir] started in [fs0]: a
    relative path [q], with a readable regular file at [src_dir ++ q] in
    [fs0], and [dst_dir ++ q] as destination, in a directory [dst_dir] that
    can be searched. *)
Definition good_record (src_dir dst_dir : path) (fs0 : fsmap)
    (r : copy_record) : Prop :=
  exists q data,
    q <> [] /\ r.1 = src_dir ++ q /\ r.2 = dst_dir ++ q /\
    ~ dst_dir `prefix_of` r.1 /\
    os_stat fs0 r.1 = inr (File data true) /\
    exists wr rd, os_stat fs0 dst_dir = inr (Dir true wr rd).

(** [dst_dir] is a directory that [os.stat] finds, with nothing in it. *)
Definition empty_dir (fs : fsmap) (dst_dir : path) : Prop :=
  (exists s wr rd, os_stat fs dst_dir = inr (Dir s wr rd)) /\
  forall q, q <> [] -> fs !! (dst_dir ++ q) = None.

(** ** [generate_secure_password] of [src/Python_Scripting/secrets_patch.py] *)

(** The characters with the codes [lo], ..., [lo + n - 1]. *)
Definition code_range (lo n : nat) : list ascii :=
  map ascii_of_nat (seq lo n).

(** [string.ascii_letters], [string.digits] and [string.punctuation] *)
Definition ascii_letters : list ascii := code_range 97 26 ++ code_range 65 26.

Definition ascii_digits : list ascii := code_range 48 10.

Definition punctuation : list ascii :=
  code_range 33 15 ++ code_range 58 7 ++ code_range 91 6 ++ code_range 123 4.

Definition characters : list ascii :=
  ascii_letters ++ ascii_digits ++ punctuation.

(** [secrets.choice(seq)] is [seq[randbelow(len(seq))]]; the random source
    is [randbelow], that gives the number that the call number [k] draws
    below [n]. *)
Definition secrets_choice (randbelow : nat -> nat -> nat) (k : nat)
    (chars : list ascii) : ascii :=
  nth (randbelow k (length chars)) chars zero.

(** [''.join(secrets.choice(characters) for _ in range(length))] *)
Definition generate_secure_password (randbelow : nat -> nat -> nat)
    (length : Z) : string :=
  string_of_list_ascii
    (map (fun k => secrets_choice randbelow k characters)
         (seq 0 (Z.to_nat length))).

(** * Properties *)

(** ** Test vectors of SHA-256 *)

Example sha256_abc :
  SHA256.hexdigest ["a"; "b"; "c"]%byte
  = "ba7816bf8f01cfea414140de5dae2223b00361a396177a9cb410ff61f20015ad".
Proof. vm_compute. reflexivity. Qed.

Example sha256_empty :
  SHA256.hexdigest []
  = "e3b0c44298fc1c149afbf4c8996fb92427ae41e4649b934ca495991b7852b855".
Proof. vm_compute. reflexivity. Qed.

Example sha256_two_blocks :
  SHA256.hexdigest (repeat "a"%byte 70)
  = "6bd5e5034855a11241f0dee8fc72850ffd9955b28347a86428b5fa19119f6ad0".
Proof. vm_compute. reflexivity. Qed.

(** ** Reading a file in chunks feeds the hash the whole content *)

Lemma take_nil_inv {A} (n : nat) (l : list A) :
  (0 < n)%nat -> take n l = [] -> l = [].
Proof. destruct n, l; simpl; intros; try lia; congruence. Qed.

Lemma read_chunks_all (chunk_size : nat) :
  (0 < chunk_size)%nat ->
  forall fuel f h, (length f < fuel)%nat ->
    read_chunks fuel chunk_size f h = h ++ f.
Proof.
  intros Hcs. induction fuel as [|fuel IH]; intros f h Hlen; [lia|].
  simpl. destruct (take chunk_size f) as [|b chunk] eqn:Htake.
  - apply take_nil_inv in Htake; [|done]. subst. by rewrite app_nil_r.
  - rewrite IH.
    + unfold sha256_update. rewrite <- Htake, <- app_assoc.
      by rewrite take_drop.
    + rewrite length_drop. destruct f; simpl in *; [by destruct chunk_size|].
      lia.
Qed.

Lemma default_chunk_size_pos : (0 < default_chunk_size)%nat.
Proof. unfold default_chunk_size. lia. Qed.

Lemma sha256_of_file_run p w :
  sha256_of_file p default_chunk_size w =
  match file_digest (files w) p with
  | inl e => (Raise e, w)
  | inr d => (Ok d, w)
  end.
Proof.
  unfold sha256_of_file, file_digest, bind, sys_get, ret.
  destruct (os_read (files w) p) as [e|data]; [reflexivity|].
  rewrite read_chunks_all; [reflexivity| apply default_chunk_size_pos | lia].
Qed.

Lemma Path_stat_run p w :
  Path_stat p w =
  match os_stat (files w) p with
  | inl e => (Raise e, w)
  | inr n => (Ok n, w)
  end.
Proof. reflexivity. Qed.

Lemma Path_exists_run p w :
  Path_exists p w =
  match os_stat (files w) p with
  | inr _ => (Ok true, w)
  | inl e => if ignore_error e then (Ok false, w) else (Raise e, w)
  end.
Proof.
  unfold Path_exists, Path_stat. unfold_monad.
  destruct (os_stat (files w) p) as [e|n]; [|done].
  by destruct (ignore_error e).
Qed.

Lemma Path_is_dir_run p w :
  Path_is_dir p w =
  match os_stat (files w) p with
  | inr n => (Ok (is_dir_node n), w)
  | inl e => if ignore_error e then (Ok false, w) else (Raise e, w)
  end.
Proof.
  unfold Path_is_dir, Path_stat. unfold_monad.
  destruct (os_stat (files w) p) as [e|n]; [|done].
  by destruct (ignore_error e).
Qed.

Lemma verify_pair_run src dst use_hash w :
  verify_pair src dst use_hash w = (Ok (verify_fs (dir_size w) (files w) src dst use_hash), w).
Proof.
  unfold verify_pair, verify_fs, try_except, bind.
  rewrite Path_exists_run.
  destruct (os_stat (files w) dst) as [e1|nd] eqn:Hd.
  { by destruct (ignore_error e1). }
  simpl. rewrite Path_exists_run.
  destruct (os_stat (files w) src) as [e2|ns] eqn:Hs.
  { by destruct (ignore_error e2). }
  simpl. unfold Path_st_size at 1. rewrite Hs. simpl.
  unfold Path_st_size at 1. rewrite Hd. simpl.
  destruct (st_size (dir_size w) src ns =? st_size (dir_size w) dst nd)%Z;
    simpl; [|done].
  destruct use_hash; [|done].
  rewrite sha256_of_file_run.
  destruct (file_digest (files w) src); [done|].
  rewrite sha256_of_file_run.
  by destruct (file_digest (files w) dst).
Qed.

Lemma world_eta w : MkWorld (files w) (stdout w) (dir_size w) = w.
Proof. by destruct w. Qed.

Lemma delete_one_run ex uh r del fl w :
  delete_one ex uh r del fl w =
  let '(d, f, fs') := delete_step (dir_size w) ex uh r (files w) in
  (Ok (del ++ d, fl ++ f), MkWorld fs' (stdout w) (dir_size w)).
Proof.
  destruct r as [src dst]. unfold delete_one, delete_step. simpl.
  destruct (excluded_part src ex).
  { unfold ret. by rewrite app_nil_r, world_eta. }
  unfold bind at 1. rewrite verify_pair_run.
  destruct (verify_fs (dir_size w) (files w) src dst uh); simpl.
  - unfold Path_unlink. unfold_monad.
    destruct (os_unlink (files w) src) as [e|fs']; simpl.
    + by rewrite app_nil_r, world_eta.
    + by rewrite app_nil_r.
  - unfold ret. by rewrite app_nil_r, world_eta.
Qed.

Lemma delete_one_ok ex uh r del fl w :
  exists d f w', delete_one ex uh r del fl w = (Ok (del ++ d, fl ++ f), w') /\
    delete_one ex uh r [] [] w = (Ok (d, f), w') /\
    stdout w' = stdout w /\
    (length d + length f = 1)%nat /\
    (forall p, p ∈ d -> p = r.1) /\ (forall x, x ∈ f -> x.1 = r.1).
Proof.
  rewrite !delete_one_run. unfold delete_step.
  destruct (excluded_part r.1 ex);
    [|destruct (verify_fs (dir_size w) (files w) r.1 r.2 uh); simpl;
      [destruct (os_unlink (files w) r.1)|]];
    simpl; do 3 eexists; (split; [reflexivity|]);
    repeat split; try done;
    intros ? Hin; repeat (apply elem_of_cons in Hin as [->|Hin]; [done|]);
    by apply elem_of_nil in Hin.
Qed.

(** The loop appends to its accumulators; it never raises and never
    runs out of fuel. *)
Lemma delete_loop_acc ex uh rs : forall del fl w,
  exists D F w', delete_loop ex uh rs del fl w = (Ok (del ++ D, fl ++ F), w') /\
    delete_loop ex uh rs [] [] w = (Ok (D, F), w') /\
    stdout w' = stdout w.
Proof.
  induction rs as [|r rs IH]; intros del fl w; simpl.
  { exists [], [], w. unfold ret. by rewrite !app_nil_r. }
  unfold bind.
  destruct (delete_one_ok ex uh r del fl w) as (d & f & w1 & -> & -> & Hout & _).
  simpl.
  destruct (IH (del ++ d) (fl ++ f) w1) as (D & F & w2 & -> & HDF & Hout2).
  destruct (IH d f w2) as (D' & F' & w3 & _ & _ & _).
  destruct (IH d f w1) as (D1 & F1 & w4 & -> & HDF1 & _).
  rewrite HDF in HDF1. simplify_eq.
  exists (d ++ D1), (f ++ F1), w4.
  rewrite !app_assoc. repeat split; congruence.
Qed.

Lemma delete_loop_total ex uh rs w :
  exists D F w', delete_loop ex uh rs [] [] w = (Ok (D, F), w').
Proof.
  destruct (delete_loop_acc ex uh rs [] [] w) as (D & F & w' & _ & H & _).
  eauto.
Qed.

(** Running the loop on [pre ++ post] is running it on [pre] and then, from
    the world reached, on [post]. *)
Lemma delete_loop_app ex uh pre post w D1 F1 w1 D2 F2 w2 :
  delete_loop ex uh pre [] [] w = (Ok (D1, F1), w1) ->
  delete_loop ex uh post [] [] w1 = (Ok (D2, F2), w2) ->
  delete_loop ex uh (pre ++ post) [] [] w = (Ok (D1 ++ D2, F1 ++ F2), w2).
Proof.
  revert w D1 F1. induction pre as [|r pre IH]; intros w D1 F1 Hpre Hpost.
  { simpl in *. unfold ret in Hpre. by simplify_eq. }
  simpl in *. unfold bind in *.
  destruct (delete_one_ok ex uh r [] [] w) as (d & f & wa & _ & Hone & _).
  rewrite Hone in *. simpl in *.
  destruct (delete_loop_acc ex uh pre d f wa) as (Da & Fa & wb & Ha & Hb & _).
  rewrite Ha in Hpre. simplify_eq.
  destruct (delete_loop_acc ex uh (pre ++ post) d f wa)
    as (Dc & Fc & wc & -> & Hc & _).
  rewrite (IH _ _ _ Hb Hpost) in Hc. simplify_eq.
  by rewrite !app_assoc.
Qed.

Lemma delete_loop_cons ex uh r post w d f w1 D2 F2 w2 :
  delete_one ex uh r [] [] w = (Ok (d, f), w1) ->
  delete_loop ex uh post [] [] w1 = (Ok (D2, F2), w2) ->
  delete_loop ex uh (r :: post) [] [] w = (Ok (d ++ D2, f ++ F2), w2).
Proof.
  intros Hone Hpost. simpl. unfold bind. rewrite Hone. simpl.
  destruct (delete_loop_acc ex uh post d f w1) as (D & F & w' & -> & H & _).
  rewrite Hpost in H. by simplify_eq.
Qed.

(** The sizes that [stat] reports for the directories are not touched. *)
Lemma delete_one_dir_size ex uh r del fl w res w' :
  delete_one ex uh r del fl w = (res, w') -> dir_size w' = dir_size w.
Proof.
  rewrite delete_one_run.
  destruct (delete_step (dir_size w) ex uh r (files w)) as [[d f] fs'].
  intros ?; by simplify_eq.
Qed.

Lemma delete_loop_dir_size ex uh rs : forall del fl w res w',
  delete_loop ex uh rs del fl w = (res, w') -> dir_size w' = dir_size w.
Proof.
  induction rs as [|r rs IH]; intros del fl w res w'; simpl.
  { unfold ret. intros ?; by simplify_eq. }
  unfold bind.
  destruct (delete_one ex uh r del fl w) as [[df| |] w1] eqn:Hone;
    pose proof (delete_one_dir_size _ _ _ _ _ _ _ _ Hone) as H1.
  - intros Hrest. apply IH in Hrest. congruence.
  - intros ?; by simplify_eq.
  - intros ?; by simplify_eq.
Qed.

(** ** The pruning pass *)

Lemma prune_one_spec d w :
  exists w', prune_one d w = (Ok tt, w') /\ stdout w' = stdout w /\
    (w' = w \/
     ((exists s wr, os_stat (files w) d = inr (Dir s wr true)) /\
      entries (files w) d = [] /\ files w' = delete d (files w))).
Proof.
  unfold prune_one, try_except. unfold bind at 1. rewrite Path_exists_run.
  destruct (os_stat (files w) d) as [e|n] eqn:Hst.
  { destruct (ignore_error e); exists w; auto. }
  simpl. unfold bind at 1. rewrite Path_is_dir_run, Hst. simpl.
  destruct n as [data r|s wr rd]; simpl; [exists w; auto|].
  unfold Path_iterdir, bind, sys_get, os_scandir. rewrite Hst.
  destruct rd; simpl; [|exists w; auto].
  destruct (entries (files w) d) as [|x l] eqn:Hent; simpl; [|exists w; auto].
  unfold Path_rmdir, sys_set, os_rmdir. rewrite Hst, Hent.
  destruct (check_parent_writable (files w) d); [exists w; auto|].
  eexists. split; [reflexivity|]. split; [done|]. right. eauto.
Qed.

Lemma prune_loop_spec dirs : forall w,
  exists w', prune_loop dirs w = (Ok tt, w') /\ stdout w' = stdout w /\
    prune_trace dirs (files w) (files w').
Proof.
  induction dirs as [|d dirs IH]; intros w; simpl.
  { exists w. repeat split. constructor. }
  unfold bind.
  destruct (prune_one_spec d w) as (w1 & -> & Hout & Hcase).
  destruct (IH w1) as (w2 & -> & Hout2 & Htr).
  exists w2. split; [done|]. split; [congruence|].
  destruct Hcase as [->|((s & wr & Hst) & Hent & Hfs)].
  - by apply prune_trace_keep.
  - eapply prune_trace_remove; eauto. by rewrite <- Hfs.
Qed.

(** *** The order of the candidates *)

Lemma insert_deeper_perm d l : insert_deeper d l ≡ₚ d :: l.
Proof.
  induction l as [|x l IH]; simpl; [done|].
  destruct (length (parts d) <? length (parts x))%nat; [|done].
  rewrite IH. apply Permutation_swap.
Qed.

Lemma sorted_deepest_first_perm l : sorted_deepest_first l ≡ₚ l.
Proof.
  induction l as [|x l IH]; simpl; [done|].
  by rewrite insert_deeper_perm, IH.
Qed.

Lemma insert_deeper_sorted d l :
  StronglySorted deeper_or_equal l ->
  StronglySorted deeper_or_equal (insert_deeper d l).
Proof.
  induction 1 as [|x l Hs IH Hall]; simpl.
  { repeat constructor. }
  destruct (Nat.ltb_spec (length (parts d)) (length (parts x))).
  - constructor; [done|].
    rewrite insert_deeper_perm. constructor; [|done].
    unfold deeper_or_equal. lia.
  - constructor; [by constructor|].
    constructor; [unfold deeper_or_equal; lia|].
    eapply Forall_impl; [exact Hall|].
    unfold deeper_or_equal. intros; simpl in *; lia.
Qed.

Lemma sorted_deepest_first_sorted l :
  StronglySorted deeper_or_equal (sorted_deepest_first l).
Proof.
  induction l as [|x l IH]; simpl; [constructor|].
  by apply insert_deeper_sorted.
Qed.

Lemma prune_candidates_elem deleted d :
  d ∈ prune_candidates deleted <-> exists p, p ∈ deleted /\ d = parent p.
Proof.
  unfold prune_candidates. rewrite sorted_deepest_first_perm.
  rewrite elem_of_elements, elem_of_list_to_set.
  rewrite list_elem_of_In, in_map_iff.
  split.
  - intros (p & Hp & Hin). exists p. by rewrite list_elem_of_In.
  - intros (p & Hin & ->). exists p. by rewrite <- list_elem_of_In.
Qed.

Lemma prune_candidates_NoDup deleted : NoDup (prune_candidates deleted).
Proof.
  unfold prune_candidates. rewrite sorted_deepest_first_perm.
  apply NoDup_elements.
Qed.

(** ** [delete_backed_files] is the loop followed by the pruning pass *)

Lemma delete_backed_files_run rs ex uh red w :
  exists D F w1 w2,
    delete_loop ex uh rs [] [] w = (Ok (D, F), w1) /\
    delete_backed_files rs ex uh red w = (Ok (D, F), w2) /\
    stdout w2 = stdout w /\
    (if red then prune_trace (prune_candidates D) (files w1) (files w2)
     else w2 = w1).
Proof.
  destruct (delete_loop_acc ex uh rs [] [] w) as (D & F & w1 & _ & Hloop & Hout).
  unfold delete_backed_files, bind. rewrite Hloop. simpl.
  destruct red.
  - destruct (prune_loop_spec (prune_candidates D) w1) as (w2 & -> & Hout2 & Htr).
    exists D, F, w1, w2. split; [done|]. split; [done|]. split; [congruence|done].
  - exists D, F, w1, w1. by repeat split.
Qed.

(** ** The verifier *)

Lemma file_digest_inr fs p h :
  file_digest fs p = inr h <->
  exists data, os_read fs p = inr data /\ h = SHA256.hexdigest data.
Proof.
  unfold file_digest. destruct (os_read fs p) as [e|data].
  - split; [done|]. by intros (? & ? & _).
  - split.
    + intros ?; simplify_eq. eauto.
    + intros (data' & ? & ->). by simplify_eq.
Qed.

Lemma verify_fs_true_iff src dst use_hash w :
  verify_fs (dir_size w) (files w) src dst use_hash = true <->
  Path_exists src w = (Ok true, w) /\
  Path_exists dst w = (Ok true, w) /\
  (exists ns nd, Path_stat src w = (Ok ns, w) /\
                 Path_stat dst w = (Ok nd, w) /\
                 st_size (dir_size w) src ns = st_size (dir_size w) dst nd) /\
  (use_hash = false \/
   exists ds dd, os_read (files w) src = inr ds /\
                 os_read (files w) dst = inr dd /\
                 SHA256.hexdigest ds = SHA256.hexdigest dd).
Proof.
  rewrite !Path_exists_run.
  setoid_rewrite Path_stat_run.
  unfold verify_fs.
  destruct (os_stat (files w) dst) as [e1|nd].
  { split; [done|]. intros (_ & H & _). by destruct (ignore_error e1). }
  destruct (os_stat (files w) src) as [e2|ns].
  { split; [done|]. intros (H & _). by destruct (ignore_error e2). }
  rewrite andb_true_iff, Z.eqb_eq. split.
  - intros [Hsz Hd]. repeat split; eauto.
    destruct use_hash; [right|by left].
    destruct (file_digest (files w) src) as [|hs] eqn:Hs; [done|].
    destruct (file_digest (files w) dst) as [|hd] eqn:Hdd; [done|].
    apply String.eqb_eq in Hd. subst.
    apply file_digest_inr in Hs as (ds & Hs & Hhs).
    apply file_digest_inr in Hdd as (dd & Hdd & Hhd).
    exists ds, dd. split; [done|]. split; [done|]. congruence.
  - intros (_ & _ & (ns' & nd' & ? & ? & Hsz) & Hd). simplify_eq.
    split; [done|]. destruct Hd as [->|(ds & dd & Hs & Hdd & Heq)]; [done|].
    destruct use_hash; [|done].
    unfold file_digest. rewrite Hs, Hdd, Heq. apply String.eqb_refl.
Qed.

(** C3. [verify_pair] always returns a boolean, without raising and without
    changing the world.  The boolean is [true] exactly when source and
    destination both exist, [stat] reports the same size for both (for a
    regular file the number of its bytes), and either no digest was asked
    for, or both can be read and the SHA-256 digests of their bytes are
    equal.  So when one of the steps raises (an existence test, a [stat],
    or with [use_hash] the reading of a file for its digest), the result
    is [false]. *)
Theorem verify_pair_total_iff (src dst : path) (use_hash : bool) (w : world) :
  exists b : bool,
    verify_pair src dst use_hash w = (Ok b, w) /\
    (b = true <->
       Path_exists src w = (Ok true, w) /\
       Path_exists dst w = (Ok true, w) /\
       (exists ns nd, Path_stat src w = (Ok ns, w) /\
                      Path_stat dst w = (Ok nd, w) /\
                      st_size (dir_size w) src ns
                      = st_size (dir_size w) dst nd) /\
       (use_hash = false \/
        exists ds dd, os_read (files w) src = inr ds /\
                      os_read (files w) dst = inr dd /\
                      SHA256.hexdigest ds = SHA256.hexdigest dd)) /\
    (forall e p,
       p = src \/ p = dst ->
       Path_exists p w = (Raise e, w) \/
       Path_stat p w = (Raise e, w) \/
       (use_hash = true /\
        sha256_of_file p default_chunk_size w = (Raise e, w)) ->
       b = false).
Proof.
  exists (verify_fs (dir_size w) (files w) src dst use_hash).
  split; [apply verify_pair_run|].
  split; [by apply verify_fs_true_iff|].
  intros e p Hp Hraise.
  destruct (verify_fs (dir_size w) (files w) src dst use_hash) eqn:Hv;
    [exfalso|done].
  apply verify_fs_true_iff in Hv
    as (Hes & Hed & (ns & nd & Hss & Hsd & _) & Hh).
  assert (forall q data, os_read (files w) q = inr data ->
            sha256_of_file q default_chunk_size w
            <> (Raise e, w)) as Hread.
  { intros q data Hq. rewrite sha256_of_file_run. unfold file_digest.
    by rewrite Hq. }
  destruct Hp as [-> | ->];
    (destruct Hraise as [H|[H|[Hu H]]]; [congruence|congruence|]);
    (destruct Hh as [->|(ds & dd & Hrs & Hrd & _)]; [done|]);
    [by apply (Hread _ _ Hrs)|by apply (Hread _ _ Hrd)].
Qed.

Example verify_pair_size_only_passes :
  verify_pair rec_a.1 rec_a.2 false demo_world = (Ok true, demo_world).
Proof. vm_compute. reflexivity. Qed.

Example verify_pair_digest_passes :
  verify_pair rec_a.1 rec_a.2 true demo_world = (Ok true, demo_world).
Proof. vm_compute. reflexivity. Qed.

(** Hashing a directory raises [IsADirectoryError]; the result is [False]. *)
Example verify_pair_hash_error_fails :
  sha256_of_file ["/"; "s"; "sub"] default_chunk_size demo_world
    = (Raise (IsADirectoryError ["/"; "s"; "sub"]), demo_world) /\
  verify_pair ["/"; "s"; "sub"] ["/"; "s"; "bk"; "sub"] true demo_world
    = (Ok false, demo_world) /\
  verify_pair ["/"; "s"; "sub"] ["/"; "s"; "bk"; "sub"] false demo_world
    = (Ok true, demo_world).
Proof. repeat split; vm_compute; reflexivity. Qed.

(** ** The deletion loop, record by record *)

Lemma delete_one_deleted ex uh r w d f w1 p :
  delete_one ex uh r [] [] w = (Ok (d, f), w1) ->
  p ∈ d ->
  p = r.1 /\ excluded_part r.1 ex = false /\
  verify_fs (dir_size w) (files w) r.1 r.2 uh = true /\
  os_unlink (files w) r.1 = inr (files w1).
Proof.
  rewrite delete_one_run. unfold delete_step.
  destruct (excluded_part r.1 ex).
  { intros; simplify_eq. by apply elem_of_nil in H0. }
  destruct (verify_fs (dir_size w) (files w) r.1 r.2 uh); simpl.
  2: { intros; simplify_eq. by apply elem_of_nil in H0. }
  destruct (os_unlink (files w) r.1) as [e|fs']; simpl.
  { intros; simplify_eq. by apply elem_of_nil in H0. }
  intros ? Hin. simplify_eq. apply list_elem_of_singleton in Hin. by subst.
Qed.

Lemma delete_loop_cons_inv ex uh r rs w D F w' :
  delete_loop ex uh (r :: rs) [] [] w = (Ok (D, F), w') ->
  exists d f w1 D2 F2,
    delete_one ex uh r [] [] w = (Ok (d, f), w1) /\
    delete_loop ex uh rs [] [] w1 = (Ok (D2, F2), w') /\
    D = d ++ D2 /\ F = f ++ F2.
Proof.
  intros H.
  destruct (delete_one_ok ex uh r [] [] w) as (d & f & w1 & _ & Hone & _).
  destruct (delete_loop_total ex uh rs w1) as (D2 & F2 & w2 & Hrest).
  rewrite (delete_loop_cons _ _ _ _ _ _ _ _ _ _ _ Hone Hrest) in H.
  simplify_eq. by exists d, f, w1, D2, F2.
Qed.

Lemma verify_pair_inv src dst uh w b w' :
  verify_pair src dst uh w = (Ok b, w') ->
  verify_fs (dir_size w) (files w) src dst uh = b /\ w' = w.
Proof. rewrite verify_pair_run. intros; by simplify_eq. Qed.

Lemma Path_unlink_raise_inv p w e w' :
  Path_unlink p w = (Raise e, w') -> os_unlink (files w) p = inl e /\ w' = w.
Proof.
  unfold Path_unlink, sys_set.
  destruct (os_unlink (files w) p); intros; by simplify_eq.
Qed.

(** What the whole call returns when the records before [r], [r] itself
    and the records after it contribute [D1]/[F1], [d]/[f] and [D2]/[F2]. *)
Lemma delete_backed_files_split ex uh red pre r post w D1 F1 w1 d f w1' :
  delete_loop ex uh pre [] [] w = (Ok (D1, F1), w1) ->
  delete_one ex uh r [] [] w1 = (Ok (d, f), w1') ->
  exists D2 F2 w2 w3,
    delete_loop ex uh post [] [] w1' = (Ok (D2, F2), w2) /\
    delete_backed_files (pre ++ r :: post) ex uh red w
      = (Ok (D1 ++ d ++ D2, F1 ++ f ++ F2), w3).
Proof.
  intros Hpre Hone.
  destruct (delete_loop_total ex uh post w1') as (D2 & F2 & w2 & Hpost).
  pose proof (delete_loop_cons _ _ _ _ _ _ _ _ _ _ _ Hone Hpost) as Hcons.
  pose proof (delete_loop_app _ _ _ _ _ _ _ _ _ _ _ Hpre Hcons) as Hall.
  destruct (delete_backed_files_run (pre ++ r :: post) ex uh red w)
    as (D & F & wa & wb & Hloop & Hrun & _).
  rewrite Hall in Hloop. simplify_eq.
  by eexists _, _, _, _.
Qed.

(** C4. When the loop comes to a record that is not excluded and passes
    verification, and [src.unlink()] raises [e], the record is put in
    [failed] with the reason [delete_error:] followed by the text of [e];
    the call still returns normally, and its result holds, around that
    entry, what the records before contributed and what the loop gives for
    all the records after it, run from the same world. *)
Theorem delete_error_is_isolated
    (pre post : list copy_record) (src dst : path)
    (exclude_names : gset string) (use_hash remove_empty : bool)
    (w w1 w1' : world) (deleted1 : list path) (failed1 : list failure)
    (e : exn) :
  delete_loop exclude_names use_hash pre [] [] w
    = (Ok (deleted1, failed1), w1) ->
  excluded_part src exclude_names = false ->
  verify_pair src dst use_hash w1 = (Ok true, w1) ->
  Path_unlink src w1 = (Raise e, w1') ->
  exists deleted2 failed2 w2 w3,
    delete_loop exclude_names use_hash post [] [] w1
      = (Ok (deleted2, failed2), w2) /\
    delete_backed_files (pre ++ (src, dst) :: post) exclude_names use_hash
                        remove_empty w
      = (Ok (deleted1 ++ deleted2,
             failed1 ++ (src, "delete_error:" +:+ exn_str e) :: failed2),
         w3).
Proof.
  intros Hpre Hex Hv Hun.
  apply verify_pair_inv in Hv as [Hv _].
  apply Path_unlink_raise_inv in Hun as [Hun _].
  assert (delete_one exclude_names use_hash (src, dst) [] [] w1
          = (Ok ([], [(src, "delete_error:" +:+ exn_str e)]), w1)) as Hone.
  { rewrite delete_one_run. unfold delete_step. simpl.
    rewrite Hex, Hv, Hun. simpl. by rewrite world_eta. }
  destruct (delete_backed_files_split exclude_names use_hash remove_empty
              pre (src, dst) post w _ _ _ _ _ _ Hpre Hone)
    as (D2 & F2 & w2 & w3 & Hpost & Hrun).
  by exists D2, F2, w2, w3.
Qed.

(** C5, as amended. When the loop comes to a record that is not excluded
    and [verify_pair] returns [False], the record is put in [failed] with
    the one reason [verification_failed], whatever made the verification
    fail; the world is left as it was, and the loop goes on from it. *)
Theorem verification_failure_reason
    (pre post : list copy_record) (src dst : path)
    (exclude_names : gset string) (use_hash remove_empty : bool)
    (w w1 : world) (deleted1 : list path) (failed1 : list failure) :
  delete_loop exclude_names use_hash pre [] [] w
    = (Ok (deleted1, failed1), w1) ->
  excluded_part src exclude_names = false ->
  verify_pair src dst use_hash w1 = (Ok false, w1) ->
  delete_one exclude_names use_hash (src, dst) [] [] w1
    = (Ok ([], [(src, "verification_failed")]), w1) /\
  exists deleted2 failed2 w2 w3,
    delete_loop exclude_names use_hash post [] [] w1
      = (Ok (deleted2, failed2), w2) /\
    delete_backed_files (pre ++ (src, dst) :: post) exclude_names use_hash
                        remove_empty w
      = (Ok (deleted1 ++ deleted2,
             failed1 ++ (src, "verification_failed") :: failed2),
         w3).
Proof.
  intros Hpre Hex Hv.
  apply verify_pair_inv in Hv as [Hv _].
  assert (delete_one exclude_names use_hash (src, dst) [] [] w1
          = (Ok ([], [(src, "verification_failed")]), w1)) as Hone.
  { rewrite delete_one_run. unfold delete_step. simpl.
    rewrite Hex, Hv. simpl. by rewrite world_eta. }
  split; [done|].
  destruct (delete_backed_files_split exclude_names use_hash remove_empty
              pre (src, dst) post w _ _ _ _ _ _ Hpre Hone)
    as (D2 & F2 & w2 & w3 & Hpost & Hrun).
  by exists D2, F2, w2, w3.
Qed.

(** ** Partition of the records *)

Lemma delete_loop_partition ex uh rs : forall w D F w',
  delete_loop ex uh rs [] [] w = (Ok (D, F), w') ->
  exists mask : list bool,
    length mask = length rs /\
    D = pick mask (map fst rs) /\
    map fst F = pick (map negb mask) (map fst rs).
Proof.
  induction rs as [|r rs IH]; intros w D F w' Hrun.
  { simpl in Hrun. unfold ret in Hrun. simplify_eq. by exists []. }
  apply delete_loop_cons_inv in Hrun
    as (d & f & w1 & D2 & F2 & Hone & Hrest & -> & ->).
  destruct (IH _ _ _ _ Hrest) as (mask & Hlen & HD & HF).
  destruct (delete_one_ok ex uh r [] [] w)
    as (d' & f' & w1' & _ & Hone' & _ & Hcount & Hd & Hf).
  rewrite Hone in Hone'. simplify_eq.
  destruct d' as [|p [|]], f' as [|x [|]]; simpl in Hcount; try lia.
  - exists (false :: mask). simpl. rewrite Hlen, <- HF.
    rewrite (Hf x) by apply list_elem_of_here. done.
  - exists (true :: mask). simpl. rewrite Hlen, <- HF.
    rewrite (Hd p) by apply list_elem_of_here. done.
Qed.

Lemma pick_length_split {A} (l : list A) : forall mask,
  length mask = length l ->
  (length (pick mask l) + length (pick (map negb mask) l) = length l)%nat.
Proof.
  induction l as [|x l IH]; intros [|b mask] Hlen; simpl in *; try done.
  specialize (IH mask ltac:(lia)). destruct b; simpl; lia.
Qed.

(** C9. [delete_backed_files] returns normally, and its two lists split
    the records: some positions of the input give [deleted], in order, and
    the other positions give the paths of [failed], in order; so the two
    lengths add up to the number of records. *)
Theorem delete_backed_files_partition
    (copied_pairs : list copy_record) (exclude_names : gset string)
    (use_hash remove_empty : bool) (w : world) :
  exists (deleted : list path) (failed : list failure) (w' : world)
         (mask : list bool),
    delete_backed_files copied_pairs exclude_names use_hash remove_empty w
      = (Ok (deleted, failed), w') /\
    length mask = length copied_pairs /\
    deleted = pick mask (map fst copied_pairs) /\
    map fst failed = pick (map negb mask) (map fst copied_pairs) /\
    (length deleted + length failed = length copied_pairs)%nat.
Proof.
  destruct (delete_backed_files_run copied_pairs exclude_names use_hash
              remove_empty w) as (D & F & w1 & w2 & Hloop & Hrun & _).
  destruct (delete_loop_partition _ _ _ _ _ _ _ Hloop) as (mask & Hlen & HD & HF).
  exists D, F, w2, mask. repeat split; try done.
  rewrite <- (length_map fst F), HD, HF.
  rewrite pick_length_split; [apply length_map|by rewrite length_map].
Qed.

(** ** The exclusion check *)

Lemma excluded_part_spec src ex :
  excluded_part src ex = true <-> exists part, part ∈ parts src /\ part ∈ ex.
Proof.
  unfold excluded_part. rewrite existsb_exists. split.
  - intros (part & Hin & Hex). apply existsb_exists in Hex as (n & Hn & Heq).
    apply String.eqb_eq in Heq. subst. exists n.
    rewrite list_elem_of_In. split; [done|].
    by rewrite <- elem_of_elements, list_elem_of_In.
  - intros (part & Hin & Hex). exists part.
    rewrite <- list_elem_of_In. split; [done|].
    apply existsb_exists. exists part. rewrite String.eqb_refl.
    by rewrite <- list_elem_of_In, elem_of_elements.
Qed.

Lemma delete_loop_all_excluded ex uh rs w :
  (forall r, r ∈ rs -> excluded_part r.1 ex = true) ->
  delete_loop ex uh rs [] [] w
    = (Ok ([], map (fun r : copy_record => (r.1, "excluded")) rs), w).
Proof.
  induction rs as [|r rs IH]; intros Hall; [done|].
  assert (delete_one ex uh r [] [] w = (Ok ([], [(r.1, "excluded")]), w)) as Hone.
  { rewrite delete_one_run. unfold delete_step.
    rewrite (Hall r) by apply list_elem_of_here. simpl. by rewrite world_eta. }
  rewrite (delete_loop_cons _ _ _ _ _ _ _ _ _ _ _ Hone
             (IH (fun r' H => Hall r' (list_elem_of_further _ _ _ H)))).
  done.
Qed.

(** C10. The exclusion check of [delete_backed_files] looks at every part
    of the source path.  So when some part of the source root itself is an
    excluded name, every record whose source lies under that root is put in
    [failed] with the reason [excluded], nothing is deleted, and the world
    is left as it was. *)
Theorem excluded_ancestor_blocks_all
    (src_root : path) (copied_pairs : list copy_record)
    (exclude_names : gset string) (use_hash remove_empty : bool) (w : world) :
  (exists part, part ∈ parts src_root /\ part ∈ exclude_names) ->
  (forall r, r ∈ copied_pairs -> src_root `prefix_of` r.1) ->
  (forall r, r ∈ copied_pairs -> excluded_part r.1 exclude_names = true) /\
  delete_backed_files copied_pairs exclude_names use_hash remove_empty w
    = (Ok ([], map (fun r : copy_record => (r.1, "excluded")) copied_pairs), w).
Proof.
  intros (part & Hpart & Hex) Hunder.
  assert (forall r, r ∈ copied_pairs -> excluded_part r.1 exclude_names = true)
    as Hall.
  { intros r Hr. apply excluded_part_spec. exists part. split; [|done].
    destruct (Hunder r Hr) as [k ->]. unfold parts in *.
    apply elem_of_app. by left. }
  split; [done|].
  unfold delete_backed_files, bind.
  rewrite (delete_loop_all_excluded _ _ _ _ Hall). simpl.
  destruct remove_empty; [|done].
  unfold prune_candidates. simpl.
  by rewrite elements_empty.
Qed.

(** ** The pruning pass of [delete_backed_files] *)

(** C7. With [remove_empty_dirs] set, the call returns the same two lists
    as without it.  The directories it then goes through are the parents of
    the deleted files, each once, deepest first; going through them, it
    removes a directory only if that directory is, at that moment, an
    existing and empty directory, and otherwise leaves the file system as
    it is. *)
Theorem prune_pass_spec
    (copied_pairs : list copy_record) (exclude_names : gset string)
    (use_hash : bool) (w : world) :
  exists (deleted : list path) (failed : list failure) (w1 w2 : world),
    delete_backed_files copied_pairs exclude_names use_hash false w
      = (Ok (deleted, failed), w1) /\
    delete_backed_files copied_pairs exclude_names use_hash true w
      = (Ok (deleted, failed), w2) /\
    NoDup (prune_candidates deleted) /\
    (forall d, d ∈ prune_candidates deleted <->
               exists p, p ∈ deleted /\ d = parent p) /\
    StronglySorted deeper_or_equal (prune_candidates deleted) /\
    prune_trace (prune_candidates deleted) (files w1) (files w2).
Proof.
  destruct (delete_backed_files_run copied_pairs exclude_names use_hash
              false w) as (D & F & w1 & w2 & Hloop & Hrun & _ & ->).
  destruct (delete_backed_files_run copied_pairs exclude_names use_hash
              true w) as (D' & F' & w1' & w3 & Hloop' & Hrun' & _ & Htr).
  rewrite Hloop in Hloop'. simplify_eq.
  exists D', F', w1', w3. repeat split; try done.
  - apply prune_candidates_NoDup.
  - apply prune_candidates_elem.
  - apply prune_candidates_elem.
  - apply sorted_deepest_first_sorted.
Qed.

(** ** The deletion pass on the example file system *)

Example demo_delete_run :
  shown (delete_backed_files [rec_b; rec_c; rec_a] demo_exclude true true
                             demo_world)
  = (Ok ([rec_b.1; rec_a.1],
         [(rec_c.1, "delete_error:[Errno 13] Permission denied: '/s/ro/c.txt'")]),
     map_to_list (delete (["/"; "s"; "sub"] : path)
                    (delete rec_a.1 (delete rec_b.1 demo_fs))),
     []).
Proof. vm_compute. reflexivity. Qed.

Example demo_prune_removes_sub :
  prune_trace [["/"; "s"; "sub"]; ["/"; "s"]]
    (delete rec_a.1 (delete rec_b.1 demo_fs))
    (delete (["/"; "s"; "sub"] : path) (delete rec_a.1 (delete rec_b.1 demo_fs))).
Proof.
  eapply prune_trace_remove; [vm_compute; reflexivity..|].
  apply prune_trace_keep. constructor.
Qed.

Lemma delete_error_is_isolated_witness :
  exists deleted2 failed2 w2 w3,
    delete_loop demo_exclude true [rec_a] [] []
                (delete_loop demo_exclude true [rec_b] [] [] demo_world).2
      = (Ok (deleted2, failed2), w2) /\
    delete_backed_files ([rec_b] ++ rec_c :: [rec_a]) demo_exclude true true
                        demo_world
      = (Ok ([rec_b.1] ++ deleted2,
             [] ++ (rec_c.1, "delete_error:" +:+
                             exn_str (PermissionError rec_c.1)) :: failed2),
         w3).
Proof.
  apply (delete_error_is_isolated [rec_b] [rec_a] rec_c.1 rec_c.2
           demo_exclude true true demo_world
           (delete_loop demo_exclude true [rec_b] [] [] demo_world).2
           (delete_loop demo_exclude true [rec_b] [] [] demo_world).2
           [rec_b.1] [] (PermissionError rec_c.1));
    vm_compute; reflexivity.
Defined.

Lemma verification_failure_reason_witness :
  delete_one demo_exclude false rec_short [] []
             (delete_loop demo_exclude false [rec_b] [] [] demo_world).2
    = (Ok ([], [(rec_short.1, "verification_failed")]),
       (delete_loop demo_exclude false [rec_b] [] [] demo_world).2) /\
  exists deleted2 failed2 w2 w3,
    delete_loop demo_exclude false [rec_a] [] []
                (delete_loop demo_exclude false [rec_b] [] [] demo_world).2
      = (Ok (deleted2, failed2), w2) /\
    delete_backed_files ([rec_b] ++ rec_short :: [rec_a]) demo_exclude false
                        true demo_world
      = (Ok ([rec_b.1] ++ deleted2,
             [] ++ (rec_short.1, "verification_failed") :: failed2),
         w3).
Proof.
  apply (verification_failure_reason [rec_b] [rec_a] rec_short.1 rec_short.2
           demo_exclude false true demo_world
           (delete_loop demo_exclude false [rec_b] [] [] demo_world).2
           [rec_b.1] []);
    vm_compute; reflexivity.
Defined.

(** A missing destination and a size mismatch, two causes that the
    specification tells apart, are recorded with one and the same reason. *)
Lemma verification_reason_counterexample :
  spec_verify (dir_size demo_world) (files demo_world) rec_missing.1 rec_missing.2 true
    = Some Missing /\
  spec_verify (dir_size demo_world) (files demo_world) rec_short.1 rec_short.2 true
    = Some SizeMismatch /\
  exists reason : string,
    delete_backed_files [rec_missing; rec_short] demo_exclude true false
                        demo_world
    = (Ok ([], [(rec_missing.1, reason); (rec_short.1, reason)]), demo_world).
Proof.
  split; [vm_compute; reflexivity|]. split; [vm_compute; reflexivity|].
  exists "verification_failed". vm_compute. reflexivity.
Qed.

Lemma excluded_ancestor_blocks_all_witness :
  (forall r, r ∈ [rec_a; rec_b] -> excluded_part r.1 {[ "s" ]} = true) /\
  delete_backed_files [rec_a; rec_b] {[ "s" ]} true true demo_world
    = (Ok ([], map (fun r : copy_record => (r.1, "excluded")) [rec_a; rec_b]),
       demo_world).
Proof.
  apply (excluded_ancestor_blocks_all ["/"; "s"] [rec_a; rec_b] {[ "s" ]}
           true true demo_world).
  - exists "s". split; [apply list_elem_of_further, list_elem_of_here|].
    apply elem_of_singleton. reflexivity.
  - intros r Hr.
    apply elem_of_cons in Hr as [->|Hr]; [by exists ["a.txt"]|].
    apply elem_of_cons in Hr as [->|Hr]; [by exists ["sub"; "b.txt"]|].
    by apply elem_of_nil in Hr.
Defined.

(** ** Path resolution *)

Lemma resolve_from_inr fs full : forall rest cur n,
  resolve_from fs full cur rest = inr n <->
  fs !! (cur ++ rest) = Some n /\
  forall i, (i < length rest)%nat ->
    exists wr rd, fs !! (cur ++ take i rest) = Some (Dir true wr rd).
Proof.
  induction rest as [|s rest IH]; intros cur n; simpl.
  - rewrite app_nil_r. destruct (fs !! cur) as [m|]; split.
    + intros; simplify_eq. split; [done|]. intros; lia.
    + intros [? _]. by simplify_eq.
    + done.
    + by intros [? _].
  - destruct (fs !! cur) as [m|] eqn:Hcur.
    2: { split; [done|]. intros [_ H]. destruct (H 0%nat ltac:(lia)) as (wr & rd & Hwr).
         rewrite take_0, app_nil_r in Hwr. congruence. }
    destruct m as [data r|search wr rd].
    { split; [done|]. intros [_ H]. destruct (H 0%nat ltac:(lia)) as (wr & rd & Hwr).
      rewrite take_0, app_nil_r in Hwr. congruence. }
    destruct search.
    2: { split; [done|]. intros [_ H]. destruct (H 0%nat ltac:(lia)) as (wr' & rd' & Hwr).
         rewrite take_0, app_nil_r in Hwr. congruence. }
    rewrite IH. rewrite <- !app_assoc. simpl. split.
    + intros [Hn Hpre]. split; [done|]. intros [|i] Hi.
      * rewrite take_0, app_nil_r. eauto.
      * simpl. specialize (Hpre i ltac:(lia)).
        by rewrite <- app_assoc in Hpre.
    + intros [Hn Hpre]. split; [done|]. intros i Hi.
      specialize (Hpre (S i) ltac:(lia)). simpl in Hpre.
      by rewrite <- app_assoc.
Qed.

(** [os.stat] succeeds on [p] exactly when [p] is in the map and every
    shorter non-empty prefix of it is a searchable directory. *)
Lemma os_stat_inr fs p n :
  os_stat fs p = inr n <->
  fs !! p = Some n /\
  forall i, (1 <= i < length p)%nat ->
    exists wr rd, fs !! take i p = Some (Dir true wr rd).
Proof.
  unfold os_stat. destruct p as [|s rest].
  - rewrite resolve_from_inr. simpl. split; intros [H _]; (split; [done|]);
      intros; lia.
  - rewrite resolve_from_inr. simpl. split; intros [H Hpre]; (split; [done|]).
    + intros [|i] Hi; [lia|]. simpl. apply Hpre. lia.
    + intros i Hi. apply (Hpre (S i)). lia.
Qed.

Lemma os_stat_inr_lookup fs p n : os_stat fs p = inr n -> fs !! p = Some n.
Proof. rewrite os_stat_inr. tauto. Qed.

(** The errors of [os.stat] *)
Lemma resolve_from_inl fs full : forall rest cur e,
  resolve_from fs full cur rest = inl e ->
  (e = FileNotFoundError full /\
   exists i, (i <= length rest)%nat /\ fs !! (cur ++ take i rest) = None) \/
  e = NotADirectoryError full \/ e = PermissionError full.
Proof.
  induction rest as [|s rest IH]; intros cur e; simpl.
  - destruct (fs !! cur) eqn:Hcur; [done|]. intros; simplify_eq. left.
    split; [done|]. exists 0%nat. by rewrite app_nil_r.
  - destruct (fs !! cur) as [m|] eqn:Hcur.
    2: { intros; simplify_eq. left. split; [done|]. exists 0%nat.
         rewrite take_0, app_nil_r. split; [lia|done]. }
    destruct m as [data r|search wr rd]; [intros; simplify_eq; auto|].
    destruct search; [|intros; simplify_eq; auto].
    intros H. apply IH in H as [[-> (i & Hi & Hnone)]|H]; [|by right].
    left. split; [done|]. exists (S i). simpl.
    rewrite <- app_assoc in Hnone. split; [lia|done].
Qed.

Lemma os_stat_inl fs p e :
  os_stat fs p = inl e ->
  (e = FileNotFoundError p /\
   ((p = [] /\ fs !! p = None) \/
    exists i, (1 <= i <= length p)%nat /\ fs !! take i p = None)) \/
  e = NotADirectoryError p \/ e = PermissionError p.
Proof.
  unfold os_stat. destruct p as [|s rest]; intros H;
    apply resolve_from_inl in H as [[-> (i & Hi & Hnone)]|H]; auto.
  - left. split; [done|]. left. by destruct i.
  - left. split; [done|]. right. exists (S i). simpl. split; [lia|done].
Qed.

(** *** Well-formed file systems *)

Lemma removelast_take {A} (p : list A) i :
  (i < length p)%nat -> List.removelast (take (S i) p) = take i p.
Proof.
  revert i. induction p as [|x p IH]; intros i Hi; simpl in *; [lia|].
  destruct i; simpl.
  - by destruct p.
  - destruct p as [|y p]; simpl in *; [lia|].
    f_equal. apply (IH i). lia.
Qed.

Lemma fs_wf_prefix fs p n :
  fs_wf fs -> fs !! p = Some n ->
  forall i, (1 <= i < length p)%nat ->
    exists s wr rd, fs !! take i p = Some (Dir s wr rd).
Proof.
  intros Hwf Hp i Hi.
  remember (length p - i)%nat as d eqn:Hd.
  revert i Hi Hd. induction d as [|d IH]; intros i Hi Hd; [lia|].
  destruct (decide (S i = length p)) as [Heq|Hne].
  - destruct (Hwf p n Hp ltac:(lia)) as (s & wr & rd & Hpar).
    exists s, wr, rd. rewrite <- Hpar. f_equal.
    rewrite <- (removelast_take p i) by lia.
    by rewrite Heq, firstn_all.
  - destruct (IH (S i) ltac:(lia) ltac:(lia)) as (s & wr & rd & Hnext).
    destruct (Hwf _ _ Hnext) as (s' & wr' & rd' & Hpar).
    { rewrite length_take. lia. }
    exists s', wr', rd'. rewrite <- Hpar. f_equal.
    symmetry. apply removelast_take. lia.
Qed.

(** In a well-formed file system, "no such file" means that the path is
    not in the map. *)
Lemma fs_wf_not_found fs p q :
  fs_wf fs -> os_stat fs p = inl (FileNotFoundError q) -> fs !! p = None.
Proof.
  intros Hwf H. apply os_stat_inl in H as [[_ H]|[H|H]]; [|done..].
  destruct H as [[_ H]|(i & Hi & Hnone)]; [done|].
  destruct (fs !! p) as [n|] eqn:Hp; [|done]. exfalso.
  destruct (decide (i = length p)) as [->|Hne].
  - rewrite firstn_all in Hnone. congruence.
  - destruct (fs_wf_prefix fs p n Hwf Hp i ltac:(lia)) as (s & wr & rd & Hsome).
    congruence.
Qed.

(** ** [os.mkdir] and [Path.mkdir] *)

Lemma parent_removelast (p : path) :
  (2 <= length p)%nat -> parent p = List.removelast p.
Proof. destruct p as [|a [|b p]]; simpl; intros; try lia; done. Qed.

Lemma parent_take (p : path) :
  (2 <= length p)%nat -> parent p = take (length p - 1) p.
Proof.
  intros H. rewrite parent_removelast by done.
  rewrite Nat.sub_1_r. apply removelast_firstn_len.
Qed.

Lemma check_parent_writable_None fs p :
  check_parent_writable fs p = None ->
  exists rd, os_stat fs (parent p) = inr (Dir true true rd).
Proof.
  unfold check_parent_writable.
  destruct (os_stat fs (parent p)) as [e|[data r|[] [] rd]]; simpl; try done.
  eauto.
Qed.

Lemma check_parent_writable_not_exists fs p e :
  check_parent_writable fs p = Some e -> is_FileExistsError e = false.
Proof.
  unfold check_parent_writable.
  destruct (os_stat fs (parent p)) as [e'|[data r|s wr rd]] eqn:Hst.
  - intros; simplify_eq.
    apply os_stat_inl in Hst as [[-> _]|[->| ->]]; done.
  - intros; by simplify_eq.
  - destruct (s && wr); intros; by simplify_eq.
Qed.

Lemma os_mkdir_inr fs p fs' :
  os_mkdir fs p = inr fs' ->
  fs' = <[p := Dir true true true]> fs /\
  (exists q, os_stat fs p = inl (FileNotFoundError q)) /\
  exists rd, os_stat fs (parent p) = inr (Dir true true rd).
Proof.
  unfold os_mkdir.
  destruct (os_stat fs p) as [e|n] eqn:Hst; [|done].
  destruct e; try done.
  destruct (check_parent_writable fs p) eqn:Hpar; [done|].
  intros; simplify_eq. repeat split; eauto.
  by apply check_parent_writable_None.
Qed.

Lemma os_stat_error_kind fs p e :
  os_stat fs p = inl e ->
  is_FileExistsError e = false /\
  (is_FileNotFoundError e = true -> e = FileNotFoundError p).
Proof.
  intros H. apply os_stat_inl in H as [[-> _]|[->| ->]]; by split.
Qed.

Lemma check_parent_writable_not_found fs p e :
  check_parent_writable fs p = Some e ->
  is_FileNotFoundError e = true ->
  exists q, os_stat fs (parent p) = inl (FileNotFoundError q).
Proof.
  unfold check_parent_writable.
  destruct (os_stat fs (parent p)) as [e'|[data r|s wr rd]] eqn:Hst.
  - intros ? Hnf; simplify_eq.
    destruct (os_stat_error_kind _ _ _ Hst) as [_ Hk].
    destruct e'; simpl in Hnf; try done. eauto.
  - intros; by simplify_eq.
  - destruct (s && wr); intros; by simplify_eq.
Qed.

Lemma os_mkdir_inl fs p e :
  os_mkdir fs p = inl e ->
  (e = FileExistsError p /\ exists_in fs p) \/
  (is_FileExistsError e = false /\ ~ exists_in fs p /\
   (is_FileNotFoundError e = true ->
    os_stat fs p = inl (FileNotFoundError p) /\
    exists q, os_stat fs (parent p) = inl (FileNotFoundError q))).
Proof.
  unfold os_mkdir, exists_in.
  destruct (os_stat fs p) as [e0|n] eqn:Hst.
  2: { intros; simplify_eq. left. eauto. }
  intros H. right.
  split; [|split; [by intros [? ?]|]].
  - destruct (os_stat_error_kind _ _ _ Hst) as [Hk _].
    destruct e0; simplify_eq; try done.
    destruct (check_parent_writable fs p) eqn:Hpar; simplify_eq.
    by eapply check_parent_writable_not_exists.
  - destruct (os_stat_error_kind _ _ _ Hst) as [_ Hk].
    destruct e0; simplify_eq; try done.
    destruct (check_parent_writable fs p) eqn:Hpar; simplify_eq.
    intros Hnf. split; [by rewrite (Hk eq_refl)|].
    by eapply check_parent_writable_not_found.
Qed.

Lemma fs_wf_insert fs p n :
  fs_wf fs ->
  ((2 <= length p)%nat -> exists s wr rd, fs !! List.removelast p = Some (Dir s wr rd)) ->
  (is_dir_node n = true \/ forall s wr rd, fs !! p <> Some (Dir s wr rd)) ->
  fs_wf (<[p := n]> fs).
Proof.
  intros Hwf Hpar Hkind k m Hk Hlen.
  assert (List.removelast k <> k) as Hne.
  { intros Heq. apply (f_equal length) in Heq.
    rewrite removelast_firstn_len, length_take in Heq. lia. }
  destruct (decide (k = p)) as [->|Hkp].
  - destruct (Hpar Hlen) as (s & wr & rd & Hs). exists s, wr, rd.
    by rewrite lookup_insert_ne.
  - rewrite lookup_insert_ne in Hk by done.
    destruct (Hwf k m Hk Hlen) as (s & wr & rd & Hs).
    destruct (decide (List.removelast k = p)) as [Heq|Hrp].
    + rewrite Heq in *. rewrite lookup_insert_eq.
      destruct Hkind as [Hd|Hnd]; [|by destruct (Hnd s wr rd)].
      destruct n; [done|]. eauto.
    + exists s, wr, rd. by rewrite lookup_insert_ne.
Qed.

Lemma os_stat_insert_child fs p n rd :
  os_stat fs (parent p) = inr (Dir true true rd) ->
  parent p <> p ->
  os_stat (<[p := n]> fs) p = inr n.
Proof.
  intros Hpar Hne. apply os_stat_inr. split; [apply lookup_insert_eq|].
  intros i Hi.
  assert (take i p <> p) as Hip.
  { intros Heq. apply (f_equal length) in Heq. rewrite length_take in Heq. lia. }
  rewrite lookup_insert_ne by done.
  rewrite parent_take in Hpar by lia.
  apply os_stat_inr in Hpar as [Hlook Hpre].
  destruct (decide (i = length p - 1)%nat) as [->|Hi'].
  - eauto.
  - specialize (Hpre i). rewrite length_take, take_take in Hpre.
    replace (i `min` (length p - 1))%nat with i in Hpre by lia.
    apply Hpre. lia.
Qed.

Lemma os_mkdir_wf fs p fs' :
  fs_wf fs -> os_mkdir fs p = inr fs' ->
  fs' = <[p := Dir true true true]> fs /\ fs !! p = None /\ fs_wf fs' /\
  os_stat fs' p = inr (Dir true true true).
Proof.
  intros Hwf H. apply os_mkdir_inr in H as (-> & (q & Hst) & rd & Hpar).
  assert (fs !! p = None) as Hnone by by eapply fs_wf_not_found.
  split; [done|]. split; [done|].
  assert (parent p <> p) as Hne.
  { intros Heq. rewrite Heq in Hpar. congruence. }
  split; [|by apply (os_stat_insert_child _ _ _ rd)].
  apply fs_wf_insert; [done| |by left].
  intros Hlen. rewrite <- parent_removelast by done.
  apply os_stat_inr_lookup in Hpar. eauto.
Qed.

Lemma mkdir_grows_refl p w : fs_wf (files w) -> mkdir_grows p w w.
Proof.
  intros Hwf. refine (conj eq_refl (conj Hwf (conj _ _))); [done|].
  intros k Hnone [n Hn]. congruence.
Qed.

Lemma mkdir_grows_trans q p w w1 w2 :
  q `prefix_of` p -> mkdir_grows q w w1 -> mkdir_grows p w1 w2 ->
  mkdir_grows p w w2.
Proof.
  intros Hqp (Ho1 & _ & Hs1 & Hk1) (Ho2 & Hwf2 & Hs2 & Hk2).
  split; [congruence|]. split; [done|]. split; [by etrans|].
  intros k Hnone Hsome.
  destruct (files w1 !! k) as [n|] eqn:Hk.
  - etrans; [|exact Hqp]. apply Hk1; [done|]. by rewrite Hk.
  - by apply Hk2.
Qed.

Lemma os_mkdir_grows p w fs' :
  fs_wf (files w) -> os_mkdir (files w) p = inr fs' ->
  mkdir_grows p w (MkWorld fs' (stdout w) (dir_size w)) /\ exists_in fs' p.
Proof.
  intros Hwf H. apply os_mkdir_wf in H as (-> & Hnone & Hwf' & Hst); [|done].
  split; [|by eexists].
  refine (conj eq_refl (conj Hwf' (conj _ _))); simpl;
    [by apply insert_subseteq|].
  intros k Hk Hsome. destruct (decide (k = p)) as [->|Hne]; [done|].
  rewrite lookup_insert_ne in Hsome by done. rewrite Hk in Hsome.
  by destruct Hsome.
Qed.

(** The handler of [OSError] in [Path.mkdir], for an error that is not
    "no such file". *)
Lemma mkdir_exist_ok_handler p eo e w :
  exists r,
    (if negb eo then raise e
     else d <- Path_is_dir p ;; if negb d then raise e else ret tt) w = (r, w) /\
    r <> Diverge /\
    (r = Ok tt -> exists_in (files w) p) /\
    (forall e', r = Raise e' -> is_FileExistsError e' = true -> e' = e).
Proof.
  destruct eo; simpl.
  2: { exists (Raise e). unfold raise.
       refine (conj eq_refl (conj _ (conj _ _))); [done..|].
       intros; by simplify_eq. }
  unfold bind. rewrite Path_is_dir_run.
  destruct (os_stat (files w) p) as [e0|n] eqn:Hst.
  - destruct (ignore_error e0) eqn:Hig; simpl.
    + exists (Raise e). unfold raise.
      refine (conj eq_refl (conj _ (conj _ _))); [done..|].
      intros; by simplify_eq.
    + exists (Raise e0).
      refine (conj eq_refl (conj _ (conj _ _))); [done..|].
      intros e' ? Hex; simplify_eq.
      destruct (os_stat_error_kind _ _ _ Hst). congruence.
  - destruct (is_dir_node n); simpl.
    + exists (Ok tt). unfold ret.
      refine (conj eq_refl (conj _ (conj _ _))); [done| |done].
      intros _. by exists n.
    + exists (Raise e). unfold raise.
      refine (conj eq_refl (conj _ (conj _ _))); [done..|].
      intros; by simplify_eq.
Qed.

Lemma mkdir_here_spec p eo w :
  fs_wf (files w) ->
  exists r w',
    mkdir_here p eo w = (r, w') /\ r <> Diverge /\ mkdir_grows p w w' /\
    (r = Ok tt -> exists_in (files w') p) /\
    (forall e, r = Raise e -> is_FileExistsError e = true ->
       exists_in (files w) p /\ w' = w).
Proof.
  intros Hwf. unfold mkdir_here, try_except, sys_set.
  destruct (os_mkdir (files w) p) as [e|fs'] eqn:Hmk.
  2: { destruct (os_mkdir_grows p w fs' Hwf Hmk) as [Hg Hex].
       exists (Ok tt), (MkWorld fs' (stdout w) (dir_size w)).
       refine (conj eq_refl (conj _ (conj Hg (conj _ _)))); done. }
  destruct (is_FileNotFoundError e) eqn:Hnf.
  { exists (Raise e), w. unfold raise.
    refine (conj eq_refl (conj _ (conj (mkdir_grows_refl _ _ Hwf) (conj _ _))));
      [done..|].
    intros e' ? Hex; simplify_eq; by destruct e'. }
  destruct (mkdir_exist_ok_handler p eo e w) as (r & -> & Hnd & Hok & Hraise).
  exists r, w.
  refine (conj eq_refl (conj Hnd (conj (mkdir_grows_refl _ _ Hwf) (conj Hok _)))).
  intros e' -> Hex. pose proof (Hraise e' eq_refl Hex) as Heq. subst e'.
  apply os_mkdir_inl in Hmk as [[_ ?]|[? _]]; [done|congruence].
Qed.

Lemma parent_shorter (p : path) :
  parent p <> p -> (length (parent p) < length p)%nat.
Proof.
  destruct (decide (2 <= length p)%nat) as [Hlen|Hlen].
  - intros _. rewrite parent_take, length_take by done. lia.
  - destruct p as [|a [|b p]]; simpl in *; [done| |lia].
    destruct (String.eqb a root_anchor); [done|simpl; lia].
Qed.

Lemma parent_prefix (p : path) : parent p `prefix_of` p.
Proof.
  destruct (decide (2 <= length p)%nat) as [Hlen|Hlen].
  - rewrite parent_take by done. apply prefix_take.
  - destruct p as [|a [|b p]]; simpl in *; [done| |lia].
    destruct (String.eqb a root_anchor); [done|]. apply prefix_nil.
Qed.

Lemma mkdir_grows_weaken q p w w' :
  q `prefix_of` p -> mkdir_grows q w w' -> mkdir_grows p w w'.
Proof.
  intros Hqp (Ho & Hwf & Hs & Hk).
  refine (conj Ho (conj Hwf (conj Hs _))).
  intros k Hnone Hsome. etrans; [|exact Hqp]. by apply Hk.
Qed.

Lemma mkdir_parents_spec : forall fuel p eo w,
  (length p < fuel)%nat -> fs_wf (files w) ->
  exists r w',
    mkdir_parents fuel p eo w = (r, w') /\ r <> Diverge /\ mkdir_grows p w w' /\
    (r = Ok tt -> exists_in (files w') p) /\
    (forall e, r = Raise e -> is_FileExistsError e = true ->
       exists_in (files w) p /\ w' = w).
Proof.
  induction fuel as [|fuel IH]; intros p eo w Hlen Hwf; [lia|].
  simpl. unfold try_except, sys_set.
  destruct (os_mkdir (files w) p) as [e|fs'] eqn:Hmk.
  2: { destruct (os_mkdir_grows p w fs' Hwf Hmk) as [Hg Hex].
       exists (Ok tt), (MkWorld fs' (stdout w) (dir_size w)).
       refine (conj eq_refl (conj _ (conj Hg (conj _ _)))); done. }
  destruct (is_FileNotFoundError e) eqn:Hnf.
  2: { destruct (mkdir_exist_ok_handler p eo e w) as (r & -> & Hnd & Hok & Hraise).
       exists r, w.
       refine (conj eq_refl (conj Hnd (conj (mkdir_grows_refl _ _ Hwf) (conj Hok _)))).
       intros e' -> Hex. pose proof (Hraise e' eq_refl Hex) as Heq. subst e'.
       apply os_mkdir_inl in Hmk as [[_ ?]|[? _]]; [done|congruence]. }
  destruct (decide (parent p = p)) as [Heq|Hne].
  { exists (Raise e), w. unfold raise.
    refine (conj eq_refl (conj _ (conj (mkdir_grows_refl _ _ Hwf) (conj _ _))));
      [done..|].
    intros e' ? Hex; simplify_eq; by destruct e'. }
  apply os_mkdir_inl in Hmk as [[-> _]|(_ & _ & Hmk)]; [done|].
  destruct (Hmk Hnf) as (Hstp & q & Hstpar).
  pose proof (parent_shorter p Hne) as Hshort.
  destruct (IH (parent p) true w ltac:(lia) Hwf)
    as (r1 & w1 & Hrun1 & Hnd1 & Hg1 & Hok1 & Hraise1).
  unfold bind. rewrite Hrun1.
  destruct r1 as [[]|e1|]; [| |done].
  - destruct Hg1 as (Ho1 & Hwf1 & Hs1 & Hk1).
    destruct (mkdir_here_spec p eo w1 Hwf1)
      as (r2 & w2 & -> & Hnd2 & Hg2 & Hok2 & Hraise2).
    exists r2, w2.
    refine (conj eq_refl (conj Hnd2 (conj _ (conj Hok2 _)))).
    + eapply mkdir_grows_trans; [apply parent_prefix| |exact Hg2].
      by refine (conj Ho1 (conj Hwf1 (conj Hs1 Hk1))).
    + intros e2 -> Hex. exfalso.
      destruct (Hraise2 e2 eq_refl Hex) as [[n Hn] _].
      apply os_stat_inr_lookup in Hn.
      assert (files w !! p = None) as Hnone by by eapply fs_wf_not_found.
      assert (p `prefix_of` parent p) as Hpre.
      { apply Hk1; [done|]. by rewrite Hn. }
      apply prefix_length in Hpre. lia.
  - exists (Raise e1), w1.
    refine (conj eq_refl (conj _ (conj _ (conj _ _)))); [done| |done|].
    + eapply mkdir_grows_weaken; [apply parent_prefix|done].
    + intros e' ? Hex; simplify_eq.
      destruct (Hraise1 e' eq_refl Hex) as [[n Hn] _]. congruence.
Qed.

(** [Path.mkdir(parents=True, exist_ok=False)] *)
Lemma Path_mkdir_exists p w :
  exists_in (files w) p ->
  Path_mkdir p true false w = (Raise (FileExistsError p), w).
Proof.
  intros [n Hn]. unfold Path_mkdir. simpl.
  unfold try_except, sys_set, os_mkdir. by rewrite Hn.
Qed.

Lemma Path_mkdir_spec p w :
  fs_wf (files w) ->
  exists r w',
    Path_mkdir p true false w = (r, w') /\ r <> Diverge /\ mkdir_grows p w w' /\
    (r = Ok tt -> ~ exists_in (files w) p /\ exists_in (files w') p) /\
    (forall e, r = Raise e ->
       (is_FileExistsError e = true <-> exists_in (files w) p) /\
       (is_FileExistsError e = true -> w' = w)).
Proof.
  intros Hwf.
  destruct (mkdir_parents_spec (S (length p)) p false w ltac:(lia) Hwf)
    as (r & w' & Hrun & Hnd & Hg & Hok & Hraise).
  exists r, w'. unfold Path_mkdir.
  refine (conj Hrun (conj Hnd (conj Hg (conj _ _)))).
  - intros ->. split; [|by apply Hok].
    intros Hex. apply Path_mkdir_exists in Hex. unfold Path_mkdir in Hex.
    congruence.
  - intros e ->. split; [split|].
    + intros Hex. by destruct (Hraise e eq_refl Hex).
    + intros Hex. apply Path_mkdir_exists in Hex. unfold Path_mkdir in Hex.
      rewrite Hrun in Hex. by injection Hex as -> _.
    + intros Hex. by destruct (Hraise e eq_refl Hex).
Qed.

(** ** Allocation of the backup directory *)

Lemma mkdir_and_return_spec p w :
  fs_wf (files w) ->
  (exists w', mkdir_and_return p w = (Ok p, w') /\
     ~ exists_in (files w) p /\ exists_in (files w') p /\ mkdir_grows p w w') \/
  (exists e w', mkdir_and_return p w = (Raise e, w') /\
     (is_FileExistsError e = true <-> exists_in (files w) p) /\
     (is_FileExistsError e = true -> w' = w) /\ mkdir_grows p w w').
Proof.
  intros Hwf. unfold mkdir_and_return, bind.
  destruct (Path_mkdir_spec p w Hwf) as (r & w' & -> & Hnd & Hg & Hok & Hraise).
  destruct r as [[]|e|]; [| |done].
  - left. exists w'. destruct (Hok eq_refl) as [Hfree Hex].
    exact (conj eq_refl (conj Hfree (conj Hex Hg))).
  - right. exists e, w'. destruct (Hraise e eq_refl) as [Hiff Hsame].
    exact (conj eq_refl (conj Hiff (conj Hsame Hg))).
Qed.

Lemma mkdir_and_return_exists p w :
  exists_in (files w) p ->
  mkdir_and_return p w = (Raise (FileExistsError p), w).
Proof.
  intros H. unfold mkdir_and_return, bind. by rewrite Path_mkdir_exists.
Qed.

Lemma probe_loop_step fuel base_dir base_name i w :
  probe_loop (S fuel) base_dir base_name i w =
  match mkdir_and_return (numbered_dir base_dir base_name i) w with
  | (Raise e, w') =>
      if is_FileExistsError e then probe_loop fuel base_dir base_name (S i) w'
      else (Raise e, w')
  | r => r
  end.
Proof.
  simpl. unfold try_except, mkdir_and_return, numbered_dir.
  destruct (bind _ _ w) as [[a|e|] w']; try done.
  by destruct (is_FileExistsError e).
Qed.

(** With the names [i], ..., [i + n - 1] taken and the name [i + n] free,
    the loop ends in the attempt on [i + n], given fuel for it. *)
Lemma probe_loop_first_free base_dir base_name : forall n fuel i w,
  fs_wf (files w) ->
  (forall j, (i <= j < i + n)%nat ->
     exists_in (files w) (numbered_dir base_dir base_name j)) ->
  ~ exists_in (files w) (numbered_dir base_dir base_name (i + n)) ->
  (n < fuel)%nat ->
  probe_loop fuel base_dir base_name i w
  = mkdir_and_return (numbered_dir base_dir base_name (i + n)) w.
Proof.
  induction n as [|n IH]; intros fuel i w Hwf Htaken Hfree Hfuel;
    (destruct fuel as [|fuel]; [lia|]); rewrite probe_loop_step.
  - rewrite Nat.add_0_r in *.
    destruct (mkdir_and_return_spec (numbered_dir base_dir base_name i) w Hwf)
      as [(w' & -> & _)|(e & w' & -> & Hiff & _)]; [done|].
    destruct (is_FileExistsError e) eqn:He; [|done].
    by destruct Hfree; apply Hiff.
  - rewrite mkdir_and_return_exists by (apply Htaken; lia). simpl.
    rewrite (IH fuel (S i) w Hwf); [|intros; apply Htaken; lia| |lia].
    + by replace (S i + n)%nat with (i + S n)%nat by lia.
    + by replace (S i + n)%nat with (i + S n)%nat by lia.
Qed.

(** *** A free number always exists: the file system is finite *)

Lemma append_inj_r (s t1 t2 : string) : s +:+ t1 = s +:+ t2 -> t1 = t2.
Proof.
  induction s as [|c s IH]; intros H; [done|]. apply IH.
  change (String c (s +:+ t1) = String c (s +:+ t2)) in H. congruence.
Qed.

Lemma nat_str_inj i j : nat_str i = nat_str j -> i = j.
Proof.
  unfold nat_str. intros H. apply DecimalNat.Unsigned.to_uint_inj.
  apply (f_equal NilEmpty.uint_of_string) in H.
  rewrite !NilEmpty.usu in H. congruence.
Qed.

Lemma numbered_dir_inj base_dir base_name i j :
  numbered_dir base_dir base_name i = numbered_dir base_dir base_name j -> i = j.
Proof.
  unfold numbered_dir, joinpath. intros H. apply app_inv_head in H.
  injection H as H.
  apply nat_str_inj. first
    [ by apply (append_inj_r (base_name +:+ "_"))
    | by apply (append_inj_r "_"), (append_inj_r base_name) ].
Qed.

Lemma some_number_free fs base_dir base_name :
  exists m, (1 <= m)%nat /\ ~ exists_in fs (numbered_dir base_dir base_name m).
Proof.
  destruct (decide (Forall (fun i => exists_in fs (numbered_dir base_dir base_name i))
                           (seq 1 (S (size fs))))) as [Hall|Hnot].
  - exfalso.
    set (l := numbered_dir base_dir base_name <$> seq 1 (S (size fs))).
    assert (NoDup l) as Hnd.
    { apply NoDup_fmap_2; [|apply NoDup_seq].
      intros i j. apply numbered_dir_inj. }
    assert (list_to_set l ⊆ dom fs) as Hsub.
    { intros p Hp. apply elem_of_list_to_set, list_elem_of_fmap in Hp
        as (i & -> & Hi).
      rewrite Forall_forall in Hall. destruct (Hall i Hi) as [n Hn].
      apply elem_of_dom. apply os_stat_inr_lookup in Hn. eauto. }
    apply subseteq_size in Hsub.
    rewrite size_list_to_set, size_dom in Hsub by done.
    unfold l in Hsub. rewrite length_fmap, length_seq in Hsub. lia.
  - apply not_Forall_Exists in Hnot; [|apply _].
    apply Exists_exists in Hnot as (m & Hm & Hfree).
    apply elem_of_seq in Hm. exists m. split; [lia|done].
Qed.

Lemma first_free_exists fs base_dir base_name :
  exists n, first_free fs base_dir base_name n.
Proof.
  destruct (some_number_free fs base_dir base_name) as (m & Hm & Hfree).
  revert Hm Hfree. induction (lt_wf m) as [m _ IH]. intros Hm Hfree.
  destruct (decide (Forall (fun i => exists_in fs (numbered_dir base_dir base_name i))
                           (seq 1 (m - 1)))) as [Hall|Hnot].
  - exists m. split; [done|]. split; [|done].
    intros i Hi. rewrite Forall_forall in Hall. apply Hall.
    apply elem_of_seq. lia.
  - apply not_Forall_Exists in Hnot; [|apply _].
    apply Exists_exists in Hnot as (k & Hk & Hkfree).
    apply elem_of_seq in Hk. apply (IH k); [lia|lia|done].
Qed.

(** *** A successful allocation takes a name that was free *)

Lemma probe_loop_ok base_dir base_name : forall fuel i w d w',
  fs_wf (files w) ->
  probe_loop fuel base_dir base_name i w = (Ok d, w') ->
  ~ exists_in (files w) d /\ exists_in (files w') d /\ fs_wf (files w') /\
  stdout w' = stdout w /\ files w ⊆ files w' /\
  exists j, d = numbered_dir base_dir base_name j.
Proof.
  induction fuel as [|fuel IH]; intros i w d w' Hwf; [done|].
  rewrite probe_loop_step.
  destruct (mkdir_and_return_spec (numbered_dir base_dir base_name i) w Hwf)
    as [(w1 & -> & Hfree & Hex & Hg)|(e & w1 & -> & Hiff & Hsame & _)].
  - intros ?; simplify_eq. destruct Hg as (Ho & Hwf' & Hsub & _).
    refine (conj Hfree (conj Hex (conj Hwf' (conj Ho (conj Hsub _))))). eauto.
  - destruct (is_FileExistsError e); [|done].
    rewrite (Hsame eq_refl). by apply IH.
Qed.

Lemma allocate_backup_dir_ok fuel now base_dir base_name w d w' :
  fs_wf (files w) ->
  allocate_backup_dir fuel now base_dir base_name w = (Ok d, w') ->
  ~ exists_in (files w) d /\ exists_in (files w') d /\ fs_wf (files w') /\
  stdout w' = stdout w /\ files w ⊆ files w'.
Proof.
  intros Hwf. unfold allocate_backup_dir, try_except.
  change (create_unique_backup_dir now base_dir base_name w)
    with (mkdir_and_return (stamped_dir now base_dir base_name) w).
  destruct (mkdir_and_return_spec (stamped_dir now base_dir base_name) w Hwf)
    as [(w1 & -> & Hfree & Hex & Hg)|(e & w1 & -> & Hiff & Hsame & _)].
  - intros ?; simplify_eq. destruct Hg as (Ho & Hwf' & Hsub & _). done.
  - destruct (is_FileExistsError e); [|done].
    rewrite (Hsame eq_refl). intros H.
    apply probe_loop_ok in H; [|done]. tauto.
Qed.

Lemma fs_wf_check_sound fs : fs_wf_check fs = true -> fs_wf fs.
Proof.
  unfold fs_wf_check. rewrite forallb_forall. intros H k n Hk Hlen.
  specialize (H (k, n)). simpl in H.
  rewrite <- list_elem_of_In, elem_of_map_to_list in H.
  specialize (H Hk). apply orb_true_iff in H as [H|H].
  - apply Nat.ltb_lt in H. lia.
  - destruct (fs !! List.removelast k) as [[|s wr rd]|]; try done. eauto.
Qed.

Lemma digit_decimal n : is_decimal_digit (digit n).
Proof.
  unfold is_decimal_digit, digit.
  pose proof (Nat.mod_upper_bound n 10 ltac:(lia)).
  rewrite nat_ascii_embedding; lia.
Qed.

(** From the year 1000 on, [%Y] has four digits. *)
Lemma nat_str_four_digits n :
  (1000 <= n <= MAXYEAR)%nat ->
  nat_str n = String (digit (n / 1000)) (String (digit (n / 100))
                (String (digit (n / 10)) (String (digit n) EmptyString))).
Proof.
  intros Hn.
  assert (forallb
            (fun n => String.eqb (nat_str n)
               (String (digit (n / 1000)) (String (digit (n / 100))
                  (String (digit (n / 10)) (String (digit n) EmptyString)))))
            (seq 1000 (Z.to_nat 9000)) = true) as Hall by (vm_compute; reflexivity).
  rewrite forallb_forall in Hall. apply String.eqb_eq, Hall, in_seq.
  unfold MAXYEAR in Hn. lia.
Qed.

Lemma strftime_stamp_digits now :
  (1000 <= year now <= MAXYEAR)%nat ->
  String.length (strftime_stamp now) = 15%nat /\
  String.get 8 (strftime_stamp now) = Some "_"%char /\
  forall i c, String.get i (strftime_stamp now) = Some c -> i <> 8%nat ->
              is_decimal_digit c.
Proof.
  intros Hy. unfold strftime_stamp, two_digits.
  rewrite (nat_str_four_digits _ Hy).
  split; [done|]. split; [done|]. intros i c.
  do 15 (destruct i as [|i];
         [simpl; intros [= <-] ?; (done || apply digit_decimal)|]).
  simpl. discriminate.
Qed.

Example strftime_stamp_example :
  strftime_stamp (Datetime 2026 11 3 9 5 0) = "20261103_090500".
Proof. reflexivity. Qed.

(** Before the year 1000 the stamp is shorter. *)
Example strftime_stamp_early :
  strftime_stamp (Datetime 999 1 2 3 4 5) = "9990102_030405".
Proof. reflexivity. Qed.

(** *** A directory made in a directory that can be searched and written *)

Lemma resolve_from_snoc fs full full' x : forall rest cur wr rd,
  resolve_from fs full cur rest = inr (Dir true wr rd) ->
  resolve_from fs full' cur (rest ++ [x])
  = match fs !! (cur ++ rest ++ [x]) with
    | Some n => inr n
    | None => inl (FileNotFoundError full')
    end.
Proof.
  induction rest as [|s rest IH]; intros cur wr rd; simpl.
  - destruct (fs !! cur) as [n|]; [|done]. intros ?; simplify_eq. done.
  - destruct (fs !! cur) as [[|[] ? ?]|]; try done.
    intros H. rewrite (IH _ _ _ H). by rewrite <- app_assoc.
Qed.

Lemma os_stat_snoc fs q x wr rd :
  q <> [] -> os_stat fs q = inr (Dir true wr rd) ->
  os_stat fs (q ++ [x])
  = match fs !! (q ++ [x]) with
    | Some n => inr n
    | None => inl (FileNotFoundError (q ++ [x]))
    end.
Proof.
  destruct q as [|s rest]; [done|]. intros _ H. unfold os_stat in *. simpl.
  by rewrite (resolve_from_snoc _ _ _ _ _ _ _ _ H).
Qed.

Lemma mkdir_and_return_fresh base x w rd :
  base <> [] ->
  os_stat (files w) base = inr (Dir true true rd) ->
  ~ exists_in (files w) (joinpath base x) ->
  mkdir_and_return (joinpath base x) w
  = (Ok (joinpath base x),
     MkWorld (<[joinpath base x := Dir true true true]> (files w))
             (stdout w) (dir_size w)).
Proof.
  intros Hne Hbase Hfree. unfold joinpath in *.
  assert (parent (base ++ [x]) = base) as Hpar.
  { rewrite parent_removelast; [apply removelast_last|].
    rewrite length_app. destruct base; simpl in *; [done|lia]. }
  assert (os_mkdir (files w) (base ++ [x])
          = inr (<[base ++ [x] := Dir true true true]> (files w))) as Hmk.
  { unfold os_mkdir. rewrite (os_stat_snoc _ _ _ _ _ Hne Hbase).
    destruct (files w !! (base ++ [x])) as [n|] eqn:Hk.
    { destruct Hfree. exists n. by rewrite (os_stat_snoc _ _ _ _ _ Hne Hbase), Hk. }
    unfold check_parent_writable. by rewrite Hpar, Hbase. }
  unfold mkdir_and_return, Path_mkdir, bind. simpl.
  unfold try_except, sys_set. by rewrite Hmk.
Qed.

(** In a directory that is there, the attempt is one call of [os.mkdir]. *)
Lemma mkdir_and_return_call base x w s wr rd :
  base <> [] ->
  os_stat (files w) base = inr (Dir s wr rd) ->
  mkdir_and_return (joinpath base x) w
  = match os_mkdir (files w) (joinpath base x) with
    | inr fs' => (Ok (joinpath base x), MkWorld fs' (stdout w) (dir_size w))
    | inl e => (Raise e, w)
    end.
Proof.
  intros Hne Hbase. unfold joinpath in *.
  assert (parent (base ++ [x]) = base) as Hpar.
  { rewrite parent_removelast; [apply removelast_last|].
    rewrite length_app. destruct base; simpl in *; [done|lia]. }
  unfold mkdir_and_return, Path_mkdir, bind. simpl.
  unfold try_except, sys_set.
  destruct (os_mkdir (files w) (base ++ [x])) as [e|fs'] eqn:Hmk; [|done].
  destruct (is_FileNotFoundError e) eqn:Hnf; [exfalso|done].
  apply os_mkdir_inl in Hmk as [[-> _]|(_ & _ & Hq)]; [done|].
  destruct (Hq Hnf) as (_ & q & Hq'). rewrite Hpar in Hq'. congruence.
Qed.

(** *** The name of an allocated directory *)

Lemma name_joinpath (base : path) (nm : string) :
  nm <> root_anchor -> name (joinpath base nm) = nm.
Proof.
  intros Hne. unfold joinpath. destruct base as [|a base]; simpl.
  - apply String.eqb_neq in Hne. by rewrite Hne.
  - destruct (base ++ [nm]) as [|b rest] eqn:Heq.
    { by destruct base. }
    rewrite <- Heq. change (a :: base ++ [nm]) with ((a :: base) ++ [nm]).
    apply last_last.
Qed.

Lemma underscore_name_not_root (s t : string) :
  s +:+ "_" +:+ t <> root_anchor.
Proof.
  destruct s as [|c [|c' s]]; discriminate.
Qed.

Lemma allocate_backup_dir_ok_name fuel now base_dir base_name w d w' :
  fs_wf (files w) ->
  allocate_backup_dir fuel now base_dir base_name w = (Ok d, w') ->
  d = joinpath base_dir (name d).
Proof.
  intros Hwf. unfold allocate_backup_dir, try_except.
  change (create_unique_backup_dir now base_dir base_name w)
    with (mkdir_and_return (stamped_dir now base_dir base_name) w).
  destruct (mkdir_and_return_spec (stamped_dir now base_dir base_name) w Hwf)
    as [(w1 & -> & _)|(e & w1 & -> & _ & Hsame & _)].
  - intros; simplify_eq. unfold stamped_dir.
    by rewrite name_joinpath by apply underscore_name_not_root.
  - destruct (is_FileExistsError e); [|done].
    rewrite (Hsame eq_refl). intros Hprobe.
    apply probe_loop_ok in Hprobe as (_ & _ & _ & _ & _ & j & ->); [|done].
    unfold numbered_dir.
    by rewrite name_joinpath by apply underscore_name_not_root.
Qed.

(** C6. In a well-formed file system, for a base name without a path
    separator and a clock from the year 1000 on:
    - the stamp has the fifteen characters of [YYYYMMDD_HHMMSS]: decimal
      digits around an underscore in ninth place;
    - when no entry has the stamped name, the allocation is the single
      attempt to make the directory with that name, and it does not end in
      [FileExistsError]; in a base directory that is there, the attempt is
      one call of [os.mkdir] on the stamped path: its error is raised, and
      when it succeeds the directory is returned and is the one entry
      added to the file system;
    - when an entry has the stamped name, that attempt raises
      [FileExistsError] and the numbers are tried from 1 on: there is a
      first free number [n], and with fuel for [n] iterations the
      allocation is the attempt on the name number [n], which creates and
      returns that directory or raises another error; in a base directory
      that is there, it is one call of [os.mkdir] on that path, as above;
    - two allocations in a row, with the same clock and base name, that
      both return, return directories with different names. *)
Theorem allocation_spec (now : datetime) (base_dir : path)
    (base_name : string) (w : world) :
  fs_wf (files w) ->
  plain_name base_name = true ->
  valid_datetime now -> (1000 <= year now)%nat ->
  (String.length (strftime_stamp now) = 15%nat /\
   String.get 8 (strftime_stamp now) = Some "_"%char /\
   forall i c, String.get i (strftime_stamp now) = Some c -> i <> 8%nat ->
               is_decimal_digit c) /\
  (~ exists_in (files w) (stamped_dir now base_dir base_name) ->
   forall fuel,
     allocate_backup_dir fuel now base_dir base_name w
       = create_unique_backup_dir now base_dir base_name w /\
     create_unique_backup_dir now base_dir base_name w
       = mkdir_and_return (stamped_dir now base_dir base_name) w /\
     ((exists w', create_unique_backup_dir now base_dir base_name w
                  = (Ok (stamped_dir now base_dir base_name), w') /\
                  exists_in (files w') (stamped_dir now base_dir base_name)) \/
      (exists e w', create_unique_backup_dir now base_dir base_name w
                    = (Raise e, w') /\ is_FileExistsError e = false)) /\
     (forall s wr rd,
        base_dir <> [] ->
        os_stat (files w) base_dir = inr (Dir s wr rd) ->
        allocate_backup_dir fuel now base_dir base_name w
        = match os_mkdir (files w) (stamped_dir now base_dir base_name) with
          | inr fs' => (Ok (stamped_dir now base_dir base_name),
                        MkWorld fs' (stdout w) (dir_size w))
          | inl e => (Raise e, w)
          end /\
        forall fs',
          os_mkdir (files w) (stamped_dir now base_dir base_name) = inr fs' ->
          fs' = <[stamped_dir now base_dir base_name := Dir true true true]>
                  (files w))) /\
  (exists_in (files w) (stamped_dir now base_dir base_name) ->
   create_unique_backup_dir now base_dir base_name w
     = (Raise (FileExistsError (stamped_dir now base_dir base_name)), w) /\
   exists n,
     first_free (files w) base_dir base_name n /\
     forall fuel, (n <= fuel)%nat ->
       allocate_backup_dir fuel now base_dir base_name w
         = mkdir_and_return (numbered_dir base_dir base_name n) w /\
       ((exists w', mkdir_and_return (numbered_dir base_dir base_name n) w
                    = (Ok (numbered_dir base_dir base_name n), w') /\
                    exists_in (files w') (numbered_dir base_dir base_name n)) \/
        (exists e w', mkdir_and_return (numbered_dir base_dir base_name n) w
                      = (Raise e, w') /\ is_FileExistsError e = false)) /\
       (forall s wr rd,
          base_dir <> [] ->
          os_stat (files w) base_dir = inr (Dir s wr rd) ->
          allocate_backup_dir fuel now base_dir base_name w
          = match os_mkdir (files w) (numbered_dir base_dir base_name n) with
            | inr fs' => (Ok (numbered_dir base_dir base_name n),
                          MkWorld fs' (stdout w) (dir_size w))
            | inl e => (Raise e, w)
            end /\
          forall fs',
            os_mkdir (files w) (numbered_dir base_dir base_name n) = inr fs' ->
            fs' = <[numbered_dir base_dir base_name n := Dir true true true]>
                    (files w))) /\
  (forall fuel fuel' d1 w1 d2 w2,
     allocate_backup_dir fuel now base_dir base_name w = (Ok d1, w1) ->
     allocate_backup_dir fuel' now base_dir base_name w1 = (Ok d2, w2) ->
     d1 <> d2 /\ name d1 <> name d2).
Proof.
  intros Hwf _ Hvalid Hyear.
  split.
  { apply strftime_stamp_digits. destruct Hvalid as [? _]. lia. }
  split; [|split].
  - intros Hfree fuel.
    assert (allocate_backup_dir fuel now base_dir base_name w
            = mkdir_and_return (stamped_dir now base_dir base_name) w) as Hal.
    { unfold allocate_backup_dir, try_except.
      change (create_unique_backup_dir now base_dir base_name w)
        with (mkdir_and_return (stamped_dir now base_dir base_name) w).
      destruct (mkdir_and_return_spec (stamped_dir now base_dir base_name) w Hwf)
        as [(w1 & -> & _)|(e & w1 & -> & Hiff & _)]; [done|].
      destruct (is_FileExistsError e) eqn:He; [|done].
      by destruct Hfree; apply Hiff. }
    change (create_unique_backup_dir now base_dir base_name w)
      with (mkdir_and_return (stamped_dir now base_dir base_name) w).
    split; [done|]. split; [done|]. split.
    + destruct (mkdir_and_return_spec (stamped_dir now base_dir base_name) w Hwf)
        as [(w1 & -> & _ & Hex & _)|(e & w1 & -> & Hiff & _)].
      * left. eauto.
      * right. exists e, w1. split; [done|].
        destruct (is_FileExistsError e); [|done].
        by destruct Hfree; apply Hiff.
    + intros s wr rd Hne Hbase. rewrite Hal. split.
      * by apply (mkdir_and_return_call _ _ _ s wr rd).
      * intros fs' Hmk. by apply os_mkdir_inr in Hmk as [-> _].
  - intros Htaken.
    change (create_unique_backup_dir now base_dir base_name w)
      with (mkdir_and_return (stamped_dir now base_dir base_name) w).
    rewrite mkdir_and_return_exists by done. split; [done|].
    destruct (first_free_exists (files w) base_dir base_name)
      as (n & Hn & Hbelow & Hnfree).
    exists n. split; [done|]. intros fuel Hfuel.
    assert (allocate_backup_dir fuel now base_dir base_name w
            = mkdir_and_return (numbered_dir base_dir base_name n) w) as Hal.
    { unfold allocate_backup_dir, try_except.
      change (create_unique_backup_dir now base_dir base_name w)
        with (mkdir_and_return (stamped_dir now base_dir base_name) w).
      rewrite mkdir_and_return_exists by done. simpl.
      pose proof (probe_loop_first_free base_dir base_name (n - 1) fuel 1 w Hwf)
        as Hp.
      replace (1 + (n - 1))%nat with n in Hp by lia.
      apply Hp; [|done|lia]. intros j Hj. apply Hbelow. lia. }
    split; [done|]. split.
    + destruct (mkdir_and_return_spec (numbered_dir base_dir base_name n) w Hwf)
        as [(w1 & -> & _ & Hex & _)|(e & w1 & -> & Hiff & _)].
      * left. eauto.
      * right. exists e, w1. split; [done|].
        destruct (is_FileExistsError e); [|done].
        by destruct Hnfree; apply Hiff.
    + intros s wr rd Hne Hbase. rewrite Hal. split.
      * by apply (mkdir_and_return_call _ _ _ s wr rd).
      * intros fs' Hmk. by apply os_mkdir_inr in Hmk as [-> _].
  - intros fuel fuel' d1 w1 d2 w2 H1 H2.
    pose proof (allocate_backup_dir_ok_name _ _ _ _ _ _ _ Hwf H1) as Hn1.
    apply allocate_backup_dir_ok in H1 as (_ & Hex1 & Hwf1 & _); [|done].
    pose proof (allocate_backup_dir_ok_name _ _ _ _ _ _ _ Hwf1 H2) as Hn2.
    apply allocate_backup_dir_ok in H2 as (Hfree2 & _); [|done].
    assert (d1 <> d2) as Hne by (intros ->; done).
    split; [done|]. intros Heq. apply Hne. rewrite Hn1, Hn2. by rewrite Heq.
Qed.

Example allocation_falls_back_to_number_two :
  shown (allocate_backup_dir 2 alloc_now ["/"; "s"] "backup" (World alloc_fs []))
  = (Ok ["/"; "s"; "backup_2"],
     map_to_list (<[(["/"; "s"; "backup_2"] : path) := Dir true true true]> alloc_fs),
     []).
Proof. vm_compute. reflexivity. Qed.

Lemma allocation_spec_witness :
  (String.length (strftime_stamp alloc_now) = 15%nat /\
   String.get 8 (strftime_stamp alloc_now) = Some "_"%char /\
   forall i c, String.get i (strftime_stamp alloc_now) = Some c -> i <> 8%nat ->
               is_decimal_digit c) /\
  (~ exists_in alloc_fs (stamped_dir alloc_now ["/"; "s"] "backup") ->
   forall fuel,
     allocate_backup_dir fuel alloc_now ["/"; "s"] "backup" (World alloc_fs [])
       = create_unique_backup_dir alloc_now ["/"; "s"] "backup" (World alloc_fs []) /\
     create_unique_backup_dir alloc_now ["/"; "s"] "backup" (World alloc_fs [])
       = mkdir_and_return (stamped_dir alloc_now ["/"; "s"] "backup") (World alloc_fs []) /\
     ((exists w', create_unique_backup_dir alloc_now ["/"; "s"] "backup" (World alloc_fs [])
                  = (Ok (stamped_dir alloc_now ["/"; "s"] "backup"), w') /\
                  exists_in (files w') (stamped_dir alloc_now ["/"; "s"] "backup")) \/
      (exists e w', create_unique_backup_dir alloc_now ["/"; "s"] "backup" (World alloc_fs [])
                    = (Raise e, w') /\ is_FileExistsError e = false)) /\
     (forall s wr rd,
        ["/"; "s"] <> [] ->
        os_stat alloc_fs ["/"; "s"] = inr (Dir s wr rd) ->
        allocate_backup_dir fuel alloc_now ["/"; "s"] "backup" (World alloc_fs [])
        = match os_mkdir alloc_fs (stamped_dir alloc_now ["/"; "s"] "backup") with
          | inr fs' => (Ok (stamped_dir alloc_now ["/"; "s"] "backup"),
                        MkWorld fs' [] (dir_size (World alloc_fs [])))
          | inl e => (Raise e, (World alloc_fs []))
          end /\
        forall fs',
          os_mkdir alloc_fs (stamped_dir alloc_now ["/"; "s"] "backup") = inr fs' ->
          fs' = <[stamped_dir alloc_now ["/"; "s"] "backup" := Dir true true true]>
                  alloc_fs)) /\
  (exists_in alloc_fs (stamped_dir alloc_now ["/"; "s"] "backup") ->
   create_unique_backup_dir alloc_now ["/"; "s"] "backup" (World alloc_fs [])
     = (Raise (FileExistsError (stamped_dir alloc_now ["/"; "s"] "backup")), (World alloc_fs [])) /\
   exists n,
     first_free alloc_fs ["/"; "s"] "backup" n /\
     forall fuel, (n <= fuel)%nat ->
       allocate_backup_dir fuel alloc_now ["/"; "s"] "backup" (World alloc_fs [])
         = mkdir_and_return (numbered_dir ["/"; "s"] "backup" n) (World alloc_fs []) /\
       ((exists w', mkdir_and_return (numbered_dir ["/"; "s"] "backup" n) (World alloc_fs [])
                    = (Ok (numbered_dir ["/"; "s"] "backup" n), w') /\
                    exists_in (files w') (numbered_dir ["/"; "s"] "backup" n)) \/
        (exists e w', mkdir_and_return (numbered_dir ["/"; "s"] "backup" n) (World alloc_fs [])
                      = (Raise e, w') /\ is_FileExistsError e = false)) /\
       (forall s wr rd,
          ["/"; "s"] <> [] ->
          os_stat alloc_fs ["/"; "s"] = inr (Dir s wr rd) ->
          allocate_backup_dir fuel alloc_now ["/"; "s"] "backup" (World alloc_fs [])
          = match os_mkdir alloc_fs (numbered_dir ["/"; "s"] "backup" n) with
            | inr fs' => (Ok (numbered_dir ["/"; "s"] "backup" n),
                          MkWorld fs' [] (dir_size (World alloc_fs [])))
            | inl e => (Raise e, (World alloc_fs []))
            end /\
          forall fs',
            os_mkdir alloc_fs (numbered_dir ["/"; "s"] "backup" n) = inr fs' ->
            fs' = <[numbered_dir ["/"; "s"] "backup" n := Dir true true true]>
                    alloc_fs)) /\
  (forall fuel fuel' d1 w1 d2 w2,
     allocate_backup_dir fuel alloc_now ["/"; "s"] "backup" (World alloc_fs []) = (Ok d1, w1) ->
     allocate_backup_dir fuel' alloc_now ["/"; "s"] "backup" w1 = (Ok d2, w2) ->
     d1 <> d2 /\ name d1 <> name d2).
Proof.
  apply (allocation_spec alloc_now ["/"; "s"] "backup" (World alloc_fs [])).
  - apply fs_wf_check_sound. vm_compute. reflexivity.
  - reflexivity.
  - unfold valid_datetime, MAXYEAR. simpl. lia.
  - simpl. lia.
Defined.

(** ** The recursive copy *)

Lemma rel_excluded_spec rel ex :
  rel_excluded rel ex = true <->
  exists part, part ∈ rel /\ part <> EmptyString /\ part ∈ ex.
Proof.
  unfold rel_excluded, parts. rewrite existsb_exists. split.
  - intros (part & Hin & Hex). apply filter_In in Hin as [Hin Hne].
    exists part. rewrite list_elem_of_In. split; [done|]. split.
    + intros ->. by rewrite String.eqb_refl in Hne.
    + by apply bool_decide_eq_true in Hex.
  - intros (part & Hin & Hne & Hex). exists part. split.
    + apply filter_In. rewrite <- list_elem_of_In. split; [done|].
      apply negb_true_iff, String.eqb_neq. done.
    + by apply bool_decide_eq_true.
Qed.

Lemma relative_to_prefix p base w :
  base `prefix_of` p ->
  exists rel, relative_to p base w = (Ok rel, w) /\ p = base ++ rel.
Proof.
  intros [rel ->]. exists rel. unfold relative_to.
  rewrite take_app_length, drop_app_length.
  by rewrite decide_True.
Qed.

Lemma copy_names_records (Q : copy_record -> Prop) root target ex :
  (forall fname, fname ∉ ex -> Q (joinpath root fname, joinpath target fname)) ->
  forall fnames acc w res w',
    copy_names fnames root target ex acc w = (Ok res, w') ->
    Forall Q acc -> Forall Q res.
Proof.
  intros HQ. induction fnames as [|fname fnames IH]; intros acc w res w'; simpl.
  { unfold ret. intros; by simplify_eq. }
  destruct (bool_decide (fname ∈ ex)) eqn:Hex; [by apply IH|].
  apply bool_decide_eq_false in Hex.
  unfold bind at 1.
  destruct (shutil_copy2 _ _ w) as [[d| |] w1]; [|done..].
  intros Hrun Hacc. eapply IH; [exact Hrun|].
  apply Forall_app. split; [done|]. constructor; [by apply HQ|constructor].
Qed.

Lemma copy_visit_records src_dir dst_dir ex root fnames acc w res w' :
  copy_visit src_dir dst_dir ex root fnames acc w = (Ok res, w') ->
  src_dir `prefix_of` root ->
  Forall (record_ok src_dir ex) acc ->
  Forall (record_ok src_dir ex) res.
Proof.
  intros Hrun Hpre Hacc. unfold copy_visit in Hrun.
  destruct (relative_to_prefix root src_dir w Hpre) as (rel & Hrel & ->).
  unfold bind at 1 in Hrun. rewrite Hrel in Hrun.
  destruct (rel_excluded rel ex) eqn:Hex.
  { unfold ret in Hrun. by simplify_eq. }
  unfold bind at 1 in Hrun. rewrite Hrel in Hrun.
  unfold bind at 1 in Hrun.
  destruct (Path_mkdir _ _ _ w) as [[[]| |] w1]; [|done..].
  eapply copy_names_records; [|exact Hrun|exact Hacc].
  intros fname Hfname. exists rel, fname. unfold joinpath. simpl.
  by rewrite <- app_assoc.
Qed.

Lemma walk_scan_run top w : exists sc, walk_scan top w = (Ok sc, w).
Proof.
  unfold walk_scan. unfold_monad.
  destruct (os_scandir (files w) top); eauto.
Qed.

Lemma walk_copy_records src_dir dst_dir ex : forall fuel stack acc w res w',
  walk_copy fuel stack src_dir dst_dir ex acc w = (Ok res, w') ->
  Forall (fun d => src_dir `prefix_of` d) stack ->
  Forall (record_ok src_dir ex) acc ->
  Forall (record_ok src_dir ex) res.
Proof.
  induction fuel as [|fuel IH]; intros stack acc w res w' Hrun Hstack Hacc;
    destruct stack as [|top stack]; simpl in Hrun;
    try (unfold ret, diverge in Hrun; by simplify_eq).
  apply Forall_cons in Hstack as [Htop Hstack].
  unfold bind at 1 in Hrun.
  destruct (walk_scan_run top w) as [sc Hsc]. rewrite Hsc in Hrun.
  destruct sc as [[dirs fnames]|]; [|by eapply IH].
  unfold bind at 1 in Hrun.
  destruct (copy_visit src_dir dst_dir ex top fnames acc w)
    as [[acc'| |] w1] eqn:Hvisit; [|done..].
  eapply IH; [exact Hrun| |by eapply copy_visit_records].
  apply Forall_app. split; [|done].
  apply Forall_forall. intros d Hd. apply list_elem_of_In, in_map_iff in Hd
    as (dname & <- & _).
  unfold joinpath. by apply prefix_app_r.
Qed.

(** C2. In a list of records that [copy_files_recursive] returns, no source
    is a path under [src_dir] with a (non-empty) part, directory or file
    name, that is an excluded name. *)
Theorem excluded_subtree_not_copied
    (fuel : nat) (src_dir dst_dir : path) (exclude_names : gset string)
    (w w' : world) (records : list copy_record) :
  copy_files_recursive fuel src_dir dst_dir exclude_names w = (Ok records, w') ->
  forall (rel : path) (seg : string),
    seg ∈ rel -> seg <> EmptyString -> seg ∈ exclude_names ->
    forall dst, (src_dir ++ rel, dst) ∉ records.
Proof.
  intros Hrun rel seg Hseg Hne Hex dst Hin.
  unfold copy_files_recursive in Hrun.
  apply walk_copy_records in Hrun; [| |constructor].
  2: { constructor; [done|constructor]. }
  rewrite Forall_forall in Hrun.
  destruct (Hrun _ Hin) as (rel' & fname & Heq & Hfname & Hrel).
  simpl in Heq. apply app_inv_head in Heq. subst rel.
  apply elem_of_app in Hseg as [Hseg|Hseg].
  - assert (rel_excluded rel' exclude_names = true) as Htrue
      by (apply rel_excluded_spec; eauto).
    congruence.
  - apply list_elem_of_singleton in Hseg. by subst.
Qed.

Example walk_copy_run :
  (copy_files_recursive 10 ["/"; "s"] ["/"; "s"; "bk"] demo_exclude
                        (World walk_fs [])).1
  = Ok [ (["/"; "s"; "a.txt"], ["/"; "s"; "bk"; "a.txt"]);
         (["/"; "s"; "keep"; "k.txt"], ["/"; "s"; "bk"; "keep"; "k.txt"]) ].
Proof. vm_compute. reflexivity. Qed.

Lemma excluded_subtree_not_copied_witness :
  (["/"; "s"] ++ ["keep"; "bk"; "inner"; "x.txt"],
   ["/"; "s"; "bk"; "keep"; "bk"; "inner"; "x.txt"]) ∉
  [ (["/"; "s"; "a.txt"], ["/"; "s"; "bk"; "a.txt"]);
    (["/"; "s"; "keep"; "k.txt"], ["/"; "s"; "bk"; "keep"; "k.txt"]) ].
Proof.
  apply (excluded_subtree_not_copied 10 ["/"; "s"] ["/"; "s"; "bk"]
           demo_exclude (World walk_fs [])
           (copy_files_recursive 10 ["/"; "s"] ["/"; "s"; "bk"] demo_exclude
                                 (World walk_fs [])).2
           _ ltac:(vm_compute; reflexivity)
           ["keep"; "bk"; "inner"; "x.txt"] "bk").
  - apply list_elem_of_further, list_elem_of_here.
  - discriminate.
  - apply elem_of_union_l, elem_of_singleton. reflexivity.
Defined.

(** ** Invariants through the monad *)

Section preserves.
Context (I : fsmap -> Prop).

Lemma preserves_ret {A} (a : A) : preserves I (ret a).
Proof. intros w r w' HI H. unfold ret in H. by simplify_eq. Qed.

Lemma preserves_raise {A} (e : exn) : preserves I (raise e : M A).
Proof. intros w r w' HI H. unfold raise in H. by simplify_eq. Qed.

Lemma preserves_diverge {A} : preserves I (diverge : M A).
Proof. intros w r w' HI H. unfold diverge in H. by simplify_eq. Qed.

Lemma preserves_bind {A B} (m : M A) (k : A -> M B) :
  preserves I m -> (forall a, preserves I (k a)) -> preserves I (bind m k).
Proof.
  intros Hm Hk w r w' HI H. unfold bind in H.
  destruct (m w) as [[a|e|] w1] eqn:Hrun; specialize (Hm _ _ _ HI Hrun).
  - exact (Hk a _ _ _ Hm H).
  - by simplify_eq.
  - by simplify_eq.
Qed.

Lemma preserves_try_except {A} (m : M A) (h : exn -> M A) :
  preserves I m -> (forall e, preserves I (h e)) ->
  preserves I (try_except m h).
Proof.
  intros Hm Hh w r w' HI H. unfold try_except in H.
  destruct (m w) as [[a|e|] w1] eqn:Hrun; specialize (Hm _ _ _ HI Hrun).
  - by simplify_eq.
  - exact (Hh e _ _ _ Hm H).
  - by simplify_eq.
Qed.

Lemma preserves_sys_get {A} (f : fsmap -> exn + A) : preserves I (sys_get f).
Proof.
  intros w r w' HI H. unfold sys_get in H.
  destruct (f (files w)); by simplify_eq.
Qed.

Lemma preserves_sys_set (f : fsmap -> exn + fsmap) :
  (forall fs fs', I fs -> f fs = inr fs' -> I fs') ->
  preserves I (sys_set f).
Proof.
  intros Hf w r w' HI H. unfold sys_set in H.
  destruct (f (files w)) as [e|fs'] eqn:Hrun; simplify_eq; [done|].
  exact (Hf _ _ HI Hrun).
Qed.

Lemma preserves_print line : preserves I (print line).
Proof. intros w r w' HI H. unfold print in H. by simplify_eq. Qed.

Lemma preserves_Path_stat p : preserves I (Path_stat p).
Proof. apply preserves_sys_get. Qed.

Lemma preserves_ignoring {A} e (a : A) : preserves I (ignoring e a).
Proof.
  unfold ignoring. destruct (ignore_error e);
    [apply preserves_ret|apply preserves_raise].
Qed.

Lemma preserves_Path_is_dir p : preserves I (Path_is_dir p).
Proof.
  apply preserves_try_except; [|intros; apply preserves_ignoring].
  apply preserves_bind; [apply preserves_sys_get|intros; apply preserves_ret].
Qed.

Lemma preserves_Path_is_file p : preserves I (Path_is_file p).
Proof.
  apply preserves_try_except; [|intros; apply preserves_ignoring].
  apply preserves_bind; [apply preserves_sys_get|intros; apply preserves_ret].
Qed.

Lemma preserves_Path_iterdir p : preserves I (Path_iterdir p).
Proof.
  apply preserves_bind; [apply preserves_sys_get|intros; apply preserves_ret].
Qed.

(** [Path.mkdir] keeps an invariant that [os.mkdir] keeps on the path
    and on its ancestors. *)
Lemma preserves_mkdir_handler p eo e :
  preserves I (if negb eo then raise e
               else d <- Path_is_dir p ;; if negb d then raise e else ret tt).
Proof.
  destruct eo; simpl; [|apply preserves_raise].
  apply preserves_bind; [apply preserves_Path_is_dir|].
  intros []; simpl; [apply preserves_ret|apply preserves_raise].
Qed.

Lemma preserves_mkdir_here p eo :
  (forall fs fs', I fs -> os_mkdir fs p = inr fs' -> I fs') ->
  preserves I (mkdir_here p eo).
Proof.
  intros Hp. apply preserves_try_except; [by apply preserves_sys_set|].
  intros e. destruct (is_FileNotFoundError e); [apply preserves_raise|].
  apply preserves_mkdir_handler.
Qed.

Lemma preserves_mkdir_parents (target : path) :
  (forall q fs fs', q `prefix_of` target -> I fs -> os_mkdir fs q = inr fs' ->
                    I fs') ->
  forall fuel p eo, p `prefix_of` target ->
    preserves I (mkdir_parents fuel p eo).
Proof.
  intros Hq. induction fuel as [|fuel IH]; intros p eo Hp; simpl;
    [apply preserves_diverge|].
  apply preserves_try_except;
    [apply preserves_sys_set; intros fs fs'; by apply Hq|].
  intros e. destruct (is_FileNotFoundError e);
    [|apply preserves_mkdir_handler].
  destruct (decide (parent p = p)); [apply preserves_raise|].
  apply preserves_bind.
  - apply IH. etrans; [apply parent_prefix|done].
  - intros _. apply preserves_mkdir_here. intros fs fs'. by apply Hq.
Qed.

Lemma preserves_Path_mkdir p parents eo :
  (forall q fs fs', q `prefix_of` p -> I fs -> os_mkdir fs q = inr fs' ->
                    I fs') ->
  preserves I (Path_mkdir p parents eo).
Proof.
  intros Hq. unfold Path_mkdir. destruct parents.
  - by apply (preserves_mkdir_parents p).
  - apply preserves_mkdir_here. intros fs fs'. by apply Hq.
Qed.

End preserves.

(** ** The allocation keeps every entry *)

Lemma os_mkdir_keeps fs0 p fs fs' :
  keeps fs0 fs -> os_mkdir fs p = inr fs' -> keeps fs0 fs'.
Proof.
  intros [Hwf Hsub] H.
  apply os_mkdir_wf in H as (-> & Hnone & Hwf' & _); [|done].
  split; [done|]. etrans; [exact Hsub|]. by apply insert_subseteq.
Qed.

Lemma preserves_mkdir_and_return fs0 p :
  preserves (keeps fs0) (mkdir_and_return p).
Proof.
  apply preserves_bind; [|intros; apply preserves_ret].
  apply preserves_Path_mkdir. intros q fs fs' _. apply os_mkdir_keeps.
Qed.

Lemma preserves_probe_loop fs0 base_dir base_name : forall fuel i,
  preserves (keeps fs0) (probe_loop fuel base_dir base_name i).
Proof.
  induction fuel as [|fuel IH]; intros i; simpl; [apply preserves_diverge|].
  apply preserves_try_except; [apply preserves_mkdir_and_return|].
  intros e. destruct (is_FileExistsError e); [apply IH|apply preserves_raise].
Qed.

Lemma preserves_allocate_backup_dir fs0 fuel now base_dir base_name :
  preserves (keeps fs0) (allocate_backup_dir fuel now base_dir base_name).
Proof.
  apply preserves_try_except; [apply preserves_mkdir_and_return|].
  intros e. destruct (is_FileExistsError e);
    [apply preserves_probe_loop|apply preserves_raise].
Qed.

(** A successful [mkdir(parents=True, exist_ok=False)] took a path that
    was not in the map. *)
Lemma Path_mkdir_ok_fresh p w w' :
  fs_wf (files w) -> Path_mkdir p true false w = (Ok tt, w') ->
  files w !! p = None.
Proof.
  intros Hwf. unfold Path_mkdir. simpl. unfold try_except, sys_set.
  destruct (os_mkdir (files w) p) as [e|fs'] eqn:Hmk.
  2: { intros _. by apply os_mkdir_wf in Hmk as (_ & ? & _). }
  destruct (is_FileNotFoundError e) eqn:Hnf; [|done].
  apply os_mkdir_inl in Hmk as [[-> _]|(_ & _ & Hmk)]; [done|].
  destruct (Hmk Hnf) as [Hst _]. intros _. by eapply fs_wf_not_found.
Qed.

Lemma mkdir_and_return_ok_fresh p w d w' :
  fs_wf (files w) -> mkdir_and_return p w = (Ok d, w') ->
  d = p /\ files w !! p = None.
Proof.
  intros Hwf. unfold mkdir_and_return, bind.
  destruct (Path_mkdir p true false w) as [[[]|e|] w1] eqn:Hmk; try done.
  unfold ret. intros; simplify_eq. split; [done|].
  by eapply Path_mkdir_ok_fresh.
Qed.

Lemma probe_loop_ok_fresh base_dir base_name : forall fuel i w d w',
  fs_wf (files w) ->
  probe_loop fuel base_dir base_name i w = (Ok d, w') ->
  files w !! d = None /\ d <> [].
Proof.
  induction fuel as [|fuel IH]; intros i w d w' Hwf; [done|].
  rewrite probe_loop_step.
  destruct (mkdir_and_return (numbered_dir base_dir base_name i) w)
    as [[d1|e|] w1] eqn:Hmk; [| |done].
  - intros; simplify_eq.
    apply mkdir_and_return_ok_fresh in Hmk as [-> Hnone]; [|done].
    split; [done|]. unfold numbered_dir, joinpath. by destruct base_dir.
  - destruct (is_FileExistsError e) eqn:He; [|done].
    destruct (mkdir_and_return_spec (numbered_dir base_dir base_name i) w Hwf)
      as [(w2 & Hrun & _)|(e2 & w2 & Hrun & _ & Hsame & _)];
      rewrite Hrun in Hmk; simplify_eq.
    rewrite (Hsame He). by apply IH.
Qed.

Lemma allocate_backup_dir_ok_fresh fuel now base_dir base_name w d w' :
  fs_wf (files w) ->
  allocate_backup_dir fuel now base_dir base_name w = (Ok d, w') ->
  files w !! d = None /\ d <> [].
Proof.
  intros Hwf. unfold allocate_backup_dir, try_except.
  change (create_unique_backup_dir now base_dir base_name w)
    with (mkdir_and_return (stamped_dir now base_dir base_name) w).
  destruct (mkdir_and_return (stamped_dir now base_dir base_name) w)
    as [[d1|e|] w1] eqn:Hmk; [| |done].
  - intros; simplify_eq.
    apply mkdir_and_return_ok_fresh in Hmk as [-> Hnone]; [|done].
    split; [done|]. unfold stamped_dir, joinpath. by destruct base_dir.
  - destruct (is_FileExistsError e) eqn:He; [|done].
    destruct (mkdir_and_return_spec (stamped_dir now base_dir base_name) w Hwf)
      as [(w2 & Hrun & _)|(e2 & w2 & Hrun & _ & Hsame & _)];
      rewrite Hrun in Hmk; simplify_eq.
    rewrite (Hsame He). by apply probe_loop_ok_fresh.
Qed.

(** ** The copy writes under the backup directory only *)

Lemma under_absent fs0 d k :
  fs_wf fs0 -> fs0 !! d = None -> d <> [] -> d `prefix_of` k ->
  fs0 !! k = None.
Proof.
  intros Hwf Hnone Hne [q ->].
  destruct (fs0 !! (d ++ q)) as [n|] eqn:Hk; [|done]. exfalso.
  destruct q as [|x q]; [rewrite app_nil_r in Hk; congruence|].
  destruct (fs_wf_prefix fs0 _ n Hwf Hk (length d)) as (s & wr & rd & Hd).
  { rewrite length_app. simpl. destruct d; [done|simpl; lia]. }
  rewrite take_app_length in Hd. congruence.
Qed.

Lemma only_under_keeps fs0 d fsa fs :
  fs_wf fs0 -> fs0 !! d = None -> d <> [] ->
  keeps fs0 fsa -> only_under d fsa fs -> keeps fs0 fs.
Proof.
  intros Hwf0 Hnone Hne [_ Hsub] (Hwf & _ & Hout). split; [done|].
  apply map_subseteq_spec. intros k n Hk.
  destruct (decide (d `prefix_of` k)) as [Hpre|Hpre].
  - rewrite (under_absent fs0 d k) in Hk by done. done.
  - rewrite Hout by done. by eapply lookup_weaken.
Qed.

Lemma only_under_insert d fsa fs p n :
  only_under d fsa fs -> d `prefix_of` p -> p <> d ->
  fs_wf (<[p := n]> fs) -> only_under d fsa (<[p := n]> fs).
Proof.
  intros (Hwf & Hd & Hout) Hpre Hne Hwf'. split; [done|]. split.
  - by rewrite lookup_insert_ne.
  - intros k Hk. rewrite lookup_insert_ne; [by apply Hout|].
    intros ->. done.
Qed.

Lemma os_mkdir_only_under d fsa target q fs fs' :
  d `prefix_of` target -> q `prefix_of` target ->
  only_under d fsa fs -> os_mkdir fs q = inr fs' -> only_under d fsa fs'.
Proof.
  intros Hd Hq Hinv Hmk. pose proof Hinv as (Hwf & [nd Hpresent] & Hout).
  pose proof (os_mkdir_inr _ _ _ Hmk) as (_ & _ & rd0 & Hpar).
  apply os_mkdir_wf in Hmk as (-> & Hnone & Hwf' & _); [|done].
  assert (q <> d) as Hne by (intros ->; congruence).
  apply only_under_insert; try done.
  destruct (prefix_weak_total _ _ _ Hd Hq) as [Hdq|Hqd]; [done|].
  exfalso. destruct Hqd as [r Hr]. subst d.
  destruct r as [|x r]; [by rewrite app_nil_r in Hne|].
  destruct q as [|y q].
  - apply os_stat_inr_lookup in Hpar. simpl in Hpar. congruence.
  - destruct (fs_wf_prefix fs _ nd Hwf Hpresent (length (y :: q)))
      as (s & wr & rd & Hq').
    { rewrite length_app. simpl. lia. }
    rewrite take_app_length in Hq'. congruence.
Qed.

Lemma fs_wf_parent_present fs p n :
  fs_wf fs -> fs !! p = Some n -> (2 <= length p)%nat ->
  exists s wr rd, fs !! List.removelast p = Some (Dir s wr rd).
Proof. intros Hwf Hp Hlen. exact (Hwf p n Hp Hlen). Qed.

Lemma os_write_only_under d fsa p data fs fs' :
  d `prefix_of` p -> p <> d ->
  only_under d fsa fs -> os_write fs p data = inr fs' -> only_under d fsa fs'.
Proof.
  intros Hpre Hne Hinv. pose proof Hinv as (Hwf & _ & _).
  unfold os_write.
  destruct (os_stat fs p) as [e|[old r|s wr rd]] eqn:Hst; [| |done].
  - destruct e; try done.
    destruct (check_parent_writable fs p) eqn:Hpar; [done|].
    intros ?; simplify_eq. apply only_under_insert; try done.
    apply check_parent_writable_None in Hpar as [rd0 Hpar].
    apply fs_wf_insert; [done| |].
    + intros Hlen. rewrite <- parent_removelast by done.
      apply os_stat_inr_lookup in Hpar. eauto.
    + right. intros s wr rd. by rewrite (fs_wf_not_found _ _ _ Hwf Hst).
  - intros ?; simplify_eq. apply only_under_insert; try done.
    apply os_stat_inr_lookup in Hst.
    apply fs_wf_insert; [done|by eapply fs_wf_parent_present|].
    right. intros s wr rd. by rewrite Hst.
Qed.

Lemma os_copymode_only_under d fsa src p fs fs' :
  d `prefix_of` p -> p <> d ->
  only_under d fsa fs -> os_copymode fs src p = inr fs' -> only_under d fsa fs'.
Proof.
  intros Hpre Hne Hinv. pose proof Hinv as (Hwf & _ & _).
  unfold os_copymode.
  destruct (os_stat fs src) as [e|[sd sr|ss swr]]; [done| |];
    destruct (os_stat fs p) as [e|[old r|s wr rd]] eqn:Hst; try done;
    intros ?; simplify_eq; try done.
  apply only_under_insert; try done.
  apply os_stat_inr_lookup in Hst.
  apply fs_wf_insert; [done|by eapply fs_wf_parent_present|].
  right. intros s wr rd. by rewrite Hst.
Qed.

Lemma preserves_shutil_copy2 d fsa src dst :
  d `prefix_of` dst -> dst <> d ->
  preserves (only_under d fsa) (shutil_copy2 src dst).
Proof.
  intros Hpre Hne. unfold shutil_copy2.
  apply preserves_bind; [apply preserves_sys_get|]. intros isd.
  set (dst' := if isd then joinpath dst (name src) else dst).
  assert (d `prefix_of` dst' /\ dst' <> d) as [Hpre' Hne'].
  { unfold dst', joinpath. destruct isd; [|done]. split.
    - by apply prefix_app_r.
    - intros Heq. destruct Hpre as [q ->].
      rewrite <- app_assoc in Heq.
      apply (f_equal length) in Heq. rewrite !length_app in Heq.
      simpl in Heq. lia. }
  apply preserves_bind.
  { unfold copyfile. apply preserves_bind; [apply preserves_sys_get|].
    intros []; [apply preserves_raise|].
    apply preserves_bind; [apply preserves_sys_get|]. intros data.
    apply preserves_sys_set. intros fs fs' Hinv.
    by apply os_write_only_under. }
  intros _. apply preserves_bind; [|intros; apply preserves_ret].
  apply preserves_sys_set. intros fs fs' Hinv.
  by apply os_copymode_only_under.
Qed.

Ltac preserves_auto :=
  repeat first
    [ apply preserves_print | apply preserves_ret | apply preserves_raise
    | apply preserves_diverge | apply preserves_sys_get
    | apply preserves_Path_is_file | apply preserves_Path_iterdir
    | (apply preserves_bind; [|intros ?])
    | (apply preserves_try_except; [|intros ?])
    | match goal with
      | |- preserves _ (if ?b then _ else _) => destruct b
      end ].

Lemma strictly_under (d t : path) (x : string) :
  d `prefix_of` t -> d `prefix_of` joinpath t x /\ joinpath t x <> d.
Proof.
  unfold joinpath. intros Hpre. split; [by apply prefix_app_r|].
  intros Heq. apply prefix_length in Hpre.
  apply (f_equal length) in Heq. rewrite length_app in Heq. simpl in Heq. lia.
Qed.

Lemma preserves_copy_names d fsa root target ex :
  d `prefix_of` target ->
  forall fnames acc,
    preserves (only_under d fsa) (copy_names fnames root target ex acc).
Proof.
  intros Hpre. induction fnames as [|fname fnames IH]; intros acc; simpl;
    [apply preserves_ret|].
  destruct (bool_decide (fname ∈ ex)); [apply IH|].
  destruct (strictly_under d target fname Hpre).
  apply preserves_bind; [by apply preserves_shutil_copy2|]. intros _. apply IH.
Qed.

Lemma preserves_copy_visit d fsa src_dir ex root fnames acc :
  preserves (only_under d fsa) (copy_visit src_dir d ex root fnames acc).
Proof.
  unfold copy_visit, relative_to.
  destruct (decide (take (length src_dir) root = src_dir));
    [|apply preserves_bind; [apply preserves_raise|intros; preserves_auto]].
  apply preserves_bind; [apply preserves_ret|]. intros rel.
  destruct (rel_excluded rel ex); [apply preserves_ret|].
  apply preserves_bind; [apply preserves_ret|]. intros rel_root.
  assert (d `prefix_of` joinpath_rel d rel_root) as Hpre
    by (by apply prefix_app_r).
  apply preserves_bind; [|intros _; by apply preserves_copy_names].
  apply preserves_Path_mkdir. intros q fs fs' Hq.
  by apply (os_mkdir_only_under d fsa (joinpath_rel d rel_root)).
Qed.

Lemma preserves_walk_copy d fsa src_dir ex : forall fuel stack acc,
  preserves (only_under d fsa) (walk_copy fuel stack src_dir d ex acc).
Proof.
  induction fuel as [|fuel IH]; intros [|top stack] acc; simpl;
    try apply preserves_ret; try apply preserves_diverge.
  apply preserves_bind; [unfold walk_scan; preserves_auto|].
  intros [[dirs fnames]|]; [|apply IH].
  apply preserves_bind; [apply preserves_copy_visit|]. intros acc'. apply IH.
Qed.

Lemma preserves_copy_items d fsa ex : forall items acc,
  preserves (only_under d fsa) (copy_items items d ex acc).
Proof.
  induction items as [|item items IH]; intros acc; simpl;
    [apply preserves_ret|].
  destruct (bool_decide (name item ∈ ex)); [apply IH|].
  apply preserves_bind; [apply preserves_Path_is_file|].
  intros []; [|apply IH].
  destruct (strictly_under d d (name item)) as [Hpre Hne]; [done|].
  apply preserves_bind; [by apply preserves_shutil_copy2|]. intros _. apply IH.
Qed.

(** The copy phase, from the allocated directory [d] on. *)
Lemma preserves_copy_phase d fsa (a : args) base_dir ex fuel :
  preserves (only_under d fsa)
    (if recursive a then copy_files_recursive fuel base_dir d ex
     else copy_files_non_recursive base_dir d ex).
Proof.
  destruct (recursive a).
  - apply preserves_walk_copy.
  - apply preserves_bind; [apply preserves_Path_iterdir|].
    intros items. apply preserves_copy_items.
Qed.

(** Allocation and copy never remove or change an entry that was there
    when the run started. *)
Lemma main_backup_keeps a e probe_fuel walk_fuel w rb w1 :
  fs_wf (files w) ->
  main_backup a e probe_fuel walk_fuel w = (rb, w1) ->
  keeps (files w) (files w1).
Proof.
  intros Hwf. unfold main_backup.
  destruct (determine_script_and_base_dir e) as [script_path base_dir].
  unfold bind at 1.
  destruct (allocate_backup_dir probe_fuel (now e) base_dir (arg_name a) w)
    as [ra wa] eqn:Hal.
  assert (keeps (files w) (files wa)) as Hkeep.
  { eapply (preserves_allocate_backup_dir (files w)); [|exact Hal].
    by split. }
  destruct ra as [d|e'|]; [|by intros; simplify_eq..].
  destruct (allocate_backup_dir_ok_fresh _ _ _ _ _ _ _ Hwf Hal) as [Hnone Hne].
  destruct (allocate_backup_dir_ok _ _ _ _ _ _ _ Hwf Hal)
    as (_ & [nd Hex] & Hwfa & _).
  apply os_stat_inr_lookup in Hex.
  intros Hrest.
  apply (only_under_keeps (files w) d (files wa)); try done.
  match type of Hrest with
  | ?m wa = _ => assert (preserves (only_under d (files wa)) m) as Hp
  end.
  { repeat first
      [ apply preserves_copy_phase | apply preserves_print | apply preserves_ret
      | (apply preserves_bind; [|intros ?])
      | match goal with
        | |- preserves _ (if ?b then _ else _) => destruct b
        end ]. }
  eapply Hp; [|exact Hrest]. split; [done|]. split; [by eexists|done].
Qed.

(** ** The confirmation prompt of [main] *)

(** C8. With deletion asked for, no [--force], and an answer that is not
    [y] once its white space (that of Unicode, as [str.strip] has it) is
    removed at both ends and it is put in lower case, or with no answer at
    all: whatever the backup phase did, [main] ends in the file system that
    the backup phase left, so the backup directory and the copies are as
    they were after the copy; it prints no line announcing the deletion
    pass; and every entry that the file system had when the run started is
    still there, unchanged.  After a backup phase that copied something and
    an answer that was read, the run ends normally on the line that says
    deletion is aborted. *)
Theorem declined_confirmation_deletes_nothing
    (a : args) (e : env) (probe_fuel walk_fuel : nat) (w : world) :
  fs_wf (files w) ->
  delete_originals a = true ->
  force a = false ->
  (forall resp, stdin_line e = Some resp -> lower (strip resp) <> ustr_of_string "y") ->
  exists rb w1 r w2 out,
    main_backup a e probe_fuel walk_fuel w = (rb, w1) /\
    main a e probe_fuel walk_fuel w = (r, w2) /\
    files w2 = files w1 /\
    stdout w2 = stdout w1 ++ out /\
    (deleting_line ∉ out) /\
    files w ⊆ files w2 /\
    (forall ex copied resp,
       rb = Ok (ex, copied) -> copied <> [] -> stdin_line e = Some resp ->
       r = Ok tt /\ out = [confirm_prompt; aborting_line]).
Proof.
  intros Hwf Hdel Hforce Hresp.
  destruct (main_backup a e probe_fuel walk_fuel w) as [rb w1] eqn:Hmb.
  destruct (main_backup_keeps _ _ _ _ _ _ _ Hwf Hmb) as [_ Hsub].
  unfold main, bind. rewrite Hmb.
  destruct rb as [[ex copied]|e'|].
  2,3: eexists _, w1, _, w1, [];
       (split; [done|]); (split; [done|]); (split; [done|]);
       (split; [by rewrite app_nil_r|]); (split; [apply not_elem_of_nil|]);
       (split; [done|]); done.
  unfold main_delete. simpl.
  destruct copied as [|c copied]; simpl.
  { unfold print. eexists _, w1, _, _, ["No files copied. Exiting."].
    split; [done|]. split; [reflexivity|]. simpl.
    split; [done|]. split; [done|]. split; [|split; [done|]].
    - intros Hin. apply list_elem_of_singleton in Hin. discriminate.
    - intros ex0 copied0 resp0 Heq Hne. by simplify_eq. }
  rewrite Hdel, Hforce. simpl.
  unfold input, bind, print, ret, raise. simpl.
  destruct (stdin_line e) as [resp|] eqn:Hin.
  - specialize (Hresp resp eq_refl).
    rewrite (bool_decide_eq_false_2 _ Hresp). simpl.
    eexists _, w1, _, _, [confirm_prompt; aborting_line].
    split; [done|]. split; [reflexivity|]. simpl.
    split; [done|]. split; [by rewrite <- app_assoc|].
    split; [|split; [done|by intros]].
    intros Hmem. apply elem_of_cons in Hmem as [Hmem|Hmem]; [discriminate|].
    apply list_elem_of_singleton in Hmem. discriminate.
  - eexists _, w1, _, _, [confirm_prompt].
    split; [done|]. split; [reflexivity|]. simpl.
    split; [done|]. split; [done|]. split; [|split; [done|by intros]].
    intros Hmem. apply list_elem_of_singleton in Hmem. discriminate.
Qed.

Example demo_declined_run :
  shown (main demo_args (demo_env " N ") 5 10 (World walk_fs []))
  = (let after_backup :=
         (main_backup demo_args (demo_env " N ") 5 10 (World walk_fs [])).2 in
     shown (Ok tt, World (files after_backup)
                         (stdout after_backup ++ [confirm_prompt; aborting_line]))).
Proof. vm_compute. reflexivity. Qed.

(** An answer of a no-break space and a capital [Y] is the answer [y]:
    the deletion pass runs. *)
Example demo_no_break_space_answer :
  let e := with_stdin (demo_env EmptyString) (Some [0xA0%N; 0x59%N]) in
  lower (strip [0xA0%N; 0x59%N]) = ustr_of_string "y" /\
  deleting_line ∈ stdout (main demo_args e 5 10 (World walk_fs [])).2 /\
  (files (main demo_args e 5 10 (World walk_fs [])).2)
    !! (["/"; "s"; "a.txt"] : path) = None /\
  walk_fs !! (["/"; "s"; "a.txt"] : path) <> None.
Proof.
  split; [reflexivity|]. split; [|split; [vm_compute; reflexivity|]].
  - vm_compute. repeat (first [apply list_elem_of_here | apply list_elem_of_further]).
  - vm_compute. discriminate.
Qed.

Lemma declined_confirmation_deletes_nothing_witness :
  exists rb w1 r w2 out,
    main_backup demo_args (demo_env " N ") 5 10 (World walk_fs []) = (rb, w1) /\
    main demo_args (demo_env " N ") 5 10 (World walk_fs []) = (r, w2) /\
    files w2 = files w1 /\
    stdout w2 = stdout w1 ++ out /\
    (deleting_line ∉ out) /\
    walk_fs ⊆ files w2 /\
    (forall ex copied resp,
       rb = Ok (ex, copied) -> copied <> [] ->
       stdin_line (demo_env " N ") = Some resp ->
       r = Ok tt /\ out = [confirm_prompt; aborting_line]).
Proof.
  apply (declined_confirmation_deletes_nothing demo_args (demo_env " N ") 5 10
           (World walk_fs [])).
  - apply fs_wf_check_sound. vm_compute. reflexivity.
  - reflexivity.
  - reflexivity.
  - intros resp Hresp. injection Hresp as <-. vm_compute. discriminate.
Defined.

(** The scenario of the specification, section 8: recursive copy, deletion
    with digests and [--force]: two files copied, two deleted, none
    failed. *)
Example scenario_forced_run :
  stdout (main (Args true "backup" true false true true) (demo_env "y") 5 10
               (World scenario_fs [])).2
  = [ "Source directory : /s";
      "Backup directory  : /s/backup_20261103_101500";
      "Recursive copy    : Yes"; "Delete originals  : Yes";
      "Verification mode : SHA-256"; "Remove empty dirs : No";
      "Starting copy..."; "Copied 2 files.";
      "Verifying copies and deleting originals..."; "Deleted 2 files.";
      "All backed files deleted successfully (subject to verification).";
      "Done." ].
Proof. vm_compute. reflexivity. Qed.

(** * Further properties of the code *)

(** ** [sha256_of_file] and [verify_pair] *)

Lemma read_chunks_zero fuel f h : read_chunks fuel 0 f h = h.
Proof. by destruct fuel. Qed.

(** X1. The chunk size does not matter to [sha256_of_file] as long as it
    is positive: the result is the SHA-256 digest of the whole content,
    or the error of opening the file.  With a chunk size of zero the
    first read is empty, the loop ends at once, and the digest is the one
    of the empty message. *)
Theorem sha256_of_file_any_chunk_size (p : path) (chunk_size : nat)
    (w : world) :
  sha256_of_file p chunk_size w =
  match os_read (files w) p with
  | inl e => (Raise e, w)
  | inr data =>
      (Ok (SHA256.hexdigest (if (chunk_size =? 0)%nat then [] else data)), w)
  end.
Proof.
  unfold sha256_of_file, bind, sys_get, ret.
  destruct (os_read (files w) p) as [e|data]; [reflexivity|].
  destruct (Nat.eqb_spec chunk_size 0) as [->|Hne].
  - by rewrite read_chunks_zero.
  - rewrite read_chunks_all; [reflexivity|lia|lia].
Qed.

Example sha256_of_file_small_chunks :
  sha256_of_file rec_a.1 2 demo_world
  = sha256_of_file rec_a.1 default_chunk_size demo_world.
Proof. vm_compute. reflexivity. Qed.

Lemma os_read_file fs p data :
  os_stat fs p = inr (File data true) -> os_read fs p = inr data.
Proof. unfold os_read. by intros ->. Qed.

(** X2. For two readable regular files, verification by size passes
    exactly when the lengths are equal, whatever the bytes are; with
    [use_hash] it passes exactly when, in addition, the digests are
    equal. *)
Theorem verify_pair_regular_files (src dst : path) (ds dd : list byte)
    (use_hash : bool) (w : world) :
  Path_stat src w = (Ok (File ds true), w) ->
  Path_stat dst w = (Ok (File dd true), w) ->
  verify_pair src dst use_hash w
  = (Ok ((length ds =? length dd)%nat &&
         (if use_hash
          then String.eqb (SHA256.hexdigest ds) (SHA256.hexdigest dd)
          else true)), w).
Proof.
  rewrite !Path_stat_run. intros Hs Hd.
  destruct (os_stat (files w) src) as [|ns] eqn:Hss; [done|].
  destruct (os_stat (files w) dst) as [|nd] eqn:Hsd; [done|].
  simplify_eq.
  rewrite verify_pair_run. unfold verify_fs, file_digest.
  rewrite Hss, Hsd, (os_read_file _ _ _ Hss), (os_read_file _ _ _ Hsd).
  simpl. f_equal. f_equal. f_equal.
  destruct (Nat.eqb_spec (length ds) (length dd)) as [Heq|Hne].
  - rewrite Heq. apply Z.eqb_refl.
  - apply Z.eqb_neq. lia.
Qed.

(** Same size, different bytes: accepted by size, rejected by digest. *)
Lemma verify_pair_regular_files_witness :
  verify_pair ["/"; "s"; "sub"; "b.txt"] ["/"; "s"; "bk"; "sub"; "c.txt"] false
              (World (<[(["/"; "s"; "bk"; "sub"; "c.txt"] : path) :=
                         File ["a"; "b"; "d"]%byte true]> demo_fs) [])
  = (Ok ((length ["a"; "b"; "c"]%byte =? length ["a"; "b"; "d"]%byte)%nat && true),
     World (<[(["/"; "s"; "bk"; "sub"; "c.txt"] : path) :=
                File ["a"; "b"; "d"]%byte true]> demo_fs) []).
Proof.
  apply (verify_pair_regular_files
           ["/"; "s"; "sub"; "b.txt"] ["/"; "s"; "bk"; "sub"; "c.txt"]
           ["a"; "b"; "c"]%byte ["a"; "b"; "d"]%byte false);
    vm_compute; reflexivity.
Defined.

Example same_size_corruption :
  let w := World (<[(["/"; "s"; "bk"; "sub"; "c.txt"] : path) :=
                      File ["a"; "b"; "d"]%byte true]> demo_fs) [] in
  (verify_pair ["/"; "s"; "sub"; "b.txt"] ["/"; "s"; "bk"; "sub"; "c.txt"]
               false w).1 = Ok true /\
  (verify_pair ["/"; "s"; "sub"; "b.txt"] ["/"; "s"; "bk"; "sub"; "c.txt"]
               true w).1 = Ok false.
Proof. split; vm_compute; reflexivity. Qed.

(** ** [delete_backed_files]: what is deleted and what is left *)

Lemma os_stat_weaken fs fs' p n :
  fs' ⊆ fs -> os_stat fs' p = inr n -> os_stat fs p = inr n.
Proof.
  intros Hsub. rewrite !os_stat_inr. intros [Hp Hpre]. split.
  - by eapply lookup_weaken.
  - intros i Hi. destruct (Hpre i Hi) as (wr & rd & Hwr). exists wr, rd.
    by eapply lookup_weaken.
Qed.

Lemma file_digest_weaken fs fs' p h :
  fs' ⊆ fs -> file_digest fs' p = inr h -> file_digest fs p = inr h.
Proof.
  intros Hsub. unfold file_digest, os_read.
  destruct (os_stat fs' p) as [|n] eqn:Hst; [done|].
  by rewrite (os_stat_weaken _ _ _ _ Hsub Hst).
Qed.

(** A verification that passes after some entries were removed passed
    before they were. *)
Lemma verify_fs_weaken ds fs fs' src dst uh :
  fs' ⊆ fs ->
  verify_fs ds fs' src dst uh = true -> verify_fs ds fs src dst uh = true.
Proof.
  intros Hsub. unfold verify_fs.
  destruct (os_stat fs' dst) as [|nd] eqn:Hd; [done|].
  destruct (os_stat fs' src) as [|ns] eqn:Hs; [done|].
  rewrite (os_stat_weaken _ _ _ _ Hsub Hd), (os_stat_weaken _ _ _ _ Hsub Hs).
  destruct (st_size ds src ns =? st_size ds dst nd)%Z; [simpl|done].
  destruct uh; [|done].
  destruct (file_digest fs' src) as [|hs] eqn:Hhs; [done|].
  destruct (file_digest fs' dst) as [|hd] eqn:Hhd; [done|].
  by rewrite (file_digest_weaken _ _ _ _ Hsub Hhs),
             (file_digest_weaken _ _ _ _ Hsub Hhd).
Qed.

Lemma os_unlink_inr fs p fs' :
  os_unlink fs p = inr fs' -> fs' = delete p fs.
Proof.
  unfold os_unlink.
  destruct (os_stat fs p) as [|[data r|s wr rd]]; try done.
  destruct (check_parent_writable fs p); [done|]. by intros; simplify_eq.
Qed.

(** One iteration changes the file system by the deletions it reports. *)
Lemma delete_one_files ex uh r w d f w1 :
  delete_one ex uh r [] [] w = (Ok (d, f), w1) ->
  files w1 = without d (files w) /\ stdout w1 = stdout w.
Proof.
  rewrite delete_one_run. unfold delete_step.
  destruct (excluded_part r.1 ex); [by intros; simplify_eq|].
  destruct (verify_fs (dir_size w) (files w) r.1 r.2 uh); simpl; [|by intros; simplify_eq].
  destruct (os_unlink (files w) r.1) as [e|fs'] eqn:Hun; simpl;
    intros; simplify_eq; [done|].
  by rewrite (os_unlink_inr _ _ _ Hun).
Qed.

Lemma without_app l1 l2 fs : without (l1 ++ l2) fs = without l2 (without l1 fs).
Proof. unfold without. apply foldl_app. Qed.

Lemma delete_loop_files ex uh rs : forall w D F w',
  delete_loop ex uh rs [] [] w = (Ok (D, F), w') ->
  files w' = without D (files w) /\ stdout w' = stdout w.
Proof.
  induction rs as [|r rs IH]; intros w D F w' Hrun.
  { simpl in Hrun. unfold ret in Hrun. by simplify_eq. }
  apply delete_loop_cons_inv in Hrun
    as (d & f & w1 & D2 & F2 & Hone & Hrest & -> & ->).
  apply delete_one_files in Hone as [Hf1 Ho1].
  apply IH in Hrest as [Hf2 Ho2].
  rewrite without_app, <- Hf1. split; congruence.
Qed.

Lemma without_lookup l : forall fs k,
  without l fs !! k = if decide (k ∈ l) then None else fs !! k.
Proof.
  induction l as [|p l IH]; intros fs k; simpl.
  { destruct (decide (k ∈ [])) as [H|]; [by apply elem_of_nil in H|done]. }
  rewrite IH.
  destruct (decide (k ∈ l)) as [Hl|Hl], (decide (k ∈ p :: l)) as [Hpl|Hpl];
    try done.
  - destruct Hpl. by apply list_elem_of_further.
  - apply elem_of_cons in Hpl as [->|?]; [|done]. apply lookup_delete_eq.
  - apply lookup_delete_ne. intros ->. apply Hpl, list_elem_of_here.
Qed.

Lemma without_subseteq l fs : without l fs ⊆ fs.
Proof.
  apply map_subseteq_spec. intros k n. rewrite without_lookup.
  by destruct (decide (k ∈ l)).
Qed.

Lemma prune_trace_lookup dirs fs fs' :
  prune_trace dirs fs fs' ->
  forall k, fs' !! k = fs !! k \/ (k ∈ dirs /\ fs' !! k = None).
Proof.
  induction 1 as [fs|d rest fs fs' _ IH|d rest fs fs' s wr Hst Hent _ IH];
    intros k.
  - by left.
  - destruct (IH k) as [?|[? ?]]; [by left|right].
    split; [by apply list_elem_of_further|done].
  - destruct (IH k) as [Heq|[Hin Hnone]].
    + destruct (decide (k = d)) as [->|Hne].
      * right. split; [apply list_elem_of_here|].
        by rewrite Heq, lookup_delete_eq.
      * left. by rewrite Heq, lookup_delete_ne.
    + right. split; [by apply list_elem_of_further|done].
Qed.

Lemma delete_loop_deleted_info ex uh rs : forall w D F w',
  delete_loop ex uh rs [] [] w = (Ok (D, F), w') ->
  forall p, p ∈ D ->
    excluded_part p ex = false /\
    exists pre dst post D1 F1 w1,
      rs = pre ++ (p, dst) :: post /\
      delete_loop ex uh pre [] [] w = (Ok (D1, F1), w1) /\
      verify_fs (dir_size w1) (files w1) p dst uh = true /\
      is_Some (files w1 !! p).
Proof.
  induction rs as [|r rs IH]; intros w D F w' Hrun p Hin.
  { simpl in Hrun. unfold ret in Hrun. simplify_eq. by apply elem_of_nil in Hin. }
  apply delete_loop_cons_inv in Hrun
    as (d & f & w1 & D2 & F2 & Hone & Hrest & -> & ->).
  apply elem_of_app in Hin as [Hin|Hin].
  - destruct (delete_one_deleted _ _ _ _ _ _ _ _ Hone Hin) as (-> & Hex & Hv & Hun).
    split; [done|].
    exists [], r.2, rs, [], [], w. destruct r as [src dst]; simpl in *.
    split; [done|]. split; [done|]. split; [done|].
    unfold os_unlink in Hun.
    destruct (os_stat (files w) src) as [|n] eqn:Hst; [done|].
    apply os_stat_inr_lookup in Hst. by rewrite Hst.
  - destruct (IH _ _ _ _ Hrest _ Hin)
      as (Hex & pre & dst & post & D1 & F1 & w2 & -> & Hpre & Hv & Hsome).
    split; [done|].
    exists (r :: pre), dst, post, (d ++ D1), (f ++ F1), w2.
    split; [done|]. split; [|done].
    by eapply delete_loop_cons.
Qed.

(** X3. Every path in [deleted] is the source of an input record that has
    no excluded part and that [verify_pair] accepts in the world in which
    [delete_backed_files] was called. *)
Theorem deleted_verified_before_the_call
    (copied_pairs : list copy_record) (exclude_names : gset string)
    (use_hash remove_empty : bool) (w w' : world)
    (deleted : list path) (failed : list failure) :
  delete_backed_files copied_pairs exclude_names use_hash remove_empty w
    = (Ok (deleted, failed), w') ->
  forall p, p ∈ deleted ->
    excluded_part p exclude_names = false /\
    exists dst, (p, dst) ∈ copied_pairs /\
                verify_pair p dst use_hash w = (Ok true, w).
Proof.
  intros Hrun p Hin.
  destruct (delete_backed_files_run copied_pairs exclude_names use_hash
              remove_empty w) as (D & F & w1 & w2 & Hloop & Hrun' & _).
  rewrite Hrun' in Hrun. simplify_eq.
  destruct (delete_loop_deleted_info _ _ _ _ _ _ _ Hloop _ Hin)
    as (Hex & pre & dst & post & D1 & F1 & w3 & -> & Hpre & Hv & _).
  pose proof (delete_loop_dir_size _ _ _ _ _ _ _ _ Hpre) as Hds.
  apply delete_loop_files in Hpre as [Hfiles _].
  split; [done|].
  exists dst. split; [apply elem_of_app; right; apply list_elem_of_here|].
  rewrite verify_pair_run. f_equal. f_equal.
  rewrite Hds in Hv. eapply verify_fs_weaken; [|exact Hv].
  rewrite Hfiles. apply without_subseteq.
Qed.

Lemma deleted_verified_before_the_call_witness :
  excluded_part rec_a.1 demo_exclude = false /\
  exists dst, (rec_a.1, dst) ∈ [rec_b; rec_c; rec_a] /\
              verify_pair rec_a.1 dst true demo_world = (Ok true, demo_world).
Proof.
  apply (deleted_verified_before_the_call
           [rec_b; rec_c; rec_a] demo_exclude true true demo_world
           (delete_backed_files [rec_b; rec_c; rec_a] demo_exclude true true
                                demo_world).2
           [rec_b.1; rec_a.1]
           [(rec_c.1, "delete_error:[Errno 13] Permission denied: '/s/ro/c.txt'")]).
  - vm_compute. reflexivity.
  - apply list_elem_of_further, list_elem_of_here.
Defined.

(** A path that is not in the file system is not deleted. *)
Lemma delete_loop_absent_not_deleted ex uh rs w D F w' p :
  delete_loop ex uh rs [] [] w = (Ok (D, F), w') ->
  files w !! p = None -> p ∉ D.
Proof.
  intros Hrun Hnone Hin.
  destruct (delete_loop_deleted_info _ _ _ _ _ _ _ Hrun _ Hin)
    as (_ & pre & dst & post & D1 & F1 & w1 & _ & Hpre & _ & [n Hn]).
  apply delete_loop_files in Hpre as [Hfiles _].
  rewrite Hfiles in Hn.
  pose proof (lookup_weaken _ _ _ _ Hn (without_subseteq _ _)). congruence.
Qed.

Lemma delete_loop_NoDup ex uh rs : forall w D F w',
  delete_loop ex uh rs [] [] w = (Ok (D, F), w') -> NoDup D.
Proof.
  induction rs as [|r rs IH]; intros w D F w' Hrun.
  { simpl in Hrun. unfold ret in Hrun. simplify_eq. constructor. }
  apply delete_loop_cons_inv in Hrun
    as (d & f & w1 & D2 & F2 & Hone & Hrest & -> & ->).
  pose proof (IH _ _ _ _ Hrest) as Hnd.
  destruct (delete_one_ok ex uh r [] [] w)
    as (d' & f' & w1' & _ & Hone' & _ & Hcount & Hd & _).
  rewrite Hone in Hone'. simplify_eq.
  destruct d' as [|p [|]]; simpl in *; [done| |lia].
  constructor; [|done].
  eapply delete_loop_absent_not_deleted; [exact Hrest|].
  apply delete_one_files in Hone as [-> _]. simpl. apply lookup_delete_eq.
Qed.

(** X4. [delete_backed_files] never reports a path twice in [deleted], even
    when a record is repeated in the input: once a source is unlinked, a
    later record with the same source fails verification. *)
Theorem deleted_once
    (copied_pairs : list copy_record) (exclude_names : gset string)
    (use_hash remove_empty : bool) (w w' : world)
    (deleted : list path) (failed : list failure) :
  delete_backed_files copied_pairs exclude_names use_hash remove_empty w
    = (Ok (deleted, failed), w') ->
  NoDup deleted.
Proof.
  intros Hrun.
  destruct (delete_backed_files_run copied_pairs exclude_names use_hash
              remove_empty w) as (D & F & w1 & w2 & Hloop & Hrun' & _).
  rewrite Hrun' in Hrun. simplify_eq. by eapply delete_loop_NoDup.
Qed.

Lemma deleted_once_witness : NoDup [rec_a.1].
Proof.
  apply (deleted_once [rec_a; rec_a] demo_exclude true false demo_world
           (delete_backed_files [rec_a; rec_a] demo_exclude true false
                                demo_world).2
           [rec_a.1] [(rec_a.1, "verification_failed")]).
  vm_compute. reflexivity.
Defined.

(** X5. What [delete_backed_files] does to the file system: the paths in
    [deleted] are gone; every other entry is as before, except that with
    [remove_empty_dirs] a parent directory of a deleted file may be gone
    too.  The output is not written to. *)
Theorem delete_backed_files_frame
    (copied_pairs : list copy_record) (exclude_names : gset string)
    (use_hash remove_empty : bool) (w w' : world)
    (deleted : list path) (failed : list failure) :
  delete_backed_files copied_pairs exclude_names use_hash remove_empty w
    = (Ok (deleted, failed), w') ->
  stdout w' = stdout w /\
  files w' ⊆ files w /\
  (forall k, k ∈ deleted -> files w' !! k = None) /\
  (forall k, k ∉ deleted ->
     remove_empty = false \/ k ∉ prune_candidates deleted ->
     files w' !! k = files w !! k).
Proof.
  intros Hrun.
  destruct (delete_backed_files_run copied_pairs exclude_names use_hash
              remove_empty w) as (D & F & w1 & w2 & Hloop & Hrun' & Hout & Hprune).
  rewrite Hrun' in Hrun. simplify_eq.
  apply delete_loop_files in Hloop as [Hfiles _].
  assert (forall k, files w' !! k = files w1 !! k \/
                    (remove_empty = true /\ k ∈ prune_candidates deleted /\
                     files w' !! k = None)) as Hcases.
  { intros k. destruct remove_empty; [|subst; by left].
    destruct (prune_trace_lookup _ _ _ Hprune k) as [?|[? ?]]; [by left|].
    right. done. }
  split; [done|]. split; [|split].
  - apply map_subseteq_spec. intros k n Hk.
    destruct (Hcases k) as [Heq|(_ & _ & Hnone)]; [|congruence].
    rewrite Heq, Hfiles in Hk.
    by eapply lookup_weaken; [|apply without_subseteq].
  - intros k Hin. destruct (Hcases k) as [Heq|(_ & _ & Hnone)]; [|done].
    rewrite Heq, Hfiles, without_lookup. by rewrite decide_True.
  - intros k Hnin Hred. destruct (Hcases k) as [Heq|(Htrue & Hcand & _)].
    + rewrite Heq, Hfiles, without_lookup. by rewrite decide_False.
    + destruct Hred as [?|?]; [congruence|done].
Qed.

Lemma delete_backed_files_frame_witness :
  stdout (delete_backed_files [rec_b; rec_c; rec_a] demo_exclude true true
                              demo_world).2 = stdout demo_world /\
  files (delete_backed_files [rec_b; rec_c; rec_a] demo_exclude true true
                             demo_world).2 ⊆ files demo_world /\
  (forall k, k ∈ [rec_b.1; rec_a.1] ->
     files (delete_backed_files [rec_b; rec_c; rec_a] demo_exclude true true
                                demo_world).2 !! k = None) /\
  (forall k, k ∉ [rec_b.1; rec_a.1] ->
     true = false \/ k ∉ prune_candidates [rec_b.1; rec_a.1] ->
     files (delete_backed_files [rec_b; rec_c; rec_a] demo_exclude true true
                                demo_world).2 !! k = files demo_world !! k).
Proof.
  apply (delete_backed_files_frame
           [rec_b; rec_c; rec_a] demo_exclude true true demo_world
           (delete_backed_files [rec_b; rec_c; rec_a] demo_exclude true true
                                demo_world).2
           [rec_b.1; rec_a.1]
           [(rec_c.1, "delete_error:[Errno 13] Permission denied: '/s/ro/c.txt'")]).
  vm_compute. reflexivity.
Defined.

(** The reason that one iteration records, with what the calls of the
    iteration returned. *)
Lemma delete_one_failed ex uh r w d f w1 p reason :
  delete_one ex uh r [] [] w = (Ok (d, f), w1) ->
  (p, reason) ∈ f ->
  p = r.1 /\
  ((excluded_part r.1 ex = true /\ reason = "excluded") \/
   (excluded_part r.1 ex = false /\
    verify_pair r.1 r.2 uh w = (Ok false, w) /\
    reason = "verification_failed") \/
   (excluded_part r.1 ex = false /\
    verify_pair r.1 r.2 uh w = (Ok true, w) /\
    exists e, Path_unlink r.1 w = (Raise e, w) /\
              reason = "delete_error:" +:+ exn_str e)).
Proof.
  rewrite delete_one_run. unfold delete_step.
  destruct (excluded_part r.1 ex) eqn:Hex.
  { intros ? Hin. simplify_eq. apply list_elem_of_singleton in Hin.
    simplify_eq. auto. }
  destruct (verify_fs (dir_size w) (files w) r.1 r.2 uh) eqn:Hv; simpl.
  2:{ intros ? Hin. simplify_eq. apply list_elem_of_singleton in Hin.
      simplify_eq. split; [done|]. right. left.
      by rewrite verify_pair_run, Hv. }
  destruct (os_unlink (files w) r.1) as [e|fs'] eqn:Hun; simpl.
  2:{ intros ? Hin. simplify_eq. by apply elem_of_nil in Hin. }
  intros ? Hin. simplify_eq. apply list_elem_of_singleton in Hin.
  simplify_eq. split; [done|]. right. right.
  split; [done|]. split; [by rewrite verify_pair_run, Hv|].
  exists e. split; [|done]. unfold Path_unlink, sys_set. by rewrite Hun.
Qed.

Lemma delete_loop_failed_info ex uh rs : forall w D F w',
  delete_loop ex uh rs [] [] w = (Ok (D, F), w') ->
  forall p reason, (p, reason) ∈ F ->
    exists pre dst post D1 F1 w1,
      rs = pre ++ (p, dst) :: post /\
      delete_loop ex uh pre [] [] w = (Ok (D1, F1), w1) /\
      ((excluded_part p ex = true /\ reason = "excluded") \/
       (excluded_part p ex = false /\
        verify_pair p dst uh w1 = (Ok false, w1) /\
        reason = "verification_failed") \/
       (excluded_part p ex = false /\
        verify_pair p dst uh w1 = (Ok true, w1) /\
        exists e, Path_unlink p w1 = (Raise e, w1) /\
                  reason = "delete_error:" +:+ exn_str e)).
Proof.
  induction rs as [|r rs IH]; intros w D F w' Hrun p reason Hin.
  { simpl in Hrun. unfold ret in Hrun. simplify_eq. by apply elem_of_nil in Hin. }
  apply delete_loop_cons_inv in Hrun
    as (d & f & w1 & D2 & F2 & Hone & Hrest & -> & ->).
  apply elem_of_app in Hin as [Hin|Hin].
  - destruct (delete_one_failed _ _ _ _ _ _ _ _ _ Hone Hin) as [-> Hcases].
    exists [], r.2, rs, [], [], w. destruct r as [src dst]. done.
  - destruct (IH _ _ _ _ Hrest _ _ Hin)
      as (pre & dst & post & D1 & F1 & w2 & -> & Hpre & Hcases).
    exists (r :: pre), dst, post, (d ++ D1), (f ++ F1), w2.
    split; [done|]. split; [|done].
    by eapply delete_loop_cons.
Qed.

(** X6. [delete_backed_files] returns, and every entry of [failed] names
    the source of an input record and gives the reason why the loop, when
    it came to that record, did not delete it: [excluded], for a source
    with an excluded part; [verification_failed], for a record that
    [verify_pair] rejected in the world reached; or [delete_error:]
    followed by the text of the exception that [unlink] raised in that
    world, after [verify_pair] had accepted the record. *)
Theorem failure_reasons
    (copied_pairs : list copy_record) (exclude_names : gset string)
    (use_hash remove_empty : bool) (w : world) :
  exists deleted failed w',
    delete_backed_files copied_pairs exclude_names use_hash remove_empty w
      = (Ok (deleted, failed), w') /\
    forall p reason, (p, reason) ∈ failed ->
      p ∈ map fst copied_pairs /\
      exists pre dst post deleted1 failed1 w1,
        copied_pairs = pre ++ (p, dst) :: post /\
        delete_loop exclude_names use_hash pre [] [] w
          = (Ok (deleted1, failed1), w1) /\
        ((excluded_part p exclude_names = true /\ reason = "excluded") \/
         (excluded_part p exclude_names = false /\
          verify_pair p dst use_hash w1 = (Ok false, w1) /\
          reason = "verification_failed") \/
         (excluded_part p exclude_names = false /\
          verify_pair p dst use_hash w1 = (Ok true, w1) /\
          exists e, Path_unlink p w1 = (Raise e, w1) /\
                    reason = "delete_error:" +:+ exn_str e)).
Proof.
  destruct (delete_backed_files_run copied_pairs exclude_names use_hash
              remove_empty w) as (D & F & w1 & w2 & Hloop & Hrun & _).
  exists D, F, w2. split; [done|]. intros p reason Hin.
  destruct (delete_loop_failed_info _ _ _ _ _ _ _ Hloop _ _ Hin)
    as (pre & dst & post & D1 & F1 & w3 & -> & Hpre & Hcases).
  split.
  - rewrite map_app. apply elem_of_app. right. simpl. apply list_elem_of_here.
  - by exists pre, dst, post, D1, F1, w3.
Qed.

(** The three reasons on the example: an excluded source, a source that
    is not there, and a source in a directory that cannot be written. *)
Example failure_reasons_example :
  (delete_backed_files
     [ (["/"; "s"; "bk"; "x"], ["/"; "s"; "bk"; "y"]);
       (["/"; "s"; "nothing"], rec_a.2); rec_c ]
     demo_exclude true false demo_world).1
  = Ok ([], [ (["/"; "s"; "bk"; "x"], "excluded");
              (["/"; "s"; "nothing"], "verification_failed");
              (rec_c.1,
               "delete_error:[Errno 13] Permission denied: '/s/ro/c.txt'") ]).
Proof. vm_compute. reflexivity. Qed.
(** ** Nothing is deleted without a passing verification *)

(** The pruning pass removes directories only. *)
Lemma prune_trace_keeps_files dirs fs fs' :
  prune_trace dirs fs fs' ->
  forall k data r, fs !! k = Some (File data r) -> fs' !! k = Some (File data r).
Proof.
  induction 1 as [fs|d rest fs fs' _ IH|d rest fs fs' s wr Hst Hent _ IH];
    intros k data r Hk; [done|by eapply IH|].
  eapply IH. rewrite lookup_delete_ne; [done|].
  intros ->. apply os_stat_inr_lookup in Hst. congruence.
Qed.

(** What one iteration of the loop does to the world: nothing, or the
    unlinking of the source of its record, after [verify_pair] has
    accepted the record in that same world. *)
Lemma delete_one_cases ex uh r w d f w2 :
  delete_one ex uh r [] [] w = (Ok (d, f), w2) ->
  (d = [] /\ w2 = w) \/
  (excluded_part r.1 ex = false /\
   verify_pair r.1 r.2 uh w = (Ok true, w) /\
   Path_unlink r.1 w = (Ok tt, w2) /\
   d = [r.1] /\ f = [] /\ files w2 = delete r.1 (files w)).
Proof.
  rewrite delete_one_run. unfold delete_step.
  destruct (excluded_part r.1 ex) eqn:Hex.
  { intros ?; simplify_eq. left. by rewrite world_eta. }
  destruct (verify_fs (dir_size w) (files w) r.1 r.2 uh) eqn:Hv; simpl.
  2:{ intros ?; simplify_eq. left. by rewrite world_eta. }
  destruct (os_unlink (files w) r.1) as [e|fs'] eqn:Hun; simpl.
  { intros ?; simplify_eq. left. by rewrite world_eta. }
  intros ?; simplify_eq. right.
  split; [done|]. split; [by rewrite verify_pair_run, Hv|].
  split; [unfold Path_unlink, sys_set; by rewrite Hun|].
  split; [done|]. split; [done|]. simpl. by apply os_unlink_inr.
Qed.

Lemma delete_loop_deleted_step ex uh rs : forall w D F w',
  delete_loop ex uh rs [] [] w = (Ok (D, F), w') ->
  forall p, p ∈ D ->
    exists pre dst post D1 F1 w1 w2,
      rs = pre ++ (p, dst) :: post /\
      delete_loop ex uh pre [] [] w = (Ok (D1, F1), w1) /\
      delete_one ex uh (p, dst) [] [] w1 = (Ok ([p], []), w2).
Proof.
  induction rs as [|r rs IH]; intros w D F w' Hrun p Hin.
  { simpl in Hrun. unfold ret in Hrun. simplify_eq. by apply elem_of_nil in Hin. }
  apply delete_loop_cons_inv in Hrun
    as (d & f & w1 & D2 & F2 & Hone & Hrest & -> & ->).
  apply elem_of_app in Hin as [Hin|Hin].
  - destruct (delete_one_cases _ _ _ _ _ _ _ Hone)
      as [[-> _]|(_ & _ & _ & -> & -> & _)];
      [by apply elem_of_nil in Hin|].
    apply list_elem_of_singleton in Hin. subst p.
    exists [], r.2, rs, [], [], w, w1. destruct r as [src dst]. done.
  - destruct (IH _ _ _ _ Hrest _ Hin)
      as (pre & dst & post & D1 & F1 & w2 & w3 & -> & Hpre & Hstep).
    exists (r :: pre), dst, post, (d ++ D1), (f ++ F1), w2, w3.
    split; [done|]. split; [|done].
    by eapply delete_loop_cons.
Qed.

(** C1. For a call of [delete_backed_files] that returns [deleted]:
    - every path of [deleted] is the source of a record of the input list;
      in the world that the loop had reached when it came to that record,
      [verify_pair], with the run's [use_hash], returned [True] and left
      the world as it was, and [unlink], called in that world, removed the
      path, and nothing else;
    - every iteration of the loop leaves the world as it found it, unless
      [verify_pair] has accepted its record in that world and [unlink] has
      removed the source of the record;
    - every regular file that the file system had at the call and whose
      path is not in [deleted] is still there at the end, with its bytes,
      also with [remove_empty_dirs], and nothing is there at the end that
      was not there at the call. *)
Theorem deleted_only_after_passing_verification
    (copied_pairs : list copy_record) (exclude_names : gset string)
    (use_hash remove_empty : bool) (w w' : world)
    (deleted : list path) (failed : list failure) :
  delete_backed_files copied_pairs exclude_names use_hash remove_empty w
    = (Ok (deleted, failed), w') ->
  (forall p, p ∈ deleted ->
     exists pre dst post deleted1 failed1 w1 w2,
       copied_pairs = pre ++ (p, dst) :: post /\
       delete_loop exclude_names use_hash pre [] [] w
         = (Ok (deleted1, failed1), w1) /\
       verify_pair p dst use_hash w1 = (Ok true, w1) /\
       Path_unlink p w1 = (Ok tt, w2) /\
       files w2 = delete p (files w1) /\
       delete_loop exclude_names use_hash (pre ++ [(p, dst)]) [] [] w
         = (Ok (deleted1 ++ [p], failed1), w2)) /\
  (forall pre r post deleted1 failed1 w1 d f w2,
     copied_pairs = pre ++ r :: post ->
     delete_loop exclude_names use_hash pre [] [] w
       = (Ok (deleted1, failed1), w1) ->
     delete_one exclude_names use_hash r [] [] w1 = (Ok (d, f), w2) ->
     (d = [] /\ w2 = w1) \/
     (verify_pair r.1 r.2 use_hash w1 = (Ok true, w1) /\
      Path_unlink r.1 w1 = (Ok tt, w2) /\
      d = [r.1] /\ f = [] /\ files w2 = delete r.1 (files w1))) /\
  (forall k data r, files w !! k = Some (File data r) -> k ∉ deleted ->
     files w' !! k = Some (File data r)) /\
  files w' ⊆ files w.
Proof.
  intros Hrun.
  destruct (delete_backed_files_run copied_pairs exclude_names use_hash
              remove_empty w) as (D & F & w1 & w2 & Hloop & Hrun' & _ & Hprune).
  rewrite Hrun' in Hrun. simplify_eq.
  split; [|split; [|split]].
  - intros p Hin.
    destruct (delete_loop_deleted_step _ _ _ _ _ _ _ Hloop _ Hin)
      as (pre & dst & post & D1 & F1 & w3 & w4 & -> & Hpre & Hstep).
    exists pre, dst, post, D1, F1, w3, w4.
    split; [done|]. split; [done|].
    destruct (delete_one_cases _ _ _ _ _ _ _ Hstep)
      as [[? _]|(_ & Hv & Hun & _ & _ & Hfiles)]; [done|].
    simpl in *. split; [done|]. split; [done|]. split; [done|].
    assert (delete_loop exclude_names use_hash [(p, dst)] [] [] w3
            = (Ok ([p], []), w4)) as Hsingle.
    { by apply (delete_loop_cons _ _ (p, dst) [] w3 [p] [] w4 [] [] w4). }
    pose proof (delete_loop_app _ _ _ _ _ _ _ _ _ _ _ Hpre Hsingle) as Happ.
    by rewrite app_nil_r in Happ.
  - intros pre r post D1 F1 w3 d f w4 _ _ Hstep.
    destruct (delete_one_cases _ _ _ _ _ _ _ Hstep)
      as [?|(_ & Hv & Hun & -> & -> & Hfiles)]; [by left|by right].
  - intros k data r Hk Hnin.
    apply delete_loop_files in Hloop as [Hfiles _].
    assert (files w1 !! k = Some (File data r)) as Hk1.
    { rewrite Hfiles, without_lookup. by rewrite decide_False. }
    destruct remove_empty; [|by subst].
    by eapply prune_trace_keeps_files.
  - apply delete_loop_files in Hloop as [Hfiles _].
    apply map_subseteq_spec. intros k n Hk.
    assert (files w1 !! k = Some n) as Hk1.
    { destruct remove_empty; [|by subst].
      destruct (prune_trace_lookup _ _ _ Hprune k) as [Heq|[_ Hnone]];
        congruence. }
    rewrite Hfiles in Hk1.
    by eapply lookup_weaken; [|apply without_subseteq].
Qed.

Lemma deleted_only_after_passing_verification_witness :
  (forall p, p ∈ [rec_b.1; rec_a.1] ->
     exists pre dst post deleted1 failed1 w1 w2,
       [rec_b; rec_c; rec_a] = pre ++ (p, dst) :: post /\
       delete_loop demo_exclude true pre [] [] demo_world
         = (Ok (deleted1, failed1), w1) /\
       verify_pair p dst true w1 = (Ok true, w1) /\
       Path_unlink p w1 = (Ok tt, w2) /\
       files w2 = delete p (files w1) /\
       delete_loop demo_exclude true (pre ++ [(p, dst)]) [] [] demo_world
         = (Ok (deleted1 ++ [p], failed1), w2)) /\
  (forall pre r post deleted1 failed1 w1 d f w2,
     [rec_b; rec_c; rec_a] = pre ++ r :: post ->
     delete_loop demo_exclude true pre [] [] demo_world
       = (Ok (deleted1, failed1), w1) ->
     delete_one demo_exclude true r [] [] w1 = (Ok (d, f), w2) ->
     (d = [] /\ w2 = w1) \/
     (verify_pair r.1 r.2 true w1 = (Ok true, w1) /\
      Path_unlink r.1 w1 = (Ok tt, w2) /\
      d = [r.1] /\ f = [] /\ files w2 = delete r.1 (files w1))) /\
  (forall k data r, files demo_world !! k = Some (File data r) ->
     k ∉ [rec_b.1; rec_a.1] ->
     files (delete_backed_files [rec_b; rec_c; rec_a] demo_exclude true true
                                demo_world).2 !! k = Some (File data r)) /\
  files (delete_backed_files [rec_b; rec_c; rec_a] demo_exclude true true
                             demo_world).2 ⊆ files demo_world.
Proof.
  apply (deleted_only_after_passing_verification
           [rec_b; rec_c; rec_a] demo_exclude true true demo_world
           (delete_backed_files [rec_b; rec_c; rec_a] demo_exclude true true
                                demo_world).2
           [rec_b.1; rec_a.1]
           [(rec_c.1, "delete_error:[Errno 13] Permission denied: '/s/ro/c.txt'")]).
  vm_compute. reflexivity.
Defined.

(** ** The allocated directory *)

Lemma os_mkdir_adds_dirs fs0 p fs fs' :
  adds_dirs fs0 fs -> os_mkdir fs p = inr fs' -> adds_dirs fs0 fs'.
Proof.
  intros [Hwf Hk] H.
  apply os_mkdir_wf in H as (-> & Hnone & Hwf' & _); [|done].
  split; [done|]. intros k. destruct (decide (k = p)) as [->|Hne].
  - right. rewrite lookup_insert_eq. split; [|done].
    destruct (Hk p) as [Heq|[? ?]]; congruence.
  - rewrite lookup_insert_ne by done. apply Hk.
Qed.

Lemma preserves_adds_dirs_mkdir_and_return fs0 p :
  preserves (adds_dirs fs0) (mkdir_and_return p).
Proof.
  apply preserves_bind; [|intros; apply preserves_ret].
  apply preserves_Path_mkdir. intros q fs fs' _. apply os_mkdir_adds_dirs.
Qed.

Lemma preserves_adds_dirs_probe_loop fs0 base_dir base_name : forall fuel i,
  preserves (adds_dirs fs0) (probe_loop fuel base_dir base_name i).
Proof.
  induction fuel as [|fuel IH]; intros i; simpl; [apply preserves_diverge|].
  apply preserves_try_except; [apply preserves_adds_dirs_mkdir_and_return|].
  intros e. destruct (is_FileExistsError e); [apply IH|apply preserves_raise].
Qed.

Lemma preserves_adds_dirs_allocate fs0 fuel now base_dir base_name :
  preserves (adds_dirs fs0) (allocate_backup_dir fuel now base_dir base_name).
Proof.
  apply preserves_try_except; [apply preserves_adds_dirs_mkdir_and_return|].
  intros e. destruct (is_FileExistsError e);
    [apply preserves_adds_dirs_probe_loop|apply preserves_raise].
Qed.

Lemma probe_loop_ok_grows base_dir base_name : forall fuel i w d w',
  fs_wf (files w) ->
  probe_loop fuel base_dir base_name i w = (Ok d, w') ->
  mkdir_grows d w w'.
Proof.
  induction fuel as [|fuel IH]; intros i w d w' Hwf; [done|].
  rewrite probe_loop_step.
  destruct (mkdir_and_return_spec (numbered_dir base_dir base_name i) w Hwf)
    as [(w1 & -> & _ & _ & Hg)|(e & w1 & -> & _ & Hsame & _)].
  - by intros ?; simplify_eq.
  - destruct (is_FileExistsError e); [|done].
    rewrite (Hsame eq_refl). by apply IH.
Qed.

Lemma allocate_backup_dir_ok_grows fuel now base_dir base_name w d w' :
  fs_wf (files w) ->
  allocate_backup_dir fuel now base_dir base_name w = (Ok d, w') ->
  mkdir_grows d w w'.
Proof.
  intros Hwf. unfold allocate_backup_dir, try_except.
  change (create_unique_backup_dir now base_dir base_name w)
    with (mkdir_and_return (stamped_dir now base_dir base_name) w).
  destruct (mkdir_and_return_spec (stamped_dir now base_dir base_name) w Hwf)
    as [(w1 & -> & _ & _ & Hg)|(e & w1 & -> & _ & Hsame & _)].
  - by intros ?; simplify_eq.
  - destruct (is_FileExistsError e); [|done].
    rewrite (Hsame eq_refl). by apply probe_loop_ok_grows.
Qed.

(** X7. In a well-formed file system, a successful allocation returns a
    path that had no entry; afterwards it is a directory with no entry
    under it.  Nothing that existed is changed: the only new entries are
    that directory and, where they were missing, directories above it. *)
Theorem allocation_result (fuel : nat) (now : datetime) (base_dir : path)
    (base_name : string) (w w' : world) (d : path) :
  fs_wf (files w) ->
  allocate_backup_dir fuel now base_dir base_name w = (Ok d, w') ->
  stdout w' = stdout w /\
  fs_wf (files w') /\
  files w !! d = None /\
  files w' !! d = Some (Dir true true true) /\
  (forall k, d `prefix_of` k -> k <> d -> files w' !! k = None) /\
  (forall k, files w' !! k = files w !! k \/
             (k `prefix_of` d /\ files w !! k = None /\
              files w' !! k = Some (Dir true true true))).
Proof.
  intros Hwf Hrun.
  destruct (allocate_backup_dir_ok_fresh _ _ _ _ _ _ _ Hwf Hrun) as [Hnone Hne].
  destruct (allocate_backup_dir_ok _ _ _ _ _ _ _ Hwf Hrun)
    as (_ & [nd Hex] & _).
  apply os_stat_inr_lookup in Hex.
  destruct (allocate_backup_dir_ok_grows _ _ _ _ _ _ _ Hwf Hrun)
    as (Hout & Hwf' & Hsub & Hnew).
  assert (adds_dirs (files w) (files w')) as [_ Hadds].
  { eapply (preserves_adds_dirs_allocate (files w)); [|exact Hrun].
    split; [done|]. by left. }
  assert (forall k, files w' !! k = files w !! k \/
             (k `prefix_of` d /\ files w !! k = None /\
              files w' !! k = Some (Dir true true true))) as Hcases.
  { intros k. destruct (Hadds k) as [?|[Hk0 Hk1]]; [by left|right].
    split; [|done]. apply Hnew; [done|]. by rewrite Hk1. }
  split; [done|]. split; [done|]. split; [done|]. split; [|split; [|done]].
  - destruct (Hcases d) as [Heq|(_ & _ & ?)]; [|done]. congruence.
  - intros k Hpre Hkd.
    destruct (Hcases k) as [Heq|(Hkpre & _)].
    + rewrite Heq. by apply (under_absent (files w) d).
    + destruct Hkd. apply (anti_symm prefix); done.
Qed.

Lemma allocation_result_witness :
  stdout (allocate_backup_dir 2 alloc_now ["/"; "s"] "backup"
                              (World alloc_fs [])).2 = [] /\
  fs_wf (files (allocate_backup_dir 2 alloc_now ["/"; "s"] "backup"
                                    (World alloc_fs [])).2) /\
  alloc_fs !! (["/"; "s"; "backup_2"] : path) = None /\
  files (allocate_backup_dir 2 alloc_now ["/"; "s"] "backup"
                             (World alloc_fs [])).2
    !! (["/"; "s"; "backup_2"] : path) = Some (Dir true true true) /\
  (forall k, ["/"; "s"; "backup_2"] `prefix_of` k -> k <> ["/"; "s"; "backup_2"] ->
     files (allocate_backup_dir 2 alloc_now ["/"; "s"] "backup"
                                (World alloc_fs [])).2 !! k = None) /\
  (forall k,
     files (allocate_backup_dir 2 alloc_now ["/"; "s"] "backup"
                                (World alloc_fs [])).2 !! k = alloc_fs !! k \/
     (k `prefix_of` ["/"; "s"; "backup_2"] /\ alloc_fs !! k = None /\
      files (allocate_backup_dir 2 alloc_now ["/"; "s"] "backup"
                                 (World alloc_fs [])).2 !! k
      = Some (Dir true true true))).
Proof.
  apply (allocation_result 2 alloc_now ["/"; "s"] "backup" (World alloc_fs [])
           (allocate_backup_dir 2 alloc_now ["/"; "s"] "backup"
                                (World alloc_fs [])).2
           ["/"; "s"; "backup_2"]).
  - apply fs_wf_check_sound. vm_compute. reflexivity.
  - vm_compute. reflexivity.
Defined.

(** ** When [main] deletes *)

Lemma print_failures_run l : forall w,
  print_failures l w
  = (Ok tt, MkWorld (files w)
                    (stdout w ++
                     map (fun f : failure =>
                            " - " +:+ path_str f.1 +:+ " reason: " +:+ f.2) l)
                    (dir_size w)).
Proof.
  induction l as [|f l IH]; intros w; simpl.
  { unfold ret. by rewrite app_nil_r, world_eta. }
  unfold bind, print. simpl. rewrite IH. simpl. by rewrite <- app_assoc.
Qed.

(** The report printed after the deletion pass. *)
Lemma deletion_report_run (df : list path * list failure) (w : world) :
  exists out,
    (print ("Deleted " +:+ nat_str (length df.1) +:+ " files.") ;;;
     (match df.2 with
      | _ :: _ =>
          print ("Failed to delete " +:+ nat_str (length df.2) +:+
                 " files. Details (first 10 shown):") ;;;
          print_failures (take 10 df.2)
      | [] =>
          print "All backed files deleted successfully (subject to verification)."
      end) ;;;
     print "Done.") w
    = (Ok tt, MkWorld (files w) (stdout w ++ out) (dir_size w)).
Proof.
  destruct df as [D F]. cbv [fst snd].
  unfold bind at 1. unfold print at 1. cbv beta iota.
  unfold bind at 1.
  destruct F as [|f F].
  - unfold print. cbv beta iota. cbv [files stdout dir_size].
    eexists. by rewrite <- !app_assoc.
  - unfold bind at 1. unfold print at 1. cbv beta iota.
    rewrite print_failures_run. unfold print. cbv beta iota. cbv [files stdout dir_size].
    eexists. by rewrite <- !app_assoc.
Qed.

(** X8. [main] changes the file system after the backup phase only in the
    deletion pass, and it enters that pass exactly when deletion was asked
    for, at least one file was copied, and either [--force] was given or
    the answer is [y] once its white space (that of Unicode, as [str.strip]
    has it) is removed at both ends and it is put in lower case.  Otherwise
    the file
    system stays as the backup phase left it and the line announcing the
    deletion is not printed; in that pass the file system becomes the one
    that [delete_backed_files] leaves for the copy records, the exclusion
    set and the two options of the run. *)
Theorem main_deletes_only_when_confirmed
    (a : args) (e : env) (probe_fuel walk_fuel : nat) (w : world) :
  exists rb w1 r w2,
    main_backup a e probe_fuel walk_fuel w = (rb, w1) /\
    main a e probe_fuel walk_fuel w = (r, w2) /\
    (forall ex copied, rb = Ok (ex, copied) ->
       (confirmed a e copied = false ->
        files w2 = files w1 /\
        exists out, stdout w2 = stdout w1 ++ out /\ deleting_line ∉ out) /\
       (confirmed a e copied = true ->
        r = Ok tt /\
        exists deleted failed w3,
          delete_backed_files copied ex (hash a) (remove_empty_dirs a)
            (MkWorld (files w1)
                     (stdout w1 ++ (if force a then [] else [confirm_prompt])
                                ++ [deleting_line])
                     (dir_size w1))
          = (Ok (deleted, failed), w3) /\
          files w2 = files w3)) /\
    ((forall ex copied, rb <> Ok (ex, copied)) -> w2 = w1).
Proof.
  destruct (main_backup a e probe_fuel walk_fuel w) as [rb w1] eqn:Hmb.
  unfold main, bind. rewrite Hmb.
  destruct rb as [[ex copied]|e'|].
  2,3: eexists _, w1, _, w1; split; [done|]; split; [done|];
       split; [intros; done|done].
  simpl.
  destruct (main_delete a e ex copied w1) as [r w2] eqn:Hmd.
  exists (Ok (ex, copied)), w1, r, w2. split; [done|]. split; [done|].
  split; [|intros H; by destruct (H ex copied)].
  intros ex0 copied0 Heq. injection Heq as <- <-.
  unfold confirmed. unfold main_delete in Hmd.
  destruct copied as [|c copied]; simpl in Hmd.
  { rewrite andb_false_r. simpl. split; [|done]. intros _.
    unfold print in Hmd. simplify_eq. simpl. split; [done|].
    exists ["No files copied. Exiting."]. split; [done|].
    intros Hin. apply list_elem_of_singleton in Hin. discriminate. }
  simpl. rewrite andb_true_r.
  destruct (delete_originals a); simpl in *.
  2: { split; [|done]. intros _. unfold bind, print in Hmd. simpl in Hmd.
       simplify_eq. simpl. split; [done|].
       eexists. split; [by rewrite <- app_assoc|].
       intros Hin. apply elem_of_cons in Hin as [Hin|Hin]; [discriminate|].
       apply list_elem_of_singleton in Hin. discriminate. }
  assert (forall w0 r' w4,
    (print deleting_line ;;;
     df <- delete_backed_files (c :: copied) ex (hash a) (remove_empty_dirs a) ;;
     print ("Deleted " +:+ nat_str (length df.1) +:+ " files.") ;;;
     (match df.2 with
      | _ :: _ =>
          print ("Failed to delete " +:+ nat_str (length df.2) +:+
                 " files. Details (first 10 shown):") ;;;
          print_failures (take 10 df.2)
      | [] =>
          print "All backed files deleted successfully (subject to verification)."
      end) ;;;
     print "Done.") w0 = (r', w4) ->
    r' = Ok tt /\
    exists deleted failed w3,
      delete_backed_files (c :: copied) ex (hash a) (remove_empty_dirs a)
        (MkWorld (files w0) (stdout w0 ++ [deleting_line]) (dir_size w0))
      = (Ok (deleted, failed), w3) /\
      files w4 = files w3) as Hpass.
  { intros w0 r' w4 Hrun.
    destruct (delete_backed_files_run (c :: copied) ex (hash a)
                (remove_empty_dirs a)
                (MkWorld (files w0) (stdout w0 ++ [deleting_line]) (dir_size w0)))
      as (D & F & wa & w3 & _ & Hdel & _).
    unfold deleting_line in *.
    unfold bind at 1 in Hrun. unfold print at 1 in Hrun. cbv beta iota in Hrun.
    unfold bind at 1 in Hrun. rewrite Hdel in Hrun. cbv beta iota in Hrun.
    destruct (deletion_report_run (D, F) w3) as [out Hrep].
    rewrite Hrep in Hrun. simplify_eq.
    split; [done|]. by exists D, F, w3. }
  destruct (force a); simpl in *.
  - split; [done|]. intros _. unfold bind at 1 in Hmd.
    unfold ret at 1 in Hmd. simpl in Hmd.
    exact (Hpass _ _ _ Hmd).
  - unfold bind at 1 in Hmd. unfold input in Hmd. unfold bind at 1 in Hmd.
    unfold bind at 1 in Hmd. unfold print at 1 in Hmd. simpl in Hmd.
    destruct (stdin_line e) as [resp|]; simpl in Hmd.
    + destruct (bool_decide (lower (strip resp) = ustr_of_string "y"));
        simpl in Hmd.
      * split; [done|]. intros _.
        destruct (Hpass _ _ _ Hmd) as (-> & D & F & w3 & Hrun & Hfiles).
        split; [done|]. exists D, F, w3. split; [|done].
        simpl in Hrun. by rewrite <- app_assoc in Hrun.
      * split; [|done]. intros _. unfold print in Hmd. simplify_eq. simpl.
        split; [done|].
        eexists. split; [by rewrite <- app_assoc|].
        intros Hin. apply elem_of_cons in Hin as [Hin|Hin]; [discriminate|].
        apply list_elem_of_singleton in Hin. discriminate.
    + split; [|done]. intros _. unfold raise in Hmd. simplify_eq. simpl.
      split; [done|].
      exists [confirm_prompt]. split; [done|].
      intros Hin. apply list_elem_of_singleton in Hin. discriminate.
Qed.

Lemma main_backup_with_stdin a e line probe_fuel walk_fuel :
  main_backup a (with_stdin e line) probe_fuel walk_fuel
  = main_backup a e probe_fuel walk_fuel.
Proof. reflexivity. Qed.

(** X9. With [--force], or without [--delete], [main] does not read the
    standard input: the whole run is the same whatever line is there, or
    if there is none. *)
Theorem main_reads_no_answer_unless_needed
    (a : args) (e : env) (line : option ustr)
    (probe_fuel walk_fuel : nat) (w : world) :
  force a = true \/ delete_originals a = false ->
  main a (with_stdin e line) probe_fuel walk_fuel w
  = main a e probe_fuel walk_fuel w.
Proof.
  intros Hcase. unfold main, bind. rewrite main_backup_with_stdin.
  destruct (main_backup a e probe_fuel walk_fuel w) as [[[ex copied]|e'|] w1];
    [|done..].
  simpl. unfold main_delete.
  destruct (length copied =? 0)%nat; [done|].
  destruct (delete_originals a); [|done].
  destruct Hcase as [->|?]; [|done]. done.
Qed.

Lemma main_reads_no_answer_unless_needed_witness :
  main (Args true "backup" true false true true)
       (with_stdin (demo_env "n") None) 5 10 (World scenario_fs [])
  = main (Args true "backup" true false true true) (demo_env "n") 5 10
         (World scenario_fs []).
Proof.
  apply (main_reads_no_answer_unless_needed
           (Args true "backup" true false true true) (demo_env "n") None 5 10
           (World scenario_fs [])).
  left. reflexivity.
Defined.

(** ** [copy_files_only] and [copy_files_non_recursive] *)

Lemma count_items_copy_items dst_dir ex : forall items acc w,
  count_items items dst_dir ex (length acc) w =
  match copy_items items dst_dir ex acc w with
  | (Ok records, w') => (Ok (length records), w')
  | (Raise e, w') => (Raise e, w')
  | (Diverge, w') => (Diverge, w')
  end.
Proof.
  induction items as [|item items IH]; intros acc w; simpl; [done|].
  destruct (bool_decide (name item ∈ ex)); [apply IH|].
  unfold bind at 1 3.
  destruct (Path_is_file item w) as [[[]| |] w1]; try done; try apply IH.
  unfold bind.
  destruct (shutil_copy2 item (joinpath dst_dir (name item)) w1)
    as [[d| |] w2]; try done.
  rewrite <- IH. by rewrite length_app.
Qed.

(** X10. The two scripts copy the same way without [--recursive]:
    [copy_files_only] of [make_backup.py] leaves the file system that
    [copy_files_non_recursive] of [final_backup.py] leaves, raises where it
    raises, and returns the number of its records. *)
Theorem copy_files_only_counts_the_records
    (src_dir dst_dir : path) (exclude_names : gset string) (w : world) :
  copy_files_only src_dir dst_dir exclude_names w =
  match copy_files_non_recursive src_dir dst_dir exclude_names w with
  | (Ok records, w') => (Ok (length records), w')
  | (Raise e, w') => (Raise e, w')
  | (Diverge, w') => (Diverge, w')
  end.
Proof.
  unfold copy_files_only, copy_files_non_recursive. unfold bind at 1 2.
  destruct (Path_iterdir src_dir w) as [[items| |] w1]; try done.
  apply (count_items_copy_items dst_dir exclude_names items [] w1).
Qed.

Example copy_files_only_run :
  (copy_files_only ["/"; "s"] ["/"; "s"; "bk"] demo_exclude
                   (World walk_fs [])).1 = Ok 1%nat.
Proof. vm_compute. reflexivity. Qed.

(** ** The backup mirrors the source *)

Lemma preserves_bind_post {A B : Type} (I : fsmap -> Prop) (P : A -> Prop)
    (m : M A) (k : A -> M B) :
  preserves I m ->
  (forall w a w', I (files w) -> m w = (Ok a, w') -> P a) ->
  (forall a, P a -> preserves I (k a)) ->
  preserves I (bind m k).
Proof.
  intros Hm HP Hk w r w' HI. unfold bind.
  destruct (m w) as [[a|e|] w1] eqn:Hrun.
  - intros Hrest. eapply (Hk a); [by eapply HP| |exact Hrest].
    by eapply Hm.
  - intros ?; simplify_eq. by eapply Hm.
  - intros ?; simplify_eq. by eapply Hm.
Qed.

Lemma preserves_and {A : Type} (I J : fsmap -> Prop) (m : M A) :
  preserves I m -> preserves J m -> preserves (fun fs => I fs /\ J fs) m.
Proof.
  intros HI HJ w r w' [Hi Hj] Hrun. split; [by eapply HI|by eapply HJ].
Qed.

Lemma child_name_spec (d k : path) (s : string) :
  child_name d k = Some s <-> k = d ++ [s].
Proof.
  unfold child_name. split.
  - destruct (decide (take (length d) k = d)) as [Ht|]; [|done].
    destruct (drop (length d) k) as [|x [|y l]] eqn:Hd; try done.
    intros ?; simplify_eq. by rewrite <- (take_drop (length d) k), Ht, Hd.
  - intros ->. rewrite take_app_length, drop_app_length.
    by rewrite decide_True.
Qed.

Lemma entries_spec (fs : fsmap) (d : path) (s : string) (n : node) :
  (s, n) ∈ entries fs d <-> fs !! (d ++ [s]) = Some n.
Proof.
  unfold entries. rewrite list_elem_of_omap. split.
  - intros ([k n'] & Hin & Hf). apply elem_of_map_to_list in Hin.
    simpl in Hf. destruct (child_name d k) as [s'|] eqn:Hc; [|done].
    simplify_eq. apply child_name_spec in Hc. by subst.
  - intros Hk. exists (d ++ [s], n). split; [by apply elem_of_map_to_list|].
    simpl. by rewrite (proj2 (child_name_spec d (d ++ [s]) s) eq_refl).
Qed.

Lemma os_stat_outside d fs0 fs p n :
  only_under d fs0 fs -> ~ d `prefix_of` p ->
  os_stat fs p = inr n <-> os_stat fs0 p = inr n.
Proof.
  intros (_ & _ & Hout) Hp.
  assert (forall i, fs !! take i p = fs0 !! take i p) as Htake.
  { intros i. apply Hout. intros Hpre. apply Hp.
    etrans; [exact Hpre|]. apply prefix_take. }
  rewrite !os_stat_inr, (Hout p Hp).
  split; intros [H1 H2]; (split; [done|]); intros i Hi;
    [rewrite <- Htake|rewrite Htake]; by apply H2.
Qed.

Lemma app_ne_self {A : Type} (l q : list A) : q <> [] -> l ++ q <> l.
Proof.
  intros Hq Heq. apply Hq. apply (app_inv_head l). by rewrite app_nil_r.
Qed.

Lemma prefix_head {A : Type} (q rel : list A) :
  q <> [] -> q `prefix_of` rel -> head q = head rel.
Proof. intros Hq [l ->]. by destruct q. Qed.

Lemma os_write_present fs p data fs' k :
  os_write fs p data = inr fs' -> is_Some (fs !! k) -> is_Some (fs' !! k).
Proof.
  unfold os_write. intros Hw Hk.
  assert (forall n, is_Some (<[p := n]> fs !! k)) as Hins.
  { intros n. destruct (decide (p = k)) as [->|];
      [rewrite lookup_insert_eq; eauto|by rewrite lookup_insert_ne]. }
  destruct (os_stat fs p) as [[]|[]]; try done;
    try destruct (check_parent_writable fs p); by simplify_eq.
Qed.

Lemma os_copymode_present fs src p fs' k :
  os_copymode fs src p = inr fs' -> is_Some (fs !! k) -> is_Some (fs' !! k).
Proof.
  unfold os_copymode. intros Hw Hk.
  assert (forall n, is_Some (<[p := n]> fs !! k)) as Hins.
  { intros n. destruct (decide (p = k)) as [->|];
      [rewrite lookup_insert_eq; eauto|by rewrite lookup_insert_ne]. }
  destruct (os_stat fs src) as [|[]]; [done|..];
    destruct (os_stat fs p) as [|[]]; by simplify_eq.
Qed.

Lemma os_mkdir_present fs p fs' k :
  os_mkdir fs p = inr fs' -> is_Some (fs !! k) -> is_Some (fs' !! k).
Proof.
  intros Hm Hk. apply os_mkdir_inr in Hm as (-> & _).
  destruct (decide (p = k)) as [->|];
    [rewrite lookup_insert_eq; eauto|by rewrite lookup_insert_ne].
Qed.

Lemma preserves_present_copy2 K src dst :
  preserves (present_all K) (shutil_copy2 src dst).
Proof.
  unfold shutil_copy2, copyfile, copystat, os_path_isdir, samefile.
  preserves_auto; apply preserves_sys_set; intros fs fs' HK Hrun k Hk;
    [by eapply os_write_present; [|apply HK]
    |by eapply os_copymode_present; [|apply HK]..].
Qed.

Lemma preserves_present_mkdir K p parents eo :
  preserves (present_all K) (Path_mkdir p parents eo).
Proof.
  apply preserves_Path_mkdir. intros q fs fs' _ HK Hrun k Hk.
  eapply os_mkdir_present; [done|by apply HK].
Qed.

(** A successful [shutil.copy2] has read its source and leaves an entry at
    the destination that it was given. *)
(** A write goes through directories that can be searched. *)
Lemma os_write_prefixes fs p data fs' :
  os_write fs p data = inr fs' ->
  forall i, (1 <= i < length p)%nat ->
    exists wr rd, fs !! take i p = Some (Dir true wr rd).
Proof.
  unfold os_write.
  destruct (os_stat fs p) as [e|[old r|s wr rd]] eqn:Hst; [| |done].
  - destruct e; try done.
    destruct (check_parent_writable fs p) eqn:Hpar; [done|].
    apply check_parent_writable_None in Hpar as [rd Hpar].
    intros _ i Hi. rewrite parent_take in Hpar by lia.
    apply os_stat_inr in Hpar as [Hlast Hpre].
    destruct (decide (i = length p - 1)%nat) as [->|Hne]; [eauto|].
    destruct (Hpre i) as (wr' & rd' & Hk).
    { rewrite length_take. lia. }
    rewrite take_take in Hk. replace (i `min` (length p - 1))%nat with i in Hk by lia.
    eauto.
  - intros _. by apply os_stat_inr in Hst as [_ Hpre].
Qed.

Lemma shutil_copy2_ok src dst w d' w' :
  shutil_copy2 src dst w = (Ok d', w') ->
  (exists data, os_read (files w) src = inr data) /\
  is_Some (files w' !! dst) /\
  (forall i, (1 <= i < length dst)%nat ->
     exists wr rd, files w !! take i dst = Some (Dir true wr rd)).
Proof.
  unfold shutil_copy2, copyfile, copystat, os_path_isdir, samefile.
  unfold bind, sys_get, sys_set, ret, raise.
  set (isd := match os_stat (files w) dst with
              | inr (Dir _ _ _) => true | _ => false end).
  set (dst' := if isd then joinpath dst (name src) else dst).
  destruct (match os_stat (files w) src with
            | inr _ => bool_decide (src = dst') | inl _ => false end);
    [done|].
  destruct (os_read (files w) src) as [|data] eqn:Hread; [done|].
  destruct (os_write (files w) dst' data) as [|fs1] eqn:Hwrite; [done|].
  simpl.
  destruct (os_copymode fs1 src dst') as [|fs2] eqn:Hmode; [done|].
  simpl. intros ?; simplify_eq. split; [by eexists|].
  simpl. try subst dst'; try subst isd. split.
  - eapply os_copymode_present; [done|].
    destruct (os_stat (files w) dst) as [e|[old r|s wr rd]] eqn:Hst.
    + unfold os_write in Hwrite. rewrite Hst in Hwrite.
      destruct e; try done.
      destruct (check_parent_writable (files w) dst); [done|].
      simplify_eq. rewrite lookup_insert_eq. eauto.
    + unfold os_write in Hwrite. rewrite Hst in Hwrite.
      simplify_eq. rewrite lookup_insert_eq. eauto.
    + eapply os_write_present; [done|].
      apply os_stat_inr_lookup in Hst. eauto.
  - destruct (os_stat (files w) dst) as [e|[old r|s wr rd]] eqn:Hst.
    + by eapply os_write_prefixes.
    + by eapply os_write_prefixes.
    + by apply os_stat_inr in Hst as [_ Hpre].
Qed.

Section mirror.
Context (src_dir : path) (b : string) (ex : gset string) (fs0 : fsmap).
Local Abbreviation dst_dir := (joinpath src_dir b).
Hypothesis Hb : b ∈ ex.
Hypothesis Hbne : b <> EmptyString.

Lemma outside_head q : head q <> Some b -> ~ dst_dir `prefix_of` src_dir ++ q.
Proof.
  unfold joinpath. intros Hh Hpre.
  apply prefix_app_inv in Hpre. destruct Hpre as [l ->]. by simpl in Hh.
Qed.

Lemma rel_head rel : rel_excluded rel ex = false -> head rel <> Some b.
Proof.
  intros Hex Hh. destruct rel as [|x rel]; simplify_eq/=.
  assert (rel_excluded (b :: rel) ex = true) as Ht; [|congruence].
  apply rel_excluded_spec. exists b. split; [left|done].
Qed.

Lemma rel_file_head rel fname :
  rel_excluded rel ex = false -> fname ∉ ex -> head (rel ++ [fname]) <> Some b.
Proof.
  intros Hex Hf. destruct rel as [|x rel].
  - simpl. intros ?; by simplify_eq.
  - apply (rel_head (x :: rel) Hex).
Qed.

Lemma mirrors_insert fs q n n0 :
  mirrors src_dir dst_dir fs0 fs -> q <> [] ->
  only_under dst_dir fs0 (<[dst_dir ++ q := n]> fs) ->
  fs0 !! (src_dir ++ q) = Some n0 -> mirror_node n0 n ->
  mirrors src_dir dst_dir fs0 (<[dst_dir ++ q := n]> fs).
Proof.
  intros (_ & Hd & Hm) Hq Hu H0 Hn. split; [done|]. split.
  - rewrite lookup_insert_ne; [done|]. by apply app_ne_self.
  - intros q' n' Hq'. destruct (decide (q' = q)) as [->|Hne].
    + rewrite lookup_insert_eq. intros ?; simplify_eq. eauto.
    + rewrite lookup_insert_ne; [by apply Hm|].
      intros Heq. apply app_inv_head in Heq. done.
Qed.

(** A path under the backup directory goes through the backup directory,
    which was there from the start. *)
Lemma mirrors_dst_searchable fs q :
  mirrors src_dir dst_dir fs0 fs -> q <> [] ->
  (forall i, (1 <= i < length (dst_dir ++ q))%nat ->
     exists wr rd, fs !! take i (dst_dir ++ q) = Some (Dir true wr rd)) ->
  exists wr rd, os_stat fs0 dst_dir = inr (Dir true wr rd).
Proof.
  intros ((_ & _ & Ho) & Hd & _) Hq Hpre.
  assert (1 <= length dst_dir)%nat as Hlen
    by (unfold joinpath; rewrite length_app; simpl; lia).
  destruct (Hpre (length dst_dir)) as (wr & rd & Hk).
  { rewrite length_app. destruct q; [done|]. simpl. lia. }
  rewrite take_app_length, Hd in Hk.
  exists wr, rd. apply os_stat_inr. split; [done|].
  intros i Hi. destruct (Hpre i) as (wr' & rd' & Hk').
  { rewrite length_app. lia. }
  rewrite take_app_le in Hk' by lia. exists wr', rd'. rewrite <- Hk'.
  symmetry. apply Ho. intros Hp%prefix_length. rewrite length_take in Hp. lia.
Qed.

(** The directories that [mkdir] makes for the relative path [rel] of a
    directory of the source. *)
Lemma os_mkdir_mirrors rel qq fs fs' :
  (forall q, q <> [] -> q `prefix_of` rel ->
     exists n0, fs0 !! (src_dir ++ q) = Some n0 /\ is_dir_node n0 = true) ->
  qq `prefix_of` dst_dir ++ rel ->
  mirrors src_dir dst_dir fs0 fs -> os_mkdir fs qq = inr fs' ->
  mirrors src_dir dst_dir fs0 fs'.
Proof.
  intros Hdirs Hqq Hinv Hmk. pose proof Hinv as (Hu & Hd & Hm).
  assert (only_under dst_dir fs0 fs') as Hu'.
  { eapply (os_mkdir_only_under dst_dir fs0 (dst_dir ++ rel)); try done.
    by apply prefix_app_r. }
  pose proof Hu as (Hwf & [nd Hpresent] & Hout).
  apply os_mkdir_wf in Hmk as (-> & Hnone & _); [|done].
  assert (exists q, qq = dst_dir ++ q /\ q <> [] /\ q `prefix_of` rel)
    as (q & -> & Hq & Hpre).
  { destruct (decide (dst_dir `prefix_of` qq)) as [[q ->]|Hno].
    - exists q. split; [done|]. split.
      + intros ->. rewrite app_nil_r in Hnone. congruence.
      + by apply prefix_app_inv in Hqq.
    - destruct Hu' as (_ & _ & Hout'). specialize (Hout' qq Hno).
      rewrite lookup_insert_eq, <- (Hout qq Hno), Hnone in Hout'. done. }
  destruct (Hdirs q Hq Hpre) as (n0 & H0 & Hn0).
  by apply (mirrors_insert fs q (Dir true true true) n0).
Qed.

Section file.
Context (q : path) (data : list byte).
Hypothesis Hq : q <> [].
Hypothesis Hout : ~ dst_dir `prefix_of` src_dir ++ q.
Hypothesis Hfile : exists r0, fs0 !! (src_dir ++ q) = Some (File data r0).

Lemma mirrors_dst_not_dir fs s wr rd :
  mirrors src_dir dst_dir fs0 fs -> fs !! (dst_dir ++ q) <> Some (Dir s wr rd).
Proof.
  intros (_ & _ & Hm) Hk. destruct Hfile as [r0 H0].
  destruct (Hm q _ Hq Hk) as (n0 & H0' & _ & _ & Hd).
  rewrite H0 in H0'. injection H0' as <-. done.
Qed.

Lemma mirrors_read fs data' :
  mirrors src_dir dst_dir fs0 fs -> os_read fs (src_dir ++ q) = inr data' ->
  data' = data /\ fs0 !! (src_dir ++ q) = Some (File data true).
Proof.
  intros ((_ & _ & Ho) & _) Hread. destruct Hfile as [r0 H0].
  unfold os_read in Hread.
  destruct (os_stat fs (src_dir ++ q)) as [|[d r|]] eqn:Hst; try done.
  destruct r; [|done]. injection Hread as ->.
  apply os_stat_inr_lookup in Hst. rewrite (Ho _ Hout), H0 in Hst.
  injection Hst as -> ->. by rewrite H0.
Qed.

Lemma os_write_mirrors fs fs' :
  mirrors src_dir dst_dir fs0 fs ->
  os_write fs (dst_dir ++ q) data = inr fs' ->
  mirrors src_dir dst_dir fs0 fs'.
Proof.
  intros Hinv Hw. pose proof Hinv as (Hu & Hd & Hm).
  destruct Hfile as [r0 H0].
  assert (only_under dst_dir fs0 fs') as Hu'.
  { eapply (os_write_only_under dst_dir fs0 (dst_dir ++ q)); try done.
    - by apply prefix_app_r.
    - by apply app_ne_self. }
  unfold os_write in Hw.
  destruct (os_stat fs (dst_dir ++ q)) as [e|[old r|s wr rd]] eqn:Hst; [| |done].
  - destruct e; try done.
    destruct (check_parent_writable fs (dst_dir ++ q)); [done|].
    simplify_eq. apply (mirrors_insert fs q _ (File data r0)); try done.
    split; [done|by eexists].
  - simplify_eq. apply os_stat_inr_lookup in Hst.
    destruct (Hm q _ Hq Hst) as (n0 & _ & -> & _).
    apply (mirrors_insert fs q _ (File data r0)); try done.
    split; [done|by eexists].
Qed.

Lemma os_copymode_mirrors fs fs' :
  fs0 !! (src_dir ++ q) = Some (File data true) ->
  mirrors src_dir dst_dir fs0 fs ->
  os_copymode fs (src_dir ++ q) (dst_dir ++ q) = inr fs' ->
  mirrors src_dir dst_dir fs0 fs'.
Proof.
  intros H0 Hinv Hc. pose proof Hinv as (Hu & Hd & Hm).
  assert (only_under dst_dir fs0 fs') as Hu'.
  { eapply (os_copymode_only_under dst_dir fs0 _ (dst_dir ++ q)); try done.
    - by apply prefix_app_r.
    - by apply app_ne_self. }
  pose proof Hu as (_ & _ & Ho).
  unfold os_copymode in Hc.
  destruct (os_stat fs (src_dir ++ q)) as [|[sd sr|]] eqn:Hs; [done| |];
    destruct (os_stat fs (dst_dir ++ q)) as [|[d r|]] eqn:Ht; try done;
    simplify_eq; try done.
  apply os_stat_inr_lookup in Hs, Ht.
  rewrite (Ho _ Hout), H0 in Hs. injection Hs as <- <-.
  destruct (Hm q _ Hq Ht) as (n0 & H0' & _ & r0 & Hn0).
  rewrite H0 in H0'. injection H0' as <-. injection Hn0 as <- <-.
  apply (mirrors_insert fs q _ (File data true)); try done.
  split; [done|by eexists].
Qed.

Lemma preserves_mirrors_copy2 :
  preserves (mirrors src_dir dst_dir fs0)
    (shutil_copy2 (src_dir ++ q) (dst_dir ++ q)).
Proof.
  unfold shutil_copy2.
  apply (preserves_bind_post _ (fun isd => isd = false));
    [apply preserves_sys_get| |].
  { intros w isd w' Hinv. unfold os_path_isdir, sys_get.
    destruct (os_stat (files w) (dst_dir ++ q)) as [|[|s wr rd]] eqn:Hst;
      intros ?; simplify_eq; try done.
    apply os_stat_inr_lookup in Hst. by apply mirrors_dst_not_dir in Hst. }
  intros isd ->.
  apply (preserves_bind_post _
           (fun _ => fs0 !! (src_dir ++ q) = Some (File data true))).
  - unfold copyfile. apply preserves_bind; [apply preserves_sys_get|].
    intros []; [apply preserves_raise|].
    apply (preserves_bind_post _ (fun data' => data' = data));
      [apply preserves_sys_get| |].
    + intros w data' w' Hinv. unfold sys_get.
      destruct (os_read (files w) (src_dir ++ q)) as [|d] eqn:Hread;
        intros ?; simplify_eq.
      by destruct (mirrors_read _ _ Hinv Hread).
    + intros data' Hd. rewrite Hd. apply preserves_sys_set. intros fs fs'.
      apply os_write_mirrors.
  - intros w [] w' Hinv. unfold copyfile, bind, samefile, sys_get, sys_set.
    destruct (match os_stat (files w) (src_dir ++ q) with
              | inr _ => bool_decide (src_dir ++ q = dst_dir ++ q)
              | inl _ => false end); [done|].
    destruct (os_read (files w) (src_dir ++ q)) as [|d] eqn:Hread; [done|].
    intros _. by destruct (mirrors_read _ _ Hinv Hread).
  - intros _ H0. apply preserves_bind; [|intros; apply preserves_ret].
    apply preserves_sys_set. intros fs fs'. by apply os_copymode_mirrors.
Qed.

End file.

Lemma os_stat_dir_prefix fs p n q :
  os_stat fs p = inr n -> is_dir_node n = true -> q <> [] -> q `prefix_of` p ->
  exists s wr rd, fs !! q = Some (Dir s wr rd).
Proof.
  intros Hst Hn Hq Hpre. apply os_stat_inr in Hst as [Hp Hall].
  pose proof (prefix_length _ _ Hpre) as Hlen.
  destruct (decide (length q = length p)) as [Heq|Hne].
  - destruct Hpre as [l ->]. rewrite length_app in Heq.
    destruct l; [|simpl in Heq; lia]. rewrite app_nil_r in Hp.
    destruct n; [done|]. eauto.
  - destruct (Hall (length q)) as (wr & rd & Hwr).
    { destruct q; [done|]. simpl in *. lia. }
    destruct Hpre as [l ->]. rewrite take_app_length in Hwr. eauto.
Qed.

Lemma mirrors_source_dirs fs rel n :
  mirrors src_dir dst_dir fs0 fs -> rel_excluded rel ex = false ->
  os_stat fs (src_dir ++ rel) = inr n -> is_dir_node n = true ->
  forall q, q <> [] -> q `prefix_of` rel ->
    exists n0, fs0 !! (src_dir ++ q) = Some n0 /\ is_dir_node n0 = true.
Proof.
  intros ((_ & _ & Ho) & _) Hex Hst Hn q Hq Hpre.
  destruct (os_stat_dir_prefix fs _ n (src_dir ++ q) Hst Hn) as (s & wr & rd & Hk).
  - by destruct src_dir, q.
  - by apply prefix_app.
  - exists (Dir s wr rd). split; [|done]. rewrite <- Hk. symmetry. apply Ho.
    apply outside_head. rewrite (prefix_head q rel Hq Hpre).
    by apply rel_head.
Qed.

Lemma copy_names_mirror rel :
  rel_excluded rel ex = false ->
  forall fnames acc w res w',
    (forall fname, fname ∈ fnames -> fname ∉ ex ->
       exists data r0,
         fs0 !! (src_dir ++ rel ++ [fname]) = Some (File data r0)) ->
    copy_names fnames (src_dir ++ rel) (dst_dir ++ rel) ex acc w = (Ok res, w') ->
    mirrors src_dir dst_dir fs0 (files w) ->
    present_all (map snd acc) (files w) ->
    Forall (good_record src_dir dst_dir fs0) acc ->
    mirrors src_dir dst_dir fs0 (files w') /\
    present_all (map snd res) (files w') /\
    Forall (good_record src_dir dst_dir fs0) res.
Proof.
  intros Hex. induction fnames as [|fname fnames IH];
    intros acc w res w' Hfiles; simpl.
  { unfold ret. intros ?; simplify_eq. auto. }
  destruct (bool_decide (fname ∈ ex)) eqn:Hin.
  { apply IH. intros f Hf. apply Hfiles. by right. }
  apply bool_decide_eq_false in Hin.
  destruct (Hfiles fname) as (data & r0 & H0); [by left|done|].
  assert (joinpath (src_dir ++ rel) fname = src_dir ++ rel ++ [fname]) as ->
    by (unfold joinpath; by rewrite <- app_assoc).
  assert (joinpath (dst_dir ++ rel) fname = dst_dir ++ rel ++ [fname]) as ->
    by (unfold joinpath; by rewrite <- !app_assoc).
  pose proof (outside_head (rel ++ [fname])
                (rel_file_head rel fname Hex Hin)) as Hout.
  assert (rel ++ [fname] <> []) as Hq by (by destruct rel).
  unfold bind at 1.
  destruct (shutil_copy2 (src_dir ++ rel ++ [fname])
              (dst_dir ++ rel ++ [fname]) w) as [[d'| |] w1] eqn:Hcopy;
    [|done..].
  intros Hrest Hinv HK Hgood.
  destruct (shutil_copy2_ok _ _ _ _ _ Hcopy) as ([data' Hread] & Hpres & Hthrough).
  assert (mirrors src_dir dst_dir fs0 (files w1)) as Hinv1.
  { eapply (preserves_mirrors_copy2 (rel ++ [fname]) data); eauto. }
  apply (IH _ _ _ _ (fun f Hf => Hfiles f (list_elem_of_further _ _ _ Hf)) Hrest);
    [done| |].
  - rewrite map_app. intros k Hk. apply elem_of_app in Hk as [Hk|Hk].
    + eapply (preserves_present_copy2 (map snd acc)); eauto.
    + apply list_elem_of_singleton in Hk. subst k. exact Hpres.
  - apply Forall_app. split; [done|]. apply Forall_singleton.
    exists (rel ++ [fname]), data'. simpl.
    split; [done|]. split; [done|]. split; [done|]. split; [done|].
    split; [|by apply (mirrors_dst_searchable (files w) (rel ++ [fname]))].
    apply (os_stat_outside dst_dir fs0 (files w)); [by destruct Hinv|done|].
    unfold os_read in Hread.
    destruct (os_stat (files w) (src_dir ++ rel ++ [fname])) as [|[dd [] |]];
      by simplify_eq.
Qed.

Lemma os_scandir_inr fs d l :
  os_scandir fs d = inr l ->
  (exists s wr, os_stat fs d = inr (Dir s wr true)) /\ l = entries fs d.
Proof.
  unfold os_scandir. destruct (os_stat fs d) as [|[|s wr []]]; try done.
  intros ?; simplify_eq. eauto.
Qed.

Lemma scan_split_files l fname :
  fname ∈ (scan_split l).2 ->
  exists n, (fname, n) ∈ l /\ is_dir_node n = false.
Proof.
  unfold scan_split. simpl. rewrite list_elem_of_In, in_map_iff.
  intros ([s n] & <- & Hin). apply filter_In in Hin as [Hin Hn].
  exists n. rewrite list_elem_of_In. split; [done|].
  by apply negb_true_iff in Hn.
Qed.

Lemma copy_visit_mirror rel l acc w res w' :
  os_scandir (files w) (src_dir ++ rel) = inr l ->
  copy_visit src_dir dst_dir ex (src_dir ++ rel) (scan_split l).2 acc w
    = (Ok res, w') ->
  mirrors src_dir dst_dir fs0 (files w) ->
  present_all (map snd acc) (files w) ->
  Forall (good_record src_dir dst_dir fs0) acc ->
  mirrors src_dir dst_dir fs0 (files w') /\
  present_all (map snd res) (files w') /\
  Forall (good_record src_dir dst_dir fs0) res.
Proof.
  intros Hscan. unfold copy_visit, relative_to.
  rewrite take_app_length, drop_app_length, decide_True by done.
  unfold bind at 1. unfold ret at 1.
  destruct (rel_excluded rel ex) eqn:Hex.
  { unfold ret. intros ?; simplify_eq. auto. }
  unfold bind at 1. unfold ret at 1. unfold joinpath_rel. unfold bind at 1.
  destruct (Path_mkdir (dst_dir ++ rel) true true w) as [[[]| |] w1] eqn:Hmk;
    [|done..].
  intros Hnames Hinv HK Hgood.
  apply os_scandir_inr in Hscan as [(s & wr & Hst) ->].
  pose proof (mirrors_source_dirs _ rel _ Hinv Hex Hst eq_refl) as Hdirs.
  assert (mirrors src_dir dst_dir fs0 (files w1)) as Hinv1.
  { eapply (preserves_Path_mkdir (mirrors src_dir dst_dir fs0)); [|done..].
    intros qq fs fs' Hqq. by apply (os_mkdir_mirrors rel). }
  apply (copy_names_mirror rel Hex _ _ _ _ _) in Hnames; try done.
  - intros fname Hf Hnex. apply scan_split_files in Hf as (n & Hin & Hn).
    apply entries_spec in Hin. destruct n as [data r0|]; [|done].
    exists data, r0. rewrite <- Hin. rewrite (app_assoc src_dir rel).
    symmetry. destruct Hinv as ((_ & _ & Ho) & _). apply Ho.
    rewrite <- app_assoc. apply outside_head. by apply rel_file_head.
  - eapply (preserves_present_mkdir (map snd acc)); eauto.
Qed.

Lemma walk_copy_mirror : forall fuel stack acc w res w',
  Forall (fun p => src_dir `prefix_of` p) stack ->
  walk_copy fuel stack src_dir dst_dir ex acc w = (Ok res, w') ->
  mirrors src_dir dst_dir fs0 (files w) ->
  present_all (map snd acc) (files w) ->
  Forall (good_record src_dir dst_dir fs0) acc ->
  mirrors src_dir dst_dir fs0 (files w') /\
  present_all (map snd res) (files w') /\
  Forall (good_record src_dir dst_dir fs0) res.
Proof.
  induction fuel as [|fuel IH]; intros [|top stack] acc w res w' Hstack; simpl;
    try (unfold ret; intros ?; simplify_eq; by auto); try done.
  apply Forall_cons in Hstack as [[rel ->] Hstack].
  unfold walk_scan, try_except, bind at 1 2, sys_get, ret.
  destruct (os_scandir (files w) (src_dir ++ rel)) as [|l] eqn:Hscan.
  { by apply IH. }
  destruct (scan_split l) as [dirs fnames] eqn:Hsplit. unfold bind at 1.
  destruct (copy_visit src_dir dst_dir ex (src_dir ++ rel) fnames acc w)
    as [[acc'| |] w1] eqn:Hvisit; [|done..].
  intros Hrest Hinv HK Hgood.
  replace fnames with (scan_split l).2 in Hvisit by by rewrite Hsplit.
  destruct (copy_visit_mirror rel l acc w acc' w1) as (Hinv1 & HK1 & Hgood1);
    try done.
  apply (IH _ _ _ _ _) in Hrest; try done.
  apply Forall_app. split; [|done].
  apply Forall_forall. intros p Hp. apply list_elem_of_fmap in Hp as (d & -> & _).
  unfold joinpath. rewrite <- app_assoc. by apply prefix_app_r.
Qed.


Lemma Path_is_file_true p w w' :
  Path_is_file p w = (Ok true, w') ->
  w' = w /\ exists data r, os_stat (files w) p = inr (File data r).
Proof.
  unfold Path_is_file, Path_stat. unfold_monad.
  destruct (os_stat (files w) p) as [e|[data r|]] eqn:Hst.
  - by destruct (ignore_error e).
  - intros ?; simplify_eq. eauto.
  - done.
Qed.

Lemma name_joinpath_in (base : path) (nm : string) :
  base <> [] -> name (joinpath base nm) = nm.
Proof.
  intros Hne. unfold joinpath, name.
  destruct (base ++ [nm]) as [|x [|y l]] eqn:Heq.
  - by destruct base.
  - by destruct base as [|? [|? ?]].
  - rewrite <- Heq. apply last_last.
Qed.

Lemma Path_is_file_file p w data r :
  os_stat (files w) p = inr (File data r) -> Path_is_file p w = (Ok true, w).
Proof.
  intros Hst. unfold Path_is_file, Path_stat. unfold_monad. by rewrite Hst.
Qed.

Lemma copy_items_mirror : forall names acc w res w',
  src_dir <> [] ->
  copy_items (map (joinpath src_dir) names) dst_dir ex acc w = (Ok res, w') ->
  mirrors src_dir dst_dir fs0 (files w) ->
  present_all (map snd acc) (files w) ->
  Forall (good_record src_dir dst_dir fs0) acc ->
  mirrors src_dir dst_dir fs0 (files w') /\
  present_all (map snd res) (files w') /\
  Forall (good_record src_dir dst_dir fs0) res /\
  (forall r, r ∈ acc -> r ∈ res) /\
  (forall n data r0, n ∈ names -> n ∉ ex ->
     os_stat fs0 (src_dir ++ [n]) = inr (File data r0) ->
     (src_dir ++ [n], dst_dir ++ [n]) ∈ res).
Proof.
  induction names as [|n names IH]; intros acc w res w' Hsrc; simpl.
  { unfold ret. intros ?; simplify_eq. intros. repeat (split; [done|]).
    intros n data r0 Hn. by apply elem_of_nil in Hn. }
  rewrite (name_joinpath_in src_dir n Hsrc).
  destruct (bool_decide (n ∈ ex)) eqn:Hin.
  { apply bool_decide_eq_true in Hin. intros Hrest Hinv HK Hgood.
    destruct (IH _ _ _ _ Hsrc Hrest Hinv HK Hgood)
      as (Hinv' & HK' & Hgood' & Hmono & Hall).
    repeat (split; [done|]). intros n' data r0 Hn' Hnex.
    apply elem_of_cons in Hn' as [->|Hn']; [done|by eapply Hall]. }
  apply bool_decide_eq_false in Hin.
  pose proof (outside_head [n] (rel_file_head [] n eq_refl Hin)) as Hout.
  change (joinpath src_dir n) with (src_dir ++ [n]) in *.
  change (joinpath dst_dir n) with (dst_dir ++ [n]).
  unfold bind at 1.
  destruct (Path_is_file (src_dir ++ [n]) w) as [[[]| |] w0] eqn:Hisf;
    [| |done..].
  2:{ intros Hrest Hinv HK Hgood.
      assert (mirrors src_dir dst_dir fs0 (files w0)) as Hinv0
        by (eapply (preserves_Path_is_file (mirrors src_dir dst_dir fs0)); eauto).
      assert (present_all (map snd acc) (files w0)) as HK0
        by (eapply (preserves_Path_is_file (present_all (map snd acc))); eauto).
      destruct (IH _ _ _ _ Hsrc Hrest Hinv0 HK0 Hgood)
        as (Hinv' & HK' & Hgood' & Hmono & Hall).
      repeat (split; [done|]). intros n' data r0 Hn' Hnex Hst.
      apply elem_of_cons in Hn' as [->|Hn']; [|by eapply Hall].
      apply (os_stat_outside dst_dir fs0 (files w)) in Hst;
        [|by destruct Hinv|done].
      rewrite (Path_is_file_file _ _ _ _ Hst) in Hisf. done. }
  apply Path_is_file_true in Hisf as [-> (data & r0 & Hst)].
  unfold bind at 1.
  destruct (shutil_copy2 (src_dir ++ [n]) (dst_dir ++ [n]) w)
    as [[d'| |] w1] eqn:Hcopy; [|done..].
  intros Hrest Hinv HK Hgood.
  destruct (shutil_copy2_ok _ _ _ _ _ Hcopy) as ([data' Hread] & Hpres & Hthrough).
  assert (mirrors src_dir dst_dir fs0 (files w1)) as Hinv1.
  { eapply (preserves_mirrors_copy2 [n] data); eauto.
    exists r0. apply os_stat_inr_lookup in Hst. rewrite <- Hst. symmetry.
    destruct Hinv as ((_ & _ & Ho) & _). by apply Ho. }
  destruct (IH _ _ _ _ Hsrc Hrest Hinv1)
    as (Hinv' & HK' & Hgood' & Hmono & Hall).
  - rewrite map_app. intros k Hk. apply elem_of_app in Hk as [Hk|Hk].
    + eapply (preserves_present_copy2 (map snd acc)); eauto.
    + apply list_elem_of_singleton in Hk. subst k. exact Hpres.
  - apply Forall_app. split; [done|]. apply Forall_singleton.
    exists [n], data'. simpl.
    split; [done|]. split; [done|]. split; [done|]. split; [done|].
    split; [|by apply (mirrors_dst_searchable (files w) [n])].
    apply (os_stat_outside dst_dir fs0 (files w)); [by destruct Hinv|done|].
    unfold os_read in Hread.
    destruct (os_stat (files w) (src_dir ++ [n])) as [|[dd [] |]];
      by simplify_eq.
  - repeat (split; [done|]). split.
    + intros r Hr. apply Hmono, elem_of_app. by left.
    + intros n' data0 r1 Hn' Hnex Hst'.
      apply elem_of_cons in Hn' as [->|Hn']; [|by eapply Hall].
      apply Hmono, elem_of_app. right. by apply list_elem_of_singleton.
Qed.

Lemma mirrors_start :
  fs_wf fs0 -> empty_dir fs0 dst_dir -> mirrors src_dir dst_dir fs0 fs0.
Proof.
  intros Hwf [(s & wr & rd & Hd) Hempty]. apply os_stat_inr_lookup in Hd.
  split; [|split; [done|]].
  - split; [done|]. split; [by eexists|done].
  - intros q n Hq Hk. by rewrite Hempty in Hk.
Qed.

(** What the invariants give for the records when the copy has ended. *)
Lemma mirrors_records fs res :
  mirrors src_dir dst_dir fs0 fs ->
  present_all (map snd res) fs ->
  Forall (good_record src_dir dst_dir fs0) res ->
  forall s d, (s, d) ∈ res ->
    exists q data,
      q <> [] /\ s = src_dir ++ q /\ d = dst_dir ++ q /\
      os_stat fs0 s = inr (File data true) /\
      os_stat fs s = inr (File data true) /\
      os_stat fs d = inr (File data true).
Proof.
  intros Hinv HK Hgood s d Hin.
  pose proof Hinv as (Hu & Hd & Hm). pose proof Hu as (Hwf & _ & Ho).
  rewrite Forall_forall in Hgood.
  destruct (Hgood _ Hin) as (q & data & Hq & Hs & Hdq & Hout & Hst & wr0 & rd0 & Hd0).
  simpl in *. subst s d. exists q, data.
  split; [done|]. split; [done|]. split; [done|]. split; [done|].
  split; [by apply (os_stat_outside dst_dir fs0 fs)|].
  destruct (HK (dst_dir ++ q)) as [n Hn].
  { apply list_elem_of_fmap. by exists (src_dir ++ q, dst_dir ++ q). }
  apply os_stat_inr. split.
  - destruct (Hm q n Hq Hn) as (n0 & H0 & Hmn).
    apply os_stat_inr_lookup in Hst. rewrite Hst in H0.
    injection H0 as <-. destruct n as [dd r|]; simpl in Hmn.
    + destruct Hmn as (-> & r0 & Heq). by injection Heq as ->.
    + by destruct Hmn as (_ & _ & ?).
  - intros i Hi. apply os_stat_inr in Hd0 as [Hd0 Hpre0].
    destruct (decide (i < length dst_dir)%nat) as [Hlt|Hge].
    + rewrite take_app_le by lia.
      destruct (Hpre0 i) as (wr & rd & Hwr); [lia|]. exists wr, rd. rewrite <- Hwr.
      apply Ho. intros Hpre%prefix_length. rewrite length_take in Hpre. lia.
    + destruct (decide (i = length dst_dir)) as [->|Hne].
      * rewrite take_app_length. exists wr0, rd0. by rewrite Hd.
      * destruct (fs_wf_prefix fs _ n Hwf Hn i Hi) as (sx & wx & rx & Hk).
        rewrite take_app_ge in Hk by lia. rewrite take_app_ge by lia.
        assert (take (i - length dst_dir) q <> []) as Hnil.
        { intros Hnil. apply (f_equal length) in Hnil.
          rewrite length_take in Hnil. rewrite length_app in Hi.
          simpl in Hnil. lia. }
        destruct (Hm _ _ Hnil Hk) as (n0 & _ & -> & _). eauto.
Qed.

(** *** Every file that is not excluded gets a record *)

Lemma copy_names_complete root target : forall fnames acc w res w',
  copy_names fnames root target ex acc w = (Ok res, w') ->
  (forall r, r ∈ acc -> r ∈ res) /\
  (forall fname, fname ∈ fnames -> fname ∉ ex ->
     (joinpath root fname, joinpath target fname) ∈ res).
Proof.
  induction fnames as [|fname fnames IH]; intros acc w res w'; simpl.
  { unfold ret. intros ?; simplify_eq. split; [done|].
    intros f Hf. by apply elem_of_nil in Hf. }
  destruct (bool_decide (fname ∈ ex)) eqn:Hin.
  { apply bool_decide_eq_true in Hin. intros Hrest.
    destruct (IH _ _ _ _ Hrest) as [Hmono Hall]. split; [done|].
    intros f Hf Hfex. apply elem_of_cons in Hf as [->|Hf]; [done|by apply Hall]. }
  unfold bind at 1.
  destruct (shutil_copy2 (joinpath root fname) (joinpath target fname) w)
    as [[d'| |] w1]; [|done..].
  intros Hrest. destruct (IH _ _ _ _ Hrest) as [Hmono Hall]. split.
  - intros r Hr. apply Hmono, elem_of_app. by left.
  - intros f Hf Hfex. apply elem_of_cons in Hf as [->|Hf]; [|by apply Hall].
    apply Hmono, elem_of_app. right. by apply list_elem_of_singleton.
Qed.

Lemma copy_visit_complete rel fnames acc w res w' :
  copy_visit src_dir dst_dir ex (src_dir ++ rel) fnames acc w = (Ok res, w') ->
  (forall r, r ∈ acc -> r ∈ res) /\
  (rel_excluded rel ex = false ->
   forall fname, fname ∈ fnames -> fname ∉ ex ->
     (src_dir ++ rel ++ [fname], dst_dir ++ rel ++ [fname]) ∈ res).
Proof.
  unfold copy_visit, relative_to.
  rewrite take_app_length, drop_app_length, decide_True by done.
  unfold bind at 1. unfold ret at 1.
  destruct (rel_excluded rel ex) eqn:Hex.
  { unfold ret. intros ?; simplify_eq. done. }
  unfold bind at 1. unfold ret at 1. unfold joinpath_rel. unfold bind at 1.
  destruct (Path_mkdir (dst_dir ++ rel) true true w) as [[[]| |] w1];
    [|done..].
  intros Hnames. apply copy_names_complete in Hnames as [Hmono Hall].
  split; [done|]. intros _ fname Hf Hfex.
  specialize (Hall fname Hf Hfex).
  change (((src_dir ++ rel) ++ [fname], (dst_dir ++ rel) ++ [fname]) ∈ res)
    in Hall.
  by rewrite <- (app_assoc src_dir rel), <- (app_assoc dst_dir rel) in Hall.
Qed.

Lemma scan_split_spec fs d x n :
  fs !! (d ++ [x]) = Some n ->
  if is_dir_node n then x ∈ (scan_split (entries fs d)).1
  else x ∈ (scan_split (entries fs d)).2.
Proof.
  intros Hk. apply entries_spec in Hk. apply list_elem_of_In in Hk.
  unfold scan_split. simpl. destruct (is_dir_node n) eqn:Hn;
    apply list_elem_of_In, in_map_iff; exists (x, n); (split; [done|]);
    apply filter_In; (split; [done|]); simpl; by rewrite Hn.
Qed.

Lemma walk_copy_complete : forall fuel stack acc w res w',
  src_dir <> [] ->
  Forall (fun p => src_dir `prefix_of` p) stack ->
  walk_copy fuel stack src_dir dst_dir ex acc w = (Ok res, w') ->
  mirrors src_dir dst_dir fs0 (files w) ->
  present_all (map snd acc) (files w) ->
  Forall (good_record src_dir dst_dir fs0) acc ->
  forall rel fname data r0,
    os_stat fs0 (src_dir ++ rel ++ [fname]) = inr (File data r0) ->
    (forall q, q `prefix_of` rel ->
       exists l, os_scandir fs0 (src_dir ++ q) = inr l) ->
    rel_excluded rel ex = false -> fname ∉ ex ->
    (src_dir ++ rel ++ [fname], dst_dir ++ rel ++ [fname]) ∈ acc \/
    (exists top, top ∈ stack /\ top `prefix_of` src_dir ++ rel) ->
    (src_dir ++ rel ++ [fname], dst_dir ++ rel ++ [fname]) ∈ res.
Proof.
  induction fuel as [|fuel IH]; intros [|top stack] acc w res w' Hsrc Hstack;
    simpl; try done.
  { unfold ret. intros ?; simplify_eq. intros _ _ _ rel fname data r0 _ _ _ _.
    intros [?|(top & Htop & _)]; [done|by apply elem_of_nil in Htop]. }
  { unfold ret. intros ?; simplify_eq. intros _ _ _ rel fname data r0 _ _ _ _.
    intros [?|(top & Htop & _)]; [done|by apply elem_of_nil in Htop]. }
  apply Forall_cons in Hstack as [[rel_t ->] Hstack].
  unfold walk_scan, try_except, bind at 1 2, sys_get, ret.
  intros Hrun Hinv HK Hgood rel fname data r0 Hst Hlist Hex Hfex Hwhere.
  pose proof Hinv as ((_ & _ & Ho) & _).
  (* the directories on the way to the file can be listed *)
  assert (forall q, q `prefix_of` rel ->
            exists l, os_scandir (files w) (src_dir ++ q) = inr l) as Hlist'.
  { intros q Hpre. destruct (Hlist q Hpre) as [l Hl].
    apply os_scandir_inr in Hl as [(s & wr & Hd) _].
    apply (os_stat_outside dst_dir fs0 (files w)) in Hd; [|by destruct Hinv|].
    - unfold os_scandir. rewrite Hd. eauto.
    - apply outside_head. destruct (decide (q = [])) as [->|Hq]; [done|].
      rewrite (prefix_head q rel Hq Hpre). by apply rel_head. }
  (* what the file system has along the path of the file *)
  assert (forall q, q <> [] -> q `prefix_of` rel ++ [fname] ->
            files w !! (src_dir ++ q) = fs0 !! (src_dir ++ q)) as Hsame.
  { intros q Hq Hpre. apply Ho, outside_head.
    rewrite (prefix_head q _ Hq Hpre). by apply rel_file_head. }
  assert (forall q, q `prefix_of` rel ->
            exists wr rd, os_stat (files w) (src_dir ++ q) = inr (Dir true wr rd))
    as Hdirs.
  { intros q Hpre. apply os_stat_inr in Hst as [Hf Hall].
    assert (exists l, rel ++ [fname] = q ++ l /\ l <> []) as (l & Hl & Hlne).
    { destruct Hpre as [l ->]. exists (l ++ [fname]).
      split; [by rewrite app_assoc|by destruct l]. }
    destruct (Hall (length (src_dir ++ q))) as (wr & rd & Hwr).
    { rewrite Hl, !length_app. destruct src_dir, l; simpl in *; try done; lia. }
    rewrite Hl, app_assoc, take_app_length in Hwr.
    exists wr, rd. apply os_stat_inr. split.
    - rewrite <- Hwr. destruct (decide (q = [])) as [->|Hq].
      + rewrite app_nil_r. apply Ho. unfold joinpath.
        intros Hpre'%prefix_length. rewrite length_app in Hpre'. simpl in *. lia.
      + apply Hsame; [done|]. rewrite Hl. by apply prefix_app_r.
    - intros i Hi. destruct (Hall i) as (wi & ri & Hwi).
      { rewrite Hl, app_assoc, length_app. lia. }
      exists wi, ri. rewrite Hl, app_assoc, take_app_le in Hwi by lia.
      rewrite <- Hwi. apply Ho. intros Hpre'.
      apply (outside_head q).
      { destruct (decide (q = [])) as [->|Hq]; [done|].
        rewrite (prefix_head q (rel ++ [fname]) Hq);
          [by apply rel_file_head|].
        rewrite Hl. by apply prefix_app_r. }
      etrans; [exact Hpre'|]. apply prefix_take. }
  destruct (os_scandir (files w) (src_dir ++ rel_t)) as [e|l] eqn:Hscan.
  { eapply (IH _ _ _ _ _ Hsrc Hstack Hrun Hinv HK Hgood); eauto.
    destruct Hwhere as [?|(top & Htop & Hpre)]; [by left|right].
    apply elem_of_cons in Htop as [->|Htop]; [|by eauto].
    exfalso. apply prefix_app_inv in Hpre.
    destruct (Hlist' rel_t Hpre) as [l Hl]. congruence. }
  destruct (scan_split l) as [dirs fnames] eqn:Hsplit. unfold bind at 1 in Hrun.
  destruct (copy_visit src_dir dst_dir ex (src_dir ++ rel_t) fnames acc w)
    as [[acc'| |] w1] eqn:Hvisit; [|done..].
  replace fnames with (scan_split l).2 in Hvisit by by rewrite Hsplit.
  destruct (copy_visit_mirror rel_t l acc w acc' w1) as (Hinv1 & HK1 & Hgood1);
    try done.
  destruct (copy_visit_complete _ _ _ _ _ _ Hvisit) as [Hmono Hall].
  apply os_scandir_inr in Hscan as [_ ->].
  assert (Forall (fun p => src_dir `prefix_of` p)
            (map (joinpath (src_dir ++ rel_t)) dirs ++ stack)) as Hstack'.
  { apply Forall_app. split; [|done].
    apply Forall_forall. intros p Hp.
    apply list_elem_of_fmap in Hp as (d & -> & _).
    unfold joinpath. rewrite <- app_assoc. by apply prefix_app_r. }
  eapply (IH _ _ _ _ _ Hsrc Hstack' Hrun Hinv1 HK1 Hgood1); eauto.
  destruct Hwhere as [Hacc|(top & Htop & Hpre)]; [by left; apply Hmono|].
  apply elem_of_cons in Htop as [->|Htop].
  2:{ right. exists top. split; [|done]. apply elem_of_app. by right. }
  apply prefix_app_inv in Hpre. destruct Hpre as [rest ->].
  destruct rest as [|dname rest].
  - left. rewrite app_nil_r in *. apply Hall; [done| |done].
    apply os_stat_inr_lookup in Hst.
    rewrite <- Hsame in Hst; [|by destruct rel_t|done].
    rewrite (app_assoc src_dir) in Hst.
    by apply (scan_split_spec _ _ _ (File data r0)) in Hst.
  - right. exists (joinpath (src_dir ++ rel_t) dname). split.
    + apply elem_of_app. left. apply list_elem_of_fmap. exists dname.
      split; [done|].
      destruct (Hdirs (rel_t ++ [dname])) as (wr & rd & Hd).
      { apply prefix_app, prefix_cons, prefix_nil. }
      apply os_stat_inr_lookup in Hd.
      rewrite (app_assoc src_dir) in Hd.
      apply (scan_split_spec _ _ _ (Dir true wr rd)) in Hd.
      by rewrite Hsplit in Hd.
    + unfold joinpath. rewrite <- !app_assoc. apply prefix_app.
      simpl. apply prefix_app, prefix_cons, prefix_nil.
Qed.

End mirror.

Lemma verify_pair_same_bytes src dst data use_hash w :
  os_stat (files w) src = inr (File data true) ->
  os_stat (files w) dst = inr (File data true) ->
  verify_pair src dst use_hash w = (Ok true, w).
Proof.
  intros Hs Hd. rewrite verify_pair_run. unfold verify_fs, file_digest.
  rewrite Hs, Hd, (os_read_file _ _ _ Hs), (os_read_file _ _ _ Hd). simpl.
  rewrite Z.eqb_refl. simpl. destruct use_hash; [|done].
  by rewrite String.eqb_refl.
Qed.

(** ** After the copy: every record is a byte-identical pair *)

Lemma scandir_empty fs d :
  fs_wf fs -> os_scandir fs d = inr [] -> empty_dir fs d.
Proof.
  intros Hwf Hscan. apply os_scandir_inr in Hscan as [(s0 & wr0 & Hd) Hent].
  split; [eauto|]. intros q Hq.
  destruct (fs !! (d ++ q)) as [n|] eqn:Hk; [exfalso|done].
  assert (exists x n', fs !! (d ++ [x]) = Some n') as (x & n' & Hx).
  { destruct q as [|x [|y q]]; [done|by eauto|].
    destruct (fs_wf_prefix fs _ n Hwf Hk (length d + 1)) as (s & wr & rd & Hp).
    { rewrite length_app. simpl. destruct d; simpl; lia. }
    rewrite take_app_ge, Nat.add_comm, Nat.add_sub in Hp by lia.
    simpl in Hp. eauto. }
  apply entries_spec in Hx. rewrite <- Hent in Hx. by apply elem_of_nil in Hx.
Qed.

Lemma copy_files_recursive_records fuel src_dir b ex w records w' :
  fs_wf (files w) -> b ∈ ex -> b <> EmptyString ->
  empty_dir (files w) (joinpath src_dir b) ->
  copy_files_recursive fuel src_dir (joinpath src_dir b) ex w = (Ok records, w') ->
  mirrors src_dir (joinpath src_dir b) (files w) (files w') /\
  forall s d, (s, d) ∈ records ->
    exists q data,
      q <> [] /\ s = src_dir ++ q /\ d = joinpath src_dir b ++ q /\
      os_stat (files w) s = inr (File data true) /\
      os_stat (files w') s = inr (File data true) /\
      os_stat (files w') d = inr (File data true).
Proof.
  intros Hwf Hb Hbne Hempty Hrun. unfold copy_files_recursive in Hrun.
  destruct (walk_copy_mirror src_dir b ex (files w) Hb Hbne
              fuel [src_dir] [] w records w') as (Hinv & HK & Hgood);
    try done.
  - by apply Forall_singleton.
  - by apply mirrors_start.
  - intros k Hk. by apply elem_of_nil in Hk.
  - split; [done|]. by apply (mirrors_records src_dir b (files w)).
Qed.

Lemma copy_files_non_recursive_records src_dir b ex w records w' :
  fs_wf (files w) -> src_dir <> [] -> b ∈ ex -> b <> EmptyString ->
  empty_dir (files w) (joinpath src_dir b) ->
  copy_files_non_recursive src_dir (joinpath src_dir b) ex w = (Ok records, w') ->
  mirrors src_dir (joinpath src_dir b) (files w) (files w') /\
  forall s d, (s, d) ∈ records ->
    exists q data,
      q <> [] /\ s = src_dir ++ q /\ d = joinpath src_dir b ++ q /\
      os_stat (files w) s = inr (File data true) /\
      os_stat (files w') s = inr (File data true) /\
      os_stat (files w') d = inr (File data true).
Proof.
  intros Hwf Hsrc Hb Hbne Hempty. unfold copy_files_non_recursive, Path_iterdir.
  unfold bind, sys_get, ret.
  destruct (os_scandir (files w) src_dir) as [|l]; [done|].
  rewrite <- (map_map fst (joinpath src_dir) l). intros Hrun.
  destruct (copy_items_mirror src_dir b ex (files w) Hb Hbne
              (map fst l) [] w records w') as (Hinv & HK & Hgood & _);
    try done.
  - by apply mirrors_start.
  - intros k Hk. by apply elem_of_nil in Hk.
  - split; [done|]. by apply (mirrors_records src_dir b (files w)).
Qed.

(** X11. [copy_files_recursive] into an accessible empty directory
    [dst_dir] that is a child of [src_dir] with an excluded, non-empty
    name, in a well-formed file system.  When it returns, nothing outside
    of [dst_dir] has changed, and every record [(s, d)] has the same
    relative path under [src_dir] and under [dst_dir]; [s] was a readable
    regular file when the copy started, [d] is now a readable regular
    file with the same bytes, and [verify_pair] accepts the pair, by size
    and by digest. *)
Theorem recursive_copy_round_trip (fuel : nat) (src_dir dst_dir : path)
    (b : string) (exclude_names : gset string) (w w' : world)
    (records : list copy_record) :
  fs_wf (files w) ->
  dst_dir = joinpath src_dir b -> b ∈ exclude_names -> b <> EmptyString ->
  os_scandir (files w) dst_dir = inr [] ->
  copy_files_recursive fuel src_dir dst_dir exclude_names w = (Ok records, w') ->
  (forall k, ~ dst_dir `prefix_of` k -> files w' !! k = files w !! k) /\
  forall s d, (s, d) ∈ records ->
    exists q data,
      q <> [] /\ s = src_dir ++ q /\ d = dst_dir ++ q /\
      os_stat (files w) s = inr (File data true) /\
      os_stat (files w') d = inr (File data true) /\
      forall use_hash, verify_pair s d use_hash w' = (Ok true, w').
Proof.
  intros Hwf -> Hb Hbne Hscan Hrun.
  destruct (copy_files_recursive_records fuel src_dir b exclude_names
              w records w') as [((_ & _ & Hout) & _) Hrec];
    try done; [by apply scandir_empty|].
  split; [done|]. intros s d Hin.
  destruct (Hrec s d Hin) as (q & data & Hq & -> & -> & H0 & Hs & Hd).
  exists q, data. repeat (split; [done|]).
  intros use_hash. by apply (verify_pair_same_bytes _ _ data).
Qed.

(** X12. [copy_files_non_recursive] from a non-empty path [src_dir] into
    an accessible empty directory [dst_dir] that is a child of [src_dir]
    with an excluded, non-empty name, in a well-formed file system.  When
    it returns, nothing outside of [dst_dir] has changed, and every record
    [(s, d)] has the same relative path under [src_dir] and under
    [dst_dir]; [s] was a readable regular file when the copy started, [d]
    is now a readable regular file with the same bytes, and [verify_pair]
    accepts the pair, by size and by digest. *)
Theorem non_recursive_copy_round_trip (src_dir dst_dir : path)
    (b : string) (exclude_names : gset string) (w w' : world)
    (records : list copy_record) :
  fs_wf (files w) -> src_dir <> [] ->
  dst_dir = joinpath src_dir b -> b ∈ exclude_names -> b <> EmptyString ->
  os_scandir (files w) dst_dir = inr [] ->
  copy_files_non_recursive src_dir dst_dir exclude_names w = (Ok records, w') ->
  (forall k, ~ dst_dir `prefix_of` k -> files w' !! k = files w !! k) /\
  forall s d, (s, d) ∈ records ->
    exists q data,
      q <> [] /\ s = src_dir ++ q /\ d = dst_dir ++ q /\
      os_stat (files w) s = inr (File data true) /\
      os_stat (files w') d = inr (File data true) /\
      forall use_hash, verify_pair s d use_hash w' = (Ok true, w').
Proof.
  intros Hwf Hsrc -> Hb Hbne Hscan Hrun.
  destruct (copy_files_non_recursive_records src_dir b exclude_names
              w records w') as [((_ & _ & Hout) & _) Hrec];
    try done; [by apply scandir_empty|].
  split; [done|]. intros s d Hin.
  destruct (Hrec s d Hin) as (q & data & Hq & -> & -> & H0 & Hs & Hd).
  exists q, data. repeat (split; [done|]).
  intros use_hash. by apply (verify_pair_same_bytes _ _ data).
Qed.

Lemma recursive_copy_round_trip_witness :
  (forall k, ~ ["/"; "s"; "bk"] `prefix_of` k ->
     files (copy_files_recursive 10 ["/"; "s"] ["/"; "s"; "bk"] demo_exclude
                                 (World walk_fs [])).2 !! k
     = walk_fs !! k) /\
  forall s d,
    (s, d) ∈ [ (["/"; "s"; "a.txt"], ["/"; "s"; "bk"; "a.txt"]);
               (["/"; "s"; "keep"; "k.txt"], ["/"; "s"; "bk"; "keep"; "k.txt"]) ] ->
    exists q data,
      q <> [] /\ s = ["/"; "s"] ++ q /\ d = ["/"; "s"; "bk"] ++ q /\
      os_stat walk_fs s = inr (File data true) /\
      os_stat (files (copy_files_recursive 10 ["/"; "s"] ["/"; "s"; "bk"]
                        demo_exclude (World walk_fs [])).2) d
      = inr (File data true) /\
      forall use_hash,
        verify_pair s d use_hash
          (copy_files_recursive 10 ["/"; "s"] ["/"; "s"; "bk"] demo_exclude
                                (World walk_fs [])).2
        = (Ok true,
           (copy_files_recursive 10 ["/"; "s"] ["/"; "s"; "bk"] demo_exclude
                                 (World walk_fs [])).2).
Proof.
  apply (recursive_copy_round_trip 10 ["/"; "s"] ["/"; "s"; "bk"] "bk"
           demo_exclude (World walk_fs [])).
  - apply fs_wf_check_sound. vm_compute. reflexivity.
  - reflexivity.
  - apply elem_of_union_l, elem_of_singleton. reflexivity.
  - discriminate.
  - vm_compute. reflexivity.
  - vm_compute. reflexivity.
Defined.

Lemma non_recursive_copy_round_trip_witness :
  (forall k, ~ ["/"; "s"; "bk"] `prefix_of` k ->
     files (copy_files_non_recursive ["/"; "s"] ["/"; "s"; "bk"] demo_exclude
                                     (World walk_fs [])).2 !! k
     = walk_fs !! k) /\
  forall s d,
    (s, d) ∈ [ (["/"; "s"; "a.txt"], ["/"; "s"; "bk"; "a.txt"]) ] ->
    exists q data,
      q <> [] /\ s = ["/"; "s"] ++ q /\ d = ["/"; "s"; "bk"] ++ q /\
      os_stat walk_fs s = inr (File data true) /\
      os_stat (files (copy_files_non_recursive ["/"; "s"] ["/"; "s"; "bk"]
                        demo_exclude (World walk_fs [])).2) d
      = inr (File data true) /\
      forall use_hash,
        verify_pair s d use_hash
          (copy_files_non_recursive ["/"; "s"] ["/"; "s"; "bk"] demo_exclude
                                    (World walk_fs [])).2
        = (Ok true,
           (copy_files_non_recursive ["/"; "s"] ["/"; "s"; "bk"] demo_exclude
                                     (World walk_fs [])).2).
Proof.
  apply (non_recursive_copy_round_trip ["/"; "s"] ["/"; "s"; "bk"] "bk"
           demo_exclude (World walk_fs [])).
  - apply fs_wf_check_sound. vm_compute. reflexivity.
  - discriminate.
  - reflexivity.
  - apply elem_of_union_l, elem_of_singleton. reflexivity.
  - discriminate.
  - vm_compute. reflexivity.
  - vm_compute. reflexivity.
Defined.

(** ** The copy of [main] *)

Lemma allocate_backup_dir_name_nonempty fuel now base_dir base_name w d w' :
  fs_wf (files w) ->
  allocate_backup_dir fuel now base_dir base_name w = (Ok d, w') ->
  name d <> EmptyString.
Proof.
  intros Hwf. unfold allocate_backup_dir, try_except.
  change (create_unique_backup_dir now base_dir base_name w)
    with (mkdir_and_return (stamped_dir now base_dir base_name) w).
  destruct (mkdir_and_return_spec (stamped_dir now base_dir base_name) w Hwf)
    as [(w1 & -> & _)|(e & w1 & -> & _ & Hsame & _)].
  - intros; simplify_eq. unfold stamped_dir.
    rewrite name_joinpath by apply underscore_name_not_root.
    by destruct base_name.
  - destruct (is_FileExistsError e); [|done].
    rewrite (Hsame eq_refl). intros Hprobe.
    apply probe_loop_ok in Hprobe as (_ & _ & _ & _ & _ & j & ->); [|done].
    unfold numbered_dir.
    rewrite name_joinpath by apply underscore_name_not_root.
    by destruct base_name.
Qed.

Lemma allocate_backup_dir_cases fuel now base_dir base_name w d w' :
  fs_wf (files w) ->
  allocate_backup_dir fuel now base_dir base_name w = (Ok d, w') ->
  forall k, files w' !! k = files w !! k \/
            (k `prefix_of` d /\ files w !! k = None /\
             files w' !! k = Some (Dir true true true)).
Proof.
  intros Hwf Hrun.
  destruct (allocate_backup_dir_ok_grows _ _ _ _ _ _ _ Hwf Hrun)
    as (_ & _ & _ & Hnew).
  assert (adds_dirs (files w) (files w')) as [_ Hadds].
  { eapply (preserves_adds_dirs_allocate (files w)); [|exact Hrun].
    split; [done|]. by left. }
  intros k. destruct (Hadds k) as [?|[Hk0 Hk1]]; [by left|right].
  split; [|done]. apply Hnew; [done|]. by rewrite Hk1.
Qed.

Lemma allocate_backup_dir_empty fuel now base_dir base_name w d w' :
  fs_wf (files w) ->
  allocate_backup_dir fuel now base_dir base_name w = (Ok d, w') ->
  empty_dir (files w') d.
Proof.
  intros Hwf Hrun.
  destruct (allocate_backup_dir_ok_fresh _ _ _ _ _ _ _ Hwf Hrun) as [Hnone Hne].
  destruct (allocate_backup_dir_ok _ _ _ _ _ _ _ Hwf Hrun)
    as (_ & [nd Hex] & _).
  pose proof (allocate_backup_dir_cases _ _ _ _ _ _ _ Hwf Hrun) as Hcases.
  split.
  - exists true, true, true. rewrite Hex. f_equal. apply os_stat_inr_lookup in Hex.
    destruct (Hcases d) as [Heq|(_ & _ & Hd)]; congruence.
  - intros q Hq. destruct (Hcases (d ++ q)) as [Heq|(Hpre & _)].
    + rewrite Heq. apply (under_absent (files w) d); try done.
      by apply prefix_app_r.
    + apply prefix_length in Hpre. rewrite length_app in Hpre.
      destruct q; [done|simpl in Hpre; lia].
Qed.

(** A regular file that [os.stat] finds after the allocation was found
    before it. *)
Lemma allocate_backup_dir_stat_file fuel now base_dir base_name w d w' p data r :
  fs_wf (files w) ->
  allocate_backup_dir fuel now base_dir base_name w = (Ok d, w') ->
  os_stat (files w') p = inr (File data r) ->
  os_stat (files w) p = inr (File data r).
Proof.
  intros Hwf Hrun Hst.
  pose proof (allocate_backup_dir_cases _ _ _ _ _ _ _ Hwf Hrun) as Hcases.
  apply os_stat_inr in Hst as [Hp Hpre].
  assert (files w !! p = Some (File data r)) as Hp0.
  { destruct (Hcases p) as [Heq|(_ & _ & Hd)]; congruence. }
  apply os_stat_inr. split; [done|]. intros i Hi.
  destruct (Hpre i Hi) as (wr & rd & Hwr). exists wr, rd.
  destruct (Hcases (take i p)) as [Heq|(_ & Hno & _)]; [congruence|].
  destruct (fs_wf_prefix _ _ _ Hwf Hp0 i Hi) as (s & wx & rx & Hk). congruence.
Qed.

(** X13. Allocation and copy together, as [main] runs them in a
    well-formed file system with a base directory that is not the empty
    path.  When the copy has ended, every record [(s, d)] is a pair of
    readable regular files with the same bytes, [s] is as it was when the
    run started, and [verify_pair] accepts the pair, by size and by
    digest: a verification that fails in [delete_backed_files] is not due
    to the copy. *)
Theorem main_backup_records_verify (a : args) (e : env)
    (probe_fuel walk_fuel : nat) (w w1 : world)
    (exclude : gset string) (copied : list copy_record) :
  fs_wf (files w) ->
  (determine_script_and_base_dir e).2 <> [] ->
  main_backup a e probe_fuel walk_fuel w = (Ok (exclude, copied), w1) ->
  forall s d, (s, d) ∈ copied ->
    exists data,
      os_stat (files w) s = inr (File data true) /\
      os_stat (files w1) s = inr (File data true) /\
      os_stat (files w1) d = inr (File data true) /\
      forall use_hash, verify_pair s d use_hash w1 = (Ok true, w1).
Proof.
  intros Hwf. unfold main_backup.
  destruct (determine_script_and_base_dir e) as [script_path base_dir].
  simpl. intros Hbase. unfold bind at 1.
  destruct (allocate_backup_dir probe_fuel (now e) base_dir (arg_name a) w)
    as [[bdir| |] wa] eqn:Hal; [|done..].
  destruct (allocate_backup_dir_ok _ _ _ _ _ _ _ Hwf Hal)
    as (_ & _ & Hwfa & _).
  pose proof (allocate_backup_dir_ok_name _ _ _ _ _ _ _ Hwf Hal) as Hname.
  pose proof (allocate_backup_dir_name_nonempty _ _ _ _ _ _ _ Hwf Hal) as Hne.
  pose proof (allocate_backup_dir_empty _ _ _ _ _ _ _ Hwf Hal) as Hempty.
  set (ex := ({[ name bdir; name script_path ]} : gset string)).
  assert (name bdir ∈ ex) as Hin by (apply elem_of_union_l, elem_of_singleton; done).
  rewrite Hname in Hempty.
  assert (forall wb records w',
            files wb = files wa ->
            (if recursive a
             then copy_files_recursive walk_fuel base_dir bdir ex
             else copy_files_non_recursive base_dir bdir ex) wb
            = (Ok records, w') ->
            forall s d, (s, d) ∈ records ->
              exists data,
                os_stat (files w) s = inr (File data true) /\
                os_stat (files w') s = inr (File data true) /\
                os_stat (files w') d = inr (File data true)) as Hcopy.
  { intros wb records w' Hwb Hrun s d Hsd. rewrite Hname in Hrun.
    rewrite <- Hwb in Hempty, Hwfa.
    assert (exists q data,
              q <> [] /\ s = base_dir ++ q /\
              d = joinpath base_dir (name bdir) ++ q /\
              os_stat (files wb) s = inr (File data true) /\
              os_stat (files w') s = inr (File data true) /\
              os_stat (files w') d = inr (File data true))
      as (q & data & _ & _ & _ & H0 & Hs & Hd).
    { destruct (recursive a).
      - by eapply (copy_files_recursive_records walk_fuel base_dir (name bdir) ex).
      - by eapply (copy_files_non_recursive_records base_dir (name bdir) ex). }
    exists data. split; [|done]. rewrite Hwb in H0.
    by eapply allocate_backup_dir_stat_file. }
  unfold bind, print, ret. simpl.
  destruct (delete_originals a); simpl;
    match goal with
    | |- context [(if recursive a then _ else _) ?wb] =>
        destruct ((if recursive a
                   then copy_files_recursive walk_fuel base_dir bdir ex
                   else copy_files_non_recursive base_dir bdir ex) wb)
          as [[records| |] wc] eqn:Hrun; [|done..];
        intros Heq; injection Heq as <- <- <-; intros s d Hsd;
        destruct (Hcopy wb records wc eq_refl Hrun s d Hsd)
          as (data & H0 & Hs & Hd);
        exists data; repeat (split; [done|]);
        intros use_hash; by apply (verify_pair_same_bytes _ _ data)
    end.
Qed.

Lemma main_backup_records_verify_witness :
  exists data,
    os_stat scenario_fs ["/"; "s"; "sub"; "b.txt"] = inr (File data true) /\
    os_stat (files (main_backup demo_args (demo_env "y") 5 20
                                (World scenario_fs [])).2)
            ["/"; "s"; "sub"; "b.txt"]
    = inr (File data true) /\
    os_stat (files (main_backup demo_args (demo_env "y") 5 20
                                (World scenario_fs [])).2)
            ["/"; "s"; "backup_20261103_101500"; "sub"; "b.txt"]
    = inr (File data true) /\
    forall use_hash,
      verify_pair ["/"; "s"; "sub"; "b.txt"]
        ["/"; "s"; "backup_20261103_101500"; "sub"; "b.txt"] use_hash
        (main_backup demo_args (demo_env "y") 5 20 (World scenario_fs [])).2
      = (Ok true,
         (main_backup demo_args (demo_env "y") 5 20 (World scenario_fs [])).2).
Proof.
  apply (main_backup_records_verify demo_args (demo_env "y") 5 20
           (World scenario_fs [])
           (main_backup demo_args (demo_env "y") 5 20 (World scenario_fs [])).2
           {[ "backup_20261103_101500"; "final_backup.py" ]}
           [ (["/"; "s"; "a.txt"],
              ["/"; "s"; "backup_20261103_101500"; "a.txt"]);
             (["/"; "s"; "sub"; "b.txt"],
              ["/"; "s"; "backup_20261103_101500"; "sub"; "b.txt"]) ]).
  - apply fs_wf_check_sound. vm_compute. reflexivity.
  - discriminate.
  - vm_compute. reflexivity.
  - apply list_elem_of_further, list_elem_of_here.
Defined.

(** ** After the copy: no file was passed over *)

Lemma copy_files_recursive_all fuel src_dir b ex w records w' :
  fs_wf (files w) -> src_dir <> [] -> b ∈ ex -> b <> EmptyString ->
  empty_dir (files w) (joinpath src_dir b) ->
  copy_files_recursive fuel src_dir (joinpath src_dir b) ex w = (Ok records, w') ->
  forall rel fname data r0,
    os_stat (files w) (src_dir ++ rel ++ [fname]) = inr (File data r0) ->
    (forall q, q `prefix_of` rel ->
       exists l, os_scandir (files w) (src_dir ++ q) = inr l) ->
    rel_excluded rel ex = false -> fname ∉ ex ->
    (src_dir ++ rel ++ [fname], joinpath src_dir b ++ rel ++ [fname]) ∈ records.
Proof.
  intros Hwf Hsrc Hb Hbne Hempty Hrun rel fname data r0 Hst Hlist Hex Hfex.
  unfold copy_files_recursive in Hrun.
  eapply (walk_copy_complete src_dir b ex (files w) Hb Hbne
            fuel [src_dir] [] w records w'); eauto.
  - by apply mirrors_start.
  - intros k Hk. by apply elem_of_nil in Hk.
  - right. exists src_dir. split; [by left|]. by apply prefix_app_r.
Qed.

Lemma prefix_snoc_cases {A : Type} (q rel : list A) (d : A) :
  q `prefix_of` rel ++ [d] -> q `prefix_of` rel \/ q = rel ++ [d].
Proof.
  intros Hq.
  destruct (prefix_weak_total q rel (rel ++ [d])) as [?|[l ->]];
    [done|by apply prefix_app_r|by left|].
  apply prefix_app_inv in Hq. destruct l as [|x l]; [left|right].
  - rewrite app_nil_r. done.
  - destruct Hq as [l' Hl']. simpl in Hl'. injection Hl' as <- Hl'.
    by destruct l.
Qed.

(** Every directory that [os.walk] yields was scanned, as was every
    directory on the way to it. *)
Lemma walk_roots_listed src_dir : forall fuel stack w roots w',
  walk_roots fuel stack w = (Ok roots, w') ->
  (forall p, p ∈ stack ->
     exists rel, p = src_dir ++ rel /\
       forall q, q `prefix_of` rel -> q <> rel ->
         exists l, os_scandir (files w) (src_dir ++ q) = inr l) ->
  forall p, p ∈ roots ->
    exists rel, p = src_dir ++ rel /\
      forall q, q `prefix_of` rel ->
        exists l, os_scandir (files w) (src_dir ++ q) = inr l.
Proof.
  induction fuel as [|fuel IH]; intros [|top stack] w roots w'; simpl;
    try done.
  { unfold ret. intros ? _ p Hp. simplify_eq. by apply elem_of_nil in Hp. }
  { unfold ret. intros ? _ p Hp. simplify_eq. by apply elem_of_nil in Hp. }
  unfold walk_scan, try_except, bind at 1 2, sys_get, ret.
  intros Hrun Hstack.
  destruct (os_scandir (files w) top) as [e|l] eqn:Hscan.
  { apply (IH _ _ _ _ Hrun). intros p Hp. apply Hstack. by right. }
  destruct (scan_split l) as [dirs fnames] eqn:Hsplit. unfold bind in Hrun.
  destruct (walk_roots fuel (map (joinpath top) dirs ++ stack) w)
    as [[rest| |] w1] eqn:Hrest; [|done..].
  injection Hrun as <- <-.
  destruct (Hstack top) as (rel_t & -> & Hproper); [by left|].
  assert (forall q, q `prefix_of` rel_t ->
            exists l', os_scandir (files w) (src_dir ++ q) = inr l') as Hall.
  { intros q Hq. destruct (decide (q = rel_t)) as [->|Hne]; [eauto|].
    by apply Hproper. }
  intros p Hp. apply elem_of_cons in Hp as [->|Hp]; [by exists rel_t|].
  apply (IH _ _ _ _ Hrest); [|done].
  intros p' Hp'. apply elem_of_app in Hp' as [Hp'|Hp'].
  - apply list_elem_of_fmap in Hp' as (d & -> & _).
    exists (rel_t ++ [d]). split; [unfold joinpath; by rewrite <- app_assoc|].
    intros q Hq Hne. apply Hall.
    by destruct (prefix_snoc_cases _ _ _ Hq).
  - apply Hstack. by right.
Qed.

(** X14. [copy_files_recursive] from a non-empty path [src_dir] into an
    empty directory [dst_dir] that is a child of [src_dir] with an
    excluded, non-empty name, in a well-formed file system.  When it
    returns, every regular file that [os.stat] found when the copy started
    in a directory that [os.walk], run on [src_dir] at that moment, yields,
    has its record, unless its name is excluded or a non-empty part of the
    relative path of its directory is.  (A directory that cannot be listed
    is not yielded, nor is any directory under it: [os.walk] passes over
    it without an error.) *)
Theorem recursive_copy_complete (fuel : nat) (src_dir dst_dir : path)
    (b : string) (exclude_names : gset string) (w w' : world)
    (records : list copy_record) :
  fs_wf (files w) -> src_dir <> [] ->
  dst_dir = joinpath src_dir b -> b ∈ exclude_names -> b <> EmptyString ->
  os_scandir (files w) dst_dir = inr [] ->
  copy_files_recursive fuel src_dir dst_dir exclude_names w = (Ok records, w') ->
  forall (fuel0 : nat) (roots : list path) (w0 : world)
         (rel : path) (fname : string) (data : list byte) (r0 : bool),
    walk_roots fuel0 [src_dir] w = (Ok roots, w0) ->
    src_dir ++ rel ∈ roots ->
    os_stat (files w) (src_dir ++ rel ++ [fname]) = inr (File data r0) ->
    rel_excluded rel exclude_names = false -> fname ∉ exclude_names ->
    (src_dir ++ rel ++ [fname], dst_dir ++ rel ++ [fname]) ∈ records.
Proof.
  intros Hwf Hsrc -> Hb Hbne Hscan Hrun fuel0 roots w0 rel fname data r0
         Hwalk Hin Hst Hex Hfex.
  apply (copy_files_recursive_all fuel src_dir b exclude_names w records w'
           Hwf Hsrc Hb Hbne (scandir_empty _ _ Hwf Hscan) Hrun
           rel fname data r0); try done.
  destruct (walk_roots_listed src_dir _ _ _ _ _ Hwalk) with (p := src_dir ++ rel)
    as (rel' & Heq & Hall); [|done|].
  - intros p Hp. apply list_elem_of_singleton in Hp. subst p.
    exists []. split; [by rewrite app_nil_r|].
    intros q Hq Hne. by apply prefix_nil_inv in Hq.
  - apply app_inv_head in Heq. by subst rel'.
Qed.

Lemma recursive_copy_complete_witness :
  (["/"; "s"] ++ ["keep"] ++ ["k.txt"],
   ["/"; "s"; "bk"] ++ ["keep"] ++ ["k.txt"]) ∈
  [ (["/"; "s"; "a.txt"], ["/"; "s"; "bk"; "a.txt"]);
    (["/"; "s"; "keep"; "k.txt"], ["/"; "s"; "bk"; "keep"; "k.txt"]) ].
Proof.
  apply (recursive_copy_complete 10 ["/"; "s"] ["/"; "s"; "bk"] "bk"
           demo_exclude (World walk_fs [])
           (copy_files_recursive 10 ["/"; "s"] ["/"; "s"; "bk"] demo_exclude
                                 (World walk_fs [])).2
           _ (fs_wf_check_sound walk_fs ltac:(vm_compute; reflexivity))
           ltac:(discriminate) eq_refl
           ltac:(apply elem_of_union_l, elem_of_singleton; reflexivity)
           ltac:(discriminate)
           ltac:(vm_compute; reflexivity) ltac:(vm_compute; reflexivity)
           10
           [ ["/"; "s"]; ["/"; "s"; "keep"]; ["/"; "s"; "keep"; "bk"];
             ["/"; "s"; "keep"; "bk"; "inner"]; ["/"; "s"; "bk"] ]
           (World walk_fs [])
           ["keep"] "k.txt" ["k"]%byte true).
  - vm_compute. reflexivity.
  - apply list_elem_of_further, list_elem_of_here.
  - vm_compute. reflexivity.
  - vm_compute. reflexivity.
  - apply (bool_decide_eq_false_1 _). vm_compute. reflexivity.
Defined.

Lemma copy_files_non_recursive_all src_dir b ex w records w' :
  fs_wf (files w) -> src_dir <> [] -> b ∈ ex -> b <> EmptyString ->
  empty_dir (files w) (joinpath src_dir b) ->
  copy_files_non_recursive src_dir (joinpath src_dir b) ex w = (Ok records, w') ->
  forall fname data r0,
    os_stat (files w) (joinpath src_dir fname) = inr (File data r0) ->
    fname ∉ ex ->
    (joinpath src_dir fname, joinpath (joinpath src_dir b) fname) ∈ records.
Proof.
  intros Hwf Hsrc Hb Hbne Hempty Hrun fname data r0 Hst Hfex.
  unfold copy_files_non_recursive, Path_iterdir in Hrun.
  unfold bind, sys_get, ret in Hrun.
  destruct (os_scandir (files w) src_dir) as [|l] eqn:Hscan; [done|].
  rewrite <- (map_map fst (joinpath src_dir) l) in Hrun.
  destruct (copy_items_mirror src_dir b ex (files w) Hb Hbne
              (map fst l) [] w records w') as (_ & _ & _ & _ & Hall);
    try done.
  - by apply mirrors_start.
  - intros k Hk. by apply elem_of_nil in Hk.
  - apply (Hall fname data r0); try done.
    apply os_scandir_inr in Hscan as [_ ->].
    apply os_stat_inr_lookup, entries_spec in Hst.
    apply list_elem_of_fmap. by exists (fname, File data r0).
Qed.

(** X15. [copy_files_non_recursive] from a non-empty path [src_dir] into
    an accessible empty directory [dst_dir] that is a child of [src_dir]
    with an excluded, non-empty name, in a well-formed file system.  When
    it returns, every entry of [src_dir] that [os.stat] found to be a
    regular file when the copy started has its record, unless its name is
    excluded. *)
Theorem non_recursive_copy_complete (src_dir dst_dir : path)
    (b : string) (exclude_names : gset string) (w w' : world)
    (records : list copy_record) :
  fs_wf (files w) -> src_dir <> [] ->
  dst_dir = joinpath src_dir b -> b ∈ exclude_names -> b <> EmptyString ->
  os_scandir (files w) dst_dir = inr [] ->
  copy_files_non_recursive src_dir dst_dir exclude_names w = (Ok records, w') ->
  forall (fname : string) (data : list byte) (r0 : bool),
    os_stat (files w) (joinpath src_dir fname) = inr (File data r0) ->
    fname ∉ exclude_names ->
    (joinpath src_dir fname, joinpath dst_dir fname) ∈ records.
Proof.
  intros Hwf Hsrc -> Hb Hbne Hscan Hrun.
  apply (copy_files_non_recursive_all src_dir b exclude_names w records w');
    try done.
  by apply scandir_empty.
Qed.

Lemma non_recursive_copy_complete_witness :
  (joinpath ["/"; "s"] "a.txt", joinpath ["/"; "s"; "bk"] "a.txt") ∈
  [ (["/"; "s"; "a.txt"], ["/"; "s"; "bk"; "a.txt"]) ].
Proof.
  apply (non_recursive_copy_complete ["/"; "s"] ["/"; "s"; "bk"] "bk"
           demo_exclude (World walk_fs [])
           (copy_files_non_recursive ["/"; "s"] ["/"; "s"; "bk"] demo_exclude
                                     (World walk_fs [])).2
           _ (fs_wf_check_sound walk_fs ltac:(vm_compute; reflexivity))
           ltac:(discriminate) eq_refl
           ltac:(apply elem_of_union_l, elem_of_singleton; reflexivity)
           ltac:(discriminate)
           ltac:(vm_compute; reflexivity) ltac:(vm_compute; reflexivity)
           "a.txt" ["h"; "e"; "l"; "l"; "o"]%byte true).
  - vm_compute. reflexivity.
  - apply (bool_decide_eq_false_1 _). vm_compute. reflexivity.
Defined.

(** The steps of [main_backup] when it returns. *)
Lemma main_backup_ok a e probe_fuel walk_fuel w exclude copied w1 :
  main_backup a e probe_fuel walk_fuel w = (Ok (exclude, copied), w1) ->
  exists bdir wa wb wc,
    allocate_backup_dir probe_fuel (now e)
      (determine_script_and_base_dir e).2 (arg_name a) w = (Ok bdir, wa) /\
    files wb = files wa /\
    exclude = {[ name bdir; name (determine_script_and_base_dir e).1 ]} /\
    (if recursive a
     then copy_files_recursive walk_fuel
            (determine_script_and_base_dir e).2 bdir exclude
     else copy_files_non_recursive
            (determine_script_and_base_dir e).2 bdir exclude) wb
    = (Ok copied, wc) /\
    files w1 = files wc.
Proof.
  unfold main_backup.
  destruct (determine_script_and_base_dir e) as [script_path base_dir].
  simpl. unfold bind at 1.
  destruct (allocate_backup_dir probe_fuel (now e) base_dir (arg_name a) w)
    as [[bdir| |] wa] eqn:Hal; [|done..].
  unfold bind, print, ret. simpl.
  destruct (delete_originals a); simpl;
    match goal with
    | |- context [(if recursive a then ?m1 else ?m2) ?wb] =>
        destruct ((if recursive a then m1 else m2) wb)
          as [[records| |] wc] eqn:Hrun; [|done..];
        intros Heq; injection Heq as <- <- <-;
        exists bdir, wa, wb, wc; done
    end.
Qed.

(** X16. Allocation and copy together, as [main] runs them in a
    well-formed file system, with a base directory that is not the empty
    path and a [--name] without a path separator.  When the copy has
    ended, every regular file that [os.stat] found under the base
    directory when the run started has a record, unless its name is in the
    exclusion set, or a non-empty part of the relative path of its
    directory is: with [--recursive] this holds for the files in a
    directory that [os.walk], run on the base directory when the run
    started, yields, and without [--recursive] for the entries of the base
    directory itself. *)
Theorem main_backup_records_complete (a : args) (e : env)
    (probe_fuel walk_fuel : nat) (w w1 : world)
    (exclude : gset string) (copied : list copy_record) :
  fs_wf (files w) ->
  (determine_script_and_base_dir e).2 <> [] ->
  plain_name (arg_name a) = true ->
  main_backup a e probe_fuel walk_fuel w = (Ok (exclude, copied), w1) ->
  forall (rel : path) (fname : string) (data : list byte) (r0 : bool),
    os_stat (files w) ((determine_script_and_base_dir e).2 ++ rel ++ [fname])
      = inr (File data r0) ->
    rel_excluded rel exclude = false -> fname ∉ exclude ->
    (recursive a = false -> rel = []) ->
    (recursive a = true ->
     exists (fuel0 : nat) (roots : list path) (w0 : world),
       walk_roots fuel0 [(determine_script_and_base_dir e).2] w
         = (Ok roots, w0) /\
       (determine_script_and_base_dir e).2 ++ rel ∈ roots) ->
    exists d,
      ((determine_script_and_base_dir e).2 ++ rel ++ [fname], d) ∈ copied.
Proof.
  intros Hwf Hbase _ Hrun rel fname data r0 Hst Hex Hfex Hmode Hlist.
  apply main_backup_ok in Hrun
    as (bdir & wa & wb & wc & Hal & Hwb & Hexcl & Hcopy & _).
  set (base_dir := (determine_script_and_base_dir e).2) in *.
  destruct (allocate_backup_dir_ok _ _ _ _ _ _ _ Hwf Hal)
    as (_ & _ & Hwfa & _ & Hsub).
  pose proof (allocate_backup_dir_ok_name _ _ _ _ _ _ _ Hwf Hal) as Hname.
  pose proof (allocate_backup_dir_name_nonempty _ _ _ _ _ _ _ Hwf Hal) as Hne.
  pose proof (allocate_backup_dir_empty _ _ _ _ _ _ _ Hwf Hal) as Hempty.
  assert (name bdir ∈ exclude) as Hin
    by (rewrite Hexcl; apply elem_of_union_l, elem_of_singleton; done).
  apply (os_stat_weaken _ _ _ _ Hsub) in Hst.
  rewrite <- Hwb in Hst, Hwfa, Hempty.
  rewrite Hname in Hempty, Hcopy.
  exists (joinpath base_dir (name bdir) ++ rel ++ [fname]).
  destruct (recursive a).
  - eapply (copy_files_recursive_all walk_fuel base_dir (name bdir)
              exclude wb copied wc); try done.
    destruct (Hlist eq_refl) as (fuel0 & roots & w0 & Hwalk & Hroot).
    destruct (walk_roots_listed base_dir _ _ _ _ _ Hwalk)
      with (p := base_dir ++ rel) as (rel' & Heq & Hall); [|done|].
    { intros p Hp. apply list_elem_of_singleton in Hp. subst p.
      exists []. split; [by rewrite app_nil_r|].
      intros q Hq Hqne. by apply prefix_nil_inv in Hq. }
    apply app_inv_head in Heq. subst rel'.
    intros q Hq. destruct (Hall q Hq) as [l Hl].
    apply os_scandir_inr in Hl as [(s & wr & Hd) _].
    apply (os_stat_weaken _ _ _ _ Hsub) in Hd. rewrite <- Hwb in Hd.
    unfold os_scandir. rewrite Hd. eauto.
  - rewrite (Hmode eq_refl) in *.
    by eapply (copy_files_non_recursive_all base_dir (name bdir)
                 exclude wb copied wc).
Qed.

Lemma main_backup_records_complete_witness :
  exists d,
    ((determine_script_and_base_dir (demo_env "y")).2 ++ ["sub"] ++ ["b.txt"], d) ∈
    [ (["/"; "s"; "a.txt"],
       ["/"; "s"; "backup_20261103_101500"; "a.txt"]);
      (["/"; "s"; "sub"; "b.txt"],
       ["/"; "s"; "backup_20261103_101500"; "sub"; "b.txt"]) ].
Proof.
  apply (main_backup_records_complete demo_args (demo_env "y") 5 20
           (World scenario_fs [])
           (main_backup demo_args (demo_env "y") 5 20 (World scenario_fs [])).2
           {[ "backup_20261103_101500"; "final_backup.py" ]} _
           (fs_wf_check_sound scenario_fs ltac:(vm_compute; reflexivity))
           ltac:(discriminate) ltac:(reflexivity) ltac:(vm_compute; reflexivity)
           ["sub"] "b.txt" ["a"; "b"; "c"]%byte true).
  - vm_compute. reflexivity.
  - vm_compute. reflexivity.
  - apply (bool_decide_eq_false_1 _). vm_compute. reflexivity.
  - discriminate.
  - intros _.
    exists 10%nat, [ ["/"; "s"]; ["/"; "s"; "sub"] ], (World scenario_fs []).
    split; [vm_compute; reflexivity|].
    apply list_elem_of_further, list_elem_of_here.
Defined.

(** ** What [main] never copies *)

Lemma copy_items_records (Q : copy_record -> Prop) dst_dir ex :
  (forall item, name item ∉ ex -> Q (item, joinpath dst_dir (name item))) ->
  forall items acc w res w',
    copy_items items dst_dir ex acc w = (Ok res, w') ->
    Forall Q acc -> Forall Q res.
Proof.
  intros HQ. induction items as [|item items IH]; intros acc w res w'; simpl.
  { unfold ret. intros; by simplify_eq. }
  destruct (bool_decide (name item ∈ ex)) eqn:Hex; [by apply IH|].
  apply bool_decide_eq_false in Hex.
  unfold bind at 1.
  destruct (Path_is_file item w) as [[[]| |] w0]; [|by apply IH|done..].
  unfold bind at 1.
  destruct (shutil_copy2 _ _ w0) as [[d| |] w1]; [|done..].
  intros Hrun Hacc. eapply IH; [exact Hrun|].
  apply Forall_app. split; [done|]. constructor; [by apply HQ|constructor].
Qed.

Lemma name_snoc (p : path) (s : string) : p <> [] -> name (p ++ [s]) = s.
Proof. apply name_joinpath_in. Qed.

(** X17. [main] puts the name of the backup directory and the name of
    the script into the exclusion set, and no record of the copy has a
    source with an excluded name: with a base directory that is not the
    empty path, the script never copies itself. *)
Theorem main_backup_skips_the_script (a : args) (e : env)
    (probe_fuel walk_fuel : nat) (w w1 : world)
    (exclude : gset string) (copied : list copy_record) :
  (determine_script_and_base_dir e).2 <> [] ->
  main_backup a e probe_fuel walk_fuel w = (Ok (exclude, copied), w1) ->
  name (determine_script_and_base_dir e).1 ∈ exclude /\
  forall s d, (s, d) ∈ copied ->
    (name s ∉ exclude) /\ s <> (determine_script_and_base_dir e).1.
Proof.
  intros Hbase Hrun.
  apply main_backup_ok in Hrun
    as (bdir & wa & wb & wc & _ & _ & Hexcl & Hcopy & _).
  set (base_dir := (determine_script_and_base_dir e).2) in *.
  set (script_path := (determine_script_and_base_dir e).1) in *.
  assert (name script_path ∈ exclude) as Hin
    by (rewrite Hexcl; apply elem_of_union_r, elem_of_singleton; done).
  split; [done|].
  assert (Forall (fun r : copy_record => name r.1 ∉ exclude) copied) as Hall.
  { destruct (recursive a).
    - unfold copy_files_recursive in Hcopy.
      apply walk_copy_records in Hcopy; [| |constructor].
      2:{ by apply Forall_singleton. }
      eapply Forall_impl; [exact Hcopy|].
      intros [s d] (rel & fname & Hs & Hf & _). simpl in *. subst s.
      rewrite app_assoc, name_snoc; [done|]. by destruct base_dir.
    - unfold copy_files_non_recursive in Hcopy. unfold bind at 1 in Hcopy.
      destruct (Path_iterdir base_dir wb) as [[items| |] wi]; [|done..].
      eapply copy_items_records; [|exact Hcopy|constructor].
      intros item Hitem. done. }
  intros s d Hsd. rewrite Forall_forall in Hall.
  specialize (Hall _ Hsd). simpl in Hall. split; [done|].
  intros ->. done.
Qed.

Lemma main_backup_skips_the_script_witness :
  name (determine_script_and_base_dir (demo_env "y")).1
    ∈ ({[ "backup_20261103_101500"; "final_backup.py" ]} : gset string) /\
  forall s d,
    (s, d) ∈ [ (["/"; "s"; "a.txt"],
                ["/"; "s"; "backup_20261103_101500"; "a.txt"]);
               (["/"; "s"; "sub"; "b.txt"],
                ["/"; "s"; "backup_20261103_101500"; "sub"; "b.txt"]) ] ->
    (name s ∉ ({[ "backup_20261103_101500"; "final_backup.py" ]} : gset string)) /\
    s <> (determine_script_and_base_dir (demo_env "y")).1.
Proof.
  apply (main_backup_skips_the_script demo_args (demo_env "y") 5 20
           (World scenario_fs [])
           (main_backup demo_args (demo_env "y") 5 20 (World scenario_fs [])).2).
  - discriminate.
  - vm_compute. reflexivity.
Defined.

(** ** [generate_secure_password] *)

Lemma length_string_of_list_ascii (l : list ascii) :
  String.length (string_of_list_ascii l) = length l.
Proof. induction l as [|c l IH]; simpl; [done|by rewrite IH]. Qed.

Lemma characters_printable c :
  In c characters -> (33 <= nat_of_ascii c <= 126)%nat.
Proof.
  assert (forallb (fun c => (33 <=? nat_of_ascii c)%nat &&
                            (nat_of_ascii c <=? 126)%nat) characters = true)
    as Hall by (vm_compute; reflexivity).
  rewrite forallb_forall in Hall. intros Hin.
  apply Hall, andb_true_iff in Hin as [H1 H2].
  apply Nat.leb_le in H1, H2. lia.
Qed.

(** X18. Whatever the random source draws, as long as a draw below [n] is
    below [n]: the password has as many characters as asked for, none for
    a negative length, and each of them is a printable ASCII character
    other than the space, with a code from 33 to 126.  The 94 characters
    with these codes are all there to be drawn, each one once. *)
Theorem generate_secure_password_spec (randbelow : nat -> nat -> nat)
    (length : Z) :
  (forall k n, (0 < n)%nat -> (randbelow k n < n)%nat) ->
  String.length (generate_secure_password randbelow length) = Z.to_nat length /\
  (forall c, In c (list_ascii_of_string
                     (generate_secure_password randbelow length)) ->
     In c characters /\ (33 <= nat_of_ascii c <= 126)%nat) /\
  (forall c, (33 <= nat_of_ascii c <= 126)%nat -> In c characters) /\
  NoDup characters.
Proof.
  intros Hrand. unfold generate_secure_password.
  rewrite length_string_of_list_ascii, length_map, length_seq.
  split; [done|]. split; [|split].
  - intros c. rewrite list_ascii_of_string_of_list_ascii, in_map_iff.
    intros (k & <- & _).
    assert (In (secrets_choice randbelow k characters) characters) as Hin.
    { unfold secrets_choice. apply nth_In, Hrand. vm_compute. lia. }
    split; [done|by apply characters_printable].
  - intros c Hc. rewrite <- (ascii_nat_embedding c).
    assert (forallb (fun n => existsb (Ascii.eqb (ascii_of_nat n)) characters)
                    (seq 33 94) = true) as Hall by (vm_compute; reflexivity).
    rewrite forallb_forall in Hall.
    specialize (Hall (nat_of_ascii c)). rewrite in_seq in Hall.
    apply existsb_exists in Hall as (c' & Hin & Heq); [|lia].
    apply Ascii.eqb_eq in Heq. by rewrite Heq.
  - apply (bool_decide_eq_true_1 _). vm_compute. reflexivity.
Qed.

Lemma generate_secure_password_spec_witness :
  String.length (generate_secure_password (fun k n => (7 * k + 3) mod n) 12)
    = Z.to_nat 12 /\
  (forall c, In c (list_ascii_of_string
                     (generate_secure_password
                        (fun k n => (7 * k + 3) mod n) 12)) ->
     In c characters /\ (33 <= nat_of_ascii c <= 126)%nat) /\
  (forall c, (33 <= nat_of_ascii c <= 126)%nat -> In c characters) /\
  NoDup characters.
Proof.
  apply (generate_secure_password_spec (fun k n => (7 * k + 3) mod n) 12).
  intros k n Hn. apply Nat.mod_upper_bound. lia.
Defined.

Example generate_secure_password_run :
  generate_secure_password (fun k n => (7 * k + 3) mod n) 12 = "dkryFMT07%,=".
Proof. vm_compute. reflexivity. Qed.
